(** * URL_Checker: the scoring and aggregation pipeline

    A shallow embedding of the server side of the repository:
    - [server/index.js]          (aggregator: [summarizeOverall], the
                                  [/api/check] handler),
    - [server/checks/tls.js]     ([checkTLS]),
    - [server/checks/headers.js] ([checkHeaders]),
    - [server/checks/cookies.js] ([checkCookies]),
    - [server/checks/whois.js]   ([checkWhois]).

    Conventions.
    - A JavaScript string is a [string]: a sequence of 8-bit code units,
      which is what Node hands out for header bytes (latin1).  The text
      typed into the form of the client is a sequence of UTF-16 code
      units ([Client.text]).
    - Every score in the code is an integer obtained from the constant 25
      by subtracting integer constants, so scores are [Z] and
      [Math.round] on a score is the identity.  The one place where the
      code divides, [summarizeOverall], is computed on IEEE doubles
      (module [Binary64], on the primitive floats).
    - Everything the code obtains from outside (network, clock, the URL,
      date, cookie and public-suffix parsers) is an explicit input.
    - A promise is its settlement: [Fulfilled v] or [Rejected fault]. *)

From Stdlib Require Import ZArith QArith Qround String Ascii List Lia Bool.
From Stdlib Require Floats Uint63.
From stdpp Require Import base option list gmap strings pretty.
Import ListNotations.

Close Scope Q_scope.
Local Open Scope string_scope.
Local Open Scope Z_scope.

(* ===================================================================== *)
(** ** JavaScript primitives used by the checks *)
(* ===================================================================== *)

Module Js.

(** A thrown value, as the handler reads it: [reason?.message]. *)
Record fault := Fault { message : option string }.

(** The settlement of a promise ([Promise.allSettled] entries). *)
Inductive settled (A : Type) :=
| Fulfilled (value : A)
| Rejected (reason : fault).
Arguments Fulfilled {A} value.
Arguments Rejected {A} reason.

(** Values stored in result objects and WHOIS records. *)
#[local] Unset Elimination Schemes.
Inductive value :=
| Undefined
| Null
| Bool (b : bool)
| Num (n : Z)
| Str (s : string)
| Arr (l : list value)
| Obj (fields : list (string * value)).
#[local] Set Elimination Schemes.

(** [Boolean(v)] *)
Definition truthy (v : value) : bool :=
  match v with
  | Undefined | Null => false
  | Bool b => b
  | Num n => negb (n =? 0)
  | Str s => negb (String.eqb s "")
  | Arr _ | Obj _ => true
  end.

(** [Boolean(s)] for a string. *)
Definition nonempty (s : string) : bool := negb (String.eqb s "").

(** [Boolean(s)] for a possibly undefined string. *)
Definition truthy_str (o : option string) : bool :=
  match o with Some s => nonempty s | None => false end.

(** An optional string as a [value] ([undefined] when absent). *)
Definition of_opt (o : option string) : value :=
  match o with Some s => Str s | None => Undefined end.

(** [[a, b, ...].filter(Boolean)] on possibly undefined strings. *)
Definition filter_Boolean (l : list (option string)) : list string :=
  omap (fun o => match o with
                 | Some s => if nonempty s then Some s else None
                 | None => None
                 end) l.

(** White space in the sense of [String.prototype.trim] and of [\s],
    restricted to 8-bit code units: TAB, LF, VT, FF, CR, SP, NBSP. *)
Definition is_space (c : ascii) : bool :=
  let n := N_of_ascii c in
  ((9 <=? n) && (n <=? 13) || (n =? 32) || (n =? 160))%N.

Definition is_digit (c : ascii) : bool :=
  let n := N_of_ascii c in ((48 <=? n) && (n <=? 57))%N.

Fixpoint trimStart (s : string) : string :=
  match s with
  | String c t => if is_space c then trimStart t else s
  | EmptyString => EmptyString
  end.

Fixpoint trimEnd (s : string) : string :=
  match s with
  | EmptyString => EmptyString
  | String c t =>
      let t' := trimEnd t in
      if is_space c && String.eqb t' "" then EmptyString else String c t'
  end.

Definition trim (s : string) : string := trimEnd (trimStart s).

(** [toLowerCase] on one code unit: A-Z, and the Latin-1 capitals
    U+00C0..U+00DE except the multiplication sign U+00D7. *)
Definition lower_char (c : ascii) : ascii :=
  let n := N_of_ascii c in
  if ((65 <=? n) && (n <=? 90) ||
      (192 <=? n) && (n <=? 222) && negb (n =? 215))%N
  then ascii_of_N (n + 32) else c.

Fixpoint toLowerCase (s : string) : string :=
  match s with
  | EmptyString => EmptyString
  | String c t => String (lower_char c) (toLowerCase t)
  end.

(** [s.startsWith(p)] *)
Definition startsWith (p s : string) : bool := String.prefix p s.

(** [Boolean(x && y)] where [x] is a possibly undefined string and [y]
    depends on it. *)
Definition and_then (x : option string) (y : string -> bool) : bool :=
  match x with
  | Some s => nonempty s && y s
  | None => false
  end.

(** A literal of a regular expression with the [i] flag, tried at the
    start of [s]; the rest of [s] after the literal when it is there.
    (The literals of this program are lower-case ASCII, for which
    case-insensitive matching is comparison after [lower_char].) *)
Fixpoint lit_i (p s : string) : option string :=
  match p, s with
  | EmptyString, _ => Some s
  | String a p', String c s' =>
      if Ascii.eqb a (lower_char c) then lit_i p' s' else None
  | String _ _, EmptyString => None
  end.

(** [re.test(s)] for an unanchored expression: [at_start] says whether
    the expression matches at the start of a string; the search tries
    every position from left to right. *)
Fixpoint search (at_start : string -> bool) (s : string) : bool :=
  at_start s ||
  match s with
  | EmptyString => false
  | String _ t => search at_start t
  end.

(** [s.split(sep)] for a one-character separator. *)
Fixpoint split (sep : ascii) (s : string) : list string :=
  match s with
  | EmptyString => [EmptyString]
  | String c t =>
      if Ascii.eqb c sep then EmptyString :: split sep t
      else match split sep t with
           | h :: r => String c h :: r
           | [] => [String c EmptyString]
           end
  end.

(** [s.split(/\s+/)] *)
Fixpoint split_spaces (s : string) : list string :=
  match s with
  | EmptyString => [EmptyString]
  | String c t =>
      if is_space c then
        match t with
        | String c' _ => if is_space c' then split_spaces t
                         else EmptyString :: split_spaces t
        | EmptyString => EmptyString :: split_spaces t
        end
      else match split_spaces t with
           | h :: r => String c h :: r
           | [] => [String c EmptyString]
           end
  end.

(** [l.join(sep)] *)
Definition join (sep : string) (l : list string) : string :=
  String.concat sep l.

(** [s.replace(':', '')]: the first occurrence of the character only. *)
Fixpoint remove_first (x : ascii) (s : string) : string :=
  match s with
  | EmptyString => EmptyString
  | String c t => if Ascii.eqb c x then t else String c (remove_first x t)
  end.

(** [s.replace(/[...]/g, '')]: every character of the class goes. *)
Fixpoint remove_all (class : ascii -> bool) (s : string) : string :=
  match s with
  | EmptyString => EmptyString
  | String c t =>
      if class c then remove_all class t else String c (remove_all class t)
  end.

End Js.

Import Js.

(* ===================================================================== *)
(** ** CategoryResult *)
(* ===================================================================== *)

Record CategoryResult := {
  key : string;
  label : string;
  score : Z;
  maxScore : Z;
  passed : bool;
  warnings : list string;
  details : list (string * value);
}.

(** A property read from a result object ([undefined] when absent). *)
Fixpoint get (k : string) (o : list (string * value)) : value :=
  match o with
  | [] => Undefined
  | (k', v) :: r => if String.eqb k k' then v else get k r
  end.

(** The shape every module's [finalizeResult] has; each module
    instantiates it with its own four constants.  [boundedScore] is
    [Math.max(0, Math.min(MAX_SCORE, Math.round(score)))], the rounding
    being the identity on an integer. *)
Definition finalize (KEY LABEL : string) (MAX THRESHOLD : Z)
    (score : Z) (warnings : list string) (details : list (string * value))
    : CategoryResult :=
  let boundedScore := Z.max 0 (Z.min MAX score) in
  {| key := KEY;
     label := LABEL;
     score := boundedScore;
     maxScore := MAX;
     passed := THRESHOLD <=? boundedScore;
     warnings := warnings;
     details := details |}.

(** Own property of an object literal: [o[k]], [None] when undefined. *)
Fixpoint prop {A : Type} (k : string) (o : list (string * A)) : option A :=
  match o with
  | [] => None
  | (k', v) :: r => if String.eqb k k' then Some v else prop k r
  end.

(* ===================================================================== *)
(** ** The outside world, as the checks see it *)
(* ===================================================================== *)

(** What [new URL(s)] exposes to the checks. *)
Record URL := {
  protocol : string;   (* with the colon: "https:" *)
  hostname : string;
  port : string;       (* decimal digits, empty for the default port *)
  href : string;       (* [toString()] *)
}.

(** An axios response, restricted to what the checks read.  Header values
    are what Node's HTTP parser produces (a string, or a list of strings
    for [set-cookie]) or a number, the three shapes [normalizeValue]
    has a branch for. *)
Inductive HeaderValue :=
| HStr (s : string)
| HArr (l : list string)
| HNum (n : Z).

Record Response := {
  status : option Z;
  headers : option (list (string * HeaderValue));
  responseUrl : option string;   (* [request?.res?.responseUrl] *)
  configUrl : option string;     (* [config?.url] *)
}.

(** [axios.get]: a response, or a thrown error that may carry one. *)
Inductive AxiosOutcome :=
| AxiosResponse (r : Response)
| AxiosError (error : fault) (response : option Response).

(** The shared fetch context [{ response, fetchError }]. *)
Record Context := {
  ctx_response : option Response;
  ctx_fetchError : option fault;
}.

(** [capturedError?.message] *)
Definition message_of (e : option fault) : option string :=
  match e with Some f => message f | None => None end.

(** [a || b || c] on optional strings. *)
Definition or_else (a : option string) (b : string) : string :=
  match a with
  | Some s => if nonempty s then s else b
  | None => b
  end.

(** [response.request?.res?.responseUrl || response.config?.url || targetUrl] *)
Definition finalUrl (response : Response) (targetUrl : string) : string :=
  or_else (responseUrl response) (or_else (configUrl response) targetUrl).

(** The mutable locals of a scoring block: [score], [warnings],
    [details], with the three ways the code updates them:
    [warnings.push(w)], [score = f(score)] and [details.k = v]. *)
Record Locals := {
  l_score : Z;
  l_warnings : list string;
  l_details : list (string * value);
}.

Definition push (w : string) (l : Locals) : Locals :=
  {| l_score := l_score l; l_warnings := l_warnings l ++ [w];
     l_details := l_details l |}.

Definition assign (f : Z -> Z) (l : Locals) : Locals :=
  {| l_score := f (l_score l); l_warnings := l_warnings l;
     l_details := l_details l |}.

Definition set (k : string) (v : value) (l : Locals) : Locals :=
  {| l_score := l_score l; l_warnings := l_warnings l;
     l_details := l_details l ++ [(k, v)] |}.

(* ===================================================================== *)
(** ** server/checks/tls.js *)
(* ===================================================================== *)

Module Tls.

Definition CATEGORY_KEY := "tls".
Definition CATEGORY_LABEL := "HTTPS & TLS".
Definition MAX_SCORE := 25.
Definition PASSING_THRESHOLD := 18.
Definition DEFAULT_TIMEOUT := 5000.

Definition finalizeResult :=
  finalize CATEGORY_KEY CATEGORY_LABEL MAX_SCORE PASSING_THRESHOLD.

(** A distinguished name ([cert.issuer], [cert.subject]); [None] when the
    field is undefined, null or not an object. *)
Definition Name := option (list (string * string)).

Definition formatName (entity : Name) : option string :=
  match entity with
  | None => None
  | Some e =>
      let preferredOrder := ["CN"; "O"; "OU"] in
      let parts := filter_Boolean (map (fun k => prop k e) preferredOrder) in
      match parts with
      | [] =>
          let fallback := filter_Boolean (map (fun kv => Some (snd kv)) e) in
          match fallback with
          | [] => None
          | _ => Some (join ", " fallback)
          end
      | _ => Some (join ", " parts)
      end
  end.

(** The leaf certificate as [getPeerCertificate] describes it. *)
Record Certificate := {
  issuer : Name;
  subject : Name;
  serialNumber : option string;
  valid_from : option string;
  valid_to : option string;
  subjectaltname : option string;
}.

(** What the socket yields inside the [secureConnect] callback: the
    certificate ([None] for null, undefined or the empty object) and the
    negotiated protocol, or an exception. *)
Inductive Peer :=
| PeerThrows (error : fault)
| PeerInfo (cert : option Certificate) (protocol : option string).

(** The first of the three completion paths of the handshake to fire. *)
Inductive SocketEvent :=
| OnSecureConnect (peer : Peer)
| OnError (error : fault)
| OnTimeout.

(** A check either answers at once or opens one TLS connection and
    answers from the event it gets back. *)
Inductive Program :=
| Answer (result : CategoryResult)
| Connect (host : string) (port : Z) (timeout : Z)
          (callback : SocketEvent -> CategoryResult).

(** The connections a program attempts. *)
Definition connections (p : Program) : list (string * Z) :=
  match p with
  | Answer _ => []
  | Connect host port _ _ => [(host, port)]
  end.

(** Running a program against a network. *)
Definition run (network : string -> Z -> SocketEvent) (p : Program)
    : CategoryResult :=
  match p with
  | Answer r => r
  | Connect host port _ callback => callback (network host port)
  end.

(** [toUpperCase] on a protocol name (ASCII, as OpenSSL names them). *)
Definition upper_char (c : ascii) : ascii :=
  let n := N_of_ascii c in
  if ((97 <=? n) && (n <=? 122))%N then ascii_of_N (n - 32) else c.

Fixpoint toUpperCase (s : string) : string :=
  match s with
  | EmptyString => EmptyString
  | String c t => String (upper_char c) (toUpperCase t)
  end.

(** [Number(s)] for the decimal digits of [URL.port]. *)
Definition Number (s : string) : Z :=
  fold_left (fun acc c => 10 * acc + (Z.of_N (N_of_ascii c) - 48))
            (list_ascii_of_string s) 0.

(** [parsedUrl.port ? Number(parsedUrl.port) : 443] *)
Definition portOf (parsedUrl : URL) : Z :=
  if nonempty (port parsedUrl) then Number (port parsedUrl) else 443.

(** [entry.trim().replace(/^DNS:\s*/i, '')] *)
Definition strip_DNS (entry : string) : string :=
  let e := trim entry in
  match lit_i "dns:" e with
  | Some rest => trimStart rest
  | None => e
  end.

Section Check.

Variable URL_parse : string -> option URL.     (* [new URL(s)], [None]: throws *)
Variable Date_parse : string -> option Z.      (* [new Date(s).getTime()], [None]: NaN *)
Variable toISOString : Z -> string.
Variable now : Z.                              (* [Date.now()] *)

Definition protocolStep (protocol : option string) (l : Locals) : Locals :=
  match protocol with
  | Some p =>
      if nonempty p then
        let l := set "protocol" (Str p) l in
        if negb (startsWith "TLS" (toUpperCase p)) then
          assign (fun s => s - 10)
                 (push ("Insecure protocol negotiated: " ++ p) l)
        else l
      else l
  | None => l
  end.

Definition issuerStep (c : Certificate) (l : Locals) : Locals :=
  match formatName (issuer c) with
  | Some i => set "issuer" (Str i) l
  | None =>
      assign (fun s => s - 3)
             (push "Certificate issuer information is incomplete." l)
  end.

Definition subjectStep (c : Certificate) (l : Locals) : Locals :=
  match formatName (subject c) with
  | Some s => set "subject" (Str s) l
  | None => l
  end.

Definition serialStep (c : Certificate) (l : Locals) : Locals :=
  match serialNumber c with
  | Some s => if nonempty s then set "serialNumber" (Str s) l else l
  | None => l
  end.

Definition validFromStep (c : Certificate) (l : Locals) : Locals :=
  match valid_from c with
  | Some s =>
      if nonempty s then
        match Date_parse s with
        | Some t => set "validFrom" (Str (toISOString t)) l
        | None => l
        end
      else l
  | None => l
  end.

Definition expiryBrackets (daysUntilExpiry : Z) (l : Locals) : Locals :=
  if daysUntilExpiry <? 0 then
    assign (fun _ => 0) (push "Certificate is expired." l)
  else if daysUntilExpiry <=? 7 then
    assign (fun s => s - 12) (push "Certificate expires within 7 days." l)
  else if daysUntilExpiry <=? 30 then
    assign (fun s => s - 8) (push "Certificate expires within 30 days." l)
  else if daysUntilExpiry <=? 90 then
    assign (fun s => s - 3) (push "Certificate expires within 90 days." l)
  else l.

Definition validToStep (c : Certificate) (l : Locals) : Locals :=
  if truthy_str (valid_to c) then
    match Date_parse (default "" (valid_to c)) with
    | Some validTo =>
        let l := set "validTo" (Str (toISOString validTo)) l in
        let diffMs := validTo - now in
        let daysUntilExpiry := diffMs / (1000 * 60 * 60 * 24) in
        let l := set "daysUntilExpiry" (Num daysUntilExpiry) l in
        expiryBrackets daysUntilExpiry l
    | None =>
        assign (fun s => s - 4)
               (push "Unable to parse certificate expiration date." l)
    end
  else
    assign (fun s => s - 6) (push "Certificate expiration date is missing." l).

Definition sanEntries (san : string) : list string :=
  List.filter nonempty (map strip_DNS (split "," san)).

Definition sanStep (host : string) (c : Certificate) (l : Locals) : Locals :=
  if truthy_str (subjectaltname c) then
    let entries := sanEntries (default "" (subjectaltname c)) in
    match entries with
    | [] => l
    | _ =>
        let l := set "subjectAltNames" (Arr (map Str entries)) l in
        if negb (existsb (String.eqb host) entries) then
          assign (fun s => s - 5)
                 (push "Hostname is not explicitly listed in the certificate SAN entries." l)
        else l
    end
  else l.

(** The body of the [try] block once the socket has answered. *)
Definition inspect (host : string) (cert : option Certificate)
    (protocol : option string) (l : Locals) : Locals :=
  let l := protocolStep protocol l in
  match cert with
  | None =>
      assign (fun s => Z.min s 5)
             (push "Unable to read TLS certificate details." l)
  | Some c =>
      sanStep host c
        (validToStep c
          (validFromStep c
            (serialStep c
              (subjectStep c
                (issuerStep c l)))))
  end.

(** The [secureConnect] callback: [try], [catch], [finally]. *)
Definition onSecureConnect (host : string) (port : Z) (peer : Peer)
    : CategoryResult :=
  let l0 := {| l_score := MAX_SCORE; l_warnings := [];
               l_details := [("host", Str host); ("port", Num port)] |} in
  let l :=
    match peer with
    | PeerInfo cert protocol => inspect host cert protocol l0
    | PeerThrows error =>
        assign (fun s => Z.min s 10)
               (set "error" (of_opt (message error))
                    (push "TLS inspection failed." l0))
    end in
  finalizeResult (l_score l) (l_warnings l) (l_details l).

Definition checkTLS (targetUrl : string) : Program :=
  let timeout := DEFAULT_TIMEOUT in
  match URL_parse targetUrl with
  | None =>
      Answer (finalizeResult 0
        ["The URL is not valid, so the TLS certificate could not be checked."]
        [])
  | Some parsedUrl =>
      if negb (String.eqb (protocol parsedUrl) "https:") then
        Answer (finalizeResult 0
          ["Site does not use HTTPS; TLS certificate was not evaluated."]
          [("protocol", Str (remove_first ":" (protocol parsedUrl)))])
      else
        let port := portOf parsedUrl in
        Connect (hostname parsedUrl) port timeout (fun event =>
          match event with
          | OnSecureConnect peer =>
              onSecureConnect (hostname parsedUrl) port peer
          | OnError error =>
              finalizeResult 0
                (filter_Boolean [Some "Could not establish a TLS connection.";
                                 message error])
                [("error", of_opt (message error))]
          | OnTimeout =>
              finalizeResult 0 ["TLS handshake timed out."] []
          end)
  end.

End Check.

End Tls.

(* ===================================================================== *)
(** ** server/checks/headers.js *)
(* ===================================================================== *)

Module Headers.

Definition CATEGORY_KEY := "headers".
Definition CATEGORY_LABEL := "Security Headers".
Definition MAX_SCORE := 25.
Definition PASSING_THRESHOLD := 18.
Definition DEFAULT_TIMEOUT := 8000.

Definition finalizeResult :=
  finalize CATEGORY_KEY CATEGORY_LABEL MAX_SCORE PASSING_THRESHOLD.

Definition normalizeValue (v : option HeaderValue) : option string :=
  match v with
  | Some (HArr l) => Some (join ", " (map trim l))
  | Some (HNum n) => Some (pretty n)
  | None => None
  | Some (HStr s) => Some (trim s)
  end.

(** [Boolean(headers[k])] *)
Definition Boolean (v : option HeaderValue) : bool :=
  match v with
  | None => false
  | Some (HStr s) => nonempty s
  | Some (HArr _) => true
  | Some (HNum n) => negb (n =? 0)
  end.

(** The regular expressions of the rubric, each as its match at the
    start of a string; [search] makes them unanchored. *)

(** [/frame-ancestors\s+/i] *)
Definition re_frame_ancestors (s : string) : bool :=
  match lit_i "frame-ancestors" s with
  | Some (String c _) => is_space c
  | _ => false
  end.

(** [/max-age=\d+/i] *)
Definition re_max_age (s : string) : bool :=
  match lit_i "max-age=" s with
  | Some (String c _) => is_digit c
  | _ => false
  end.

(** [/sameorigin|deny/i] *)
Definition re_frame_options (s : string) : bool :=
  bool_decide (is_Some (lit_i "sameorigin" s)) ||
  bool_decide (is_Some (lit_i "deny" s)).

(** [/(no-referrer|strict-origin|strict-origin-when-cross-origin)/i] *)
Definition re_referrer (s : string) : bool :=
  bool_decide (is_Some (lit_i "no-referrer" s)) ||
  bool_decide (is_Some (lit_i "strict-origin" s)) ||
  bool_decide (is_Some (lit_i "strict-origin-when-cross-origin" s)).

Record HeaderCheck := {
  hc_key : string;
  hc_label : string;
  weight : Z;
  present : bool;
  valid : bool;       (* the value of the thunk [valid()] *)
  warning : string;
}.

(** [!check.present || !check.valid()] *)
Definition failed (check : HeaderCheck) : bool :=
  negb (present check) || negb (valid check).

Definition createHeaderChecks (headers : gmap string HeaderValue)
    : list HeaderCheck :=
  let csp := headers !! "content-security-policy" in
  let cspValue := normalizeValue csp in
  (* only the truth value of [cspValue && re.test(cspValue)] is used *)
  let hasFrameAncestors := and_then cspValue (search re_frame_ancestors) in
  [ {| hc_key := "strict-transport-security";
       hc_label := "HSTS (Strict-Transport-Security)";
       weight := 5;
       present := Boolean (headers !! "strict-transport-security");
       valid :=
         (let value := normalizeValue (headers !! "strict-transport-security") in
          and_then value (search re_max_age));
       warning := "Missing Strict-Transport-Security header (HSTS)." |};
    {| hc_key := "content-security-policy";
       hc_label := "Content-Security-Policy";
       weight := 5;
       present := Boolean (headers !! "content-security-policy");
       valid := and_then cspValue (fun v => (0 <? String.length v)%nat);
       warning := "Missing Content-Security-Policy header." |};
    {| hc_key := "x-frame-options";
       hc_label := "Clickjacking protection";
       weight := 4;
       present := Boolean (headers !! "x-frame-options") || hasFrameAncestors;
       valid :=
         (let value := normalizeValue (headers !! "x-frame-options") in
          if truthy_str value then search re_frame_options (default "" value)
          else hasFrameAncestors);
       warning := "Missing X-Frame-Options header or frame-ancestors directive." |};
    {| hc_key := "referrer-policy";
       hc_label := "Referrer-Policy";
       weight := 4;
       present := Boolean (headers !! "referrer-policy");
       valid :=
         (let value := normalizeValue (headers !! "referrer-policy") in
          and_then value (search re_referrer));
       warning := "Missing Referrer-Policy header." |};
    {| hc_key := "permissions-policy";
       hc_label := "Permissions-Policy";
       weight := 3;
       present := Boolean (headers !! "permissions-policy");
       valid :=
         (let value := normalizeValue (headers !! "permissions-policy") in
          and_then value (fun v => (0 <? String.length v)%nat));
       warning := "Missing Permissions-Policy header." |};
    {| hc_key := "x-content-type-options";
       hc_label := "X-Content-Type-Options";
       weight := 4;
       present := Boolean (headers !! "x-content-type-options");
       valid :=
         (let value := normalizeValue (headers !! "x-content-type-options") in
          and_then value (fun v => String.eqb (toLowerCase v) "nosniff"));
       warning := "Missing X-Content-Type-Options header (nosniff)." |} ].

Definition extractHeaders (response : Response) : gmap string HeaderValue :=
  match headers response with
  | None => ∅
  | Some entries =>
      fold_left (fun acc kv => <[toLowerCase (fst kv) := snd kv]> acc)
                entries ∅
  end.

(** The response the check works on, and the error it captured: the
    shared one when there is one, else the outcome of its own request. *)
Definition obtain (axios_get : string -> AxiosOutcome) (targetUrl : string)
    (context : Context) : option Response * option fault :=
  match ctx_response context with
  | Some r => (Some r, ctx_fetchError context)
  | None =>
      match axios_get targetUrl with
      | AxiosResponse r => (Some r, ctx_fetchError context)
      | AxiosError error r => (r, Some error)
      end
  end.

(** The [forEach] over the checks. *)
Definition applyCheck (l : Locals) (check : HeaderCheck) : Locals :=
  if failed check then
    assign (fun s => s - weight check) (push (warning check) l)
  else l.

Definition checkHeaders (axios_get : string -> AxiosOutcome)
    (targetUrl : string) (context : Context) : CategoryResult :=
  let '(response, capturedError) := obtain axios_get targetUrl context in
  match response with
  | None =>
      finalizeResult 0
        (filter_Boolean [Some "Unable to retrieve the site response headers.";
                         message_of capturedError])
        []
  | Some response =>
      let headers := extractHeaders response in
      let checks := createHeaderChecks headers in
      let presentHeaders :=
        (fun kv => (fst kv, of_opt (normalizeValue (Some (snd kv)))))
          <$> map_to_list headers in
      let l := fold_left applyCheck checks
                 {| l_score := MAX_SCORE; l_warnings := []; l_details := [] |} in
      finalizeResult (l_score l) (l_warnings l)
        [ ("statusCode", from_option Num Undefined (status response));
          ("finalUrl", Str (finalUrl response targetUrl));
          ("presentHeaders", Obj presentHeaders);
          ("missing", Arr (map (fun c => Str (hc_label c)) (List.filter failed checks))) ]
  end.

End Headers.

(* ===================================================================== *)
(** ** server/checks/cookies.js *)
(* ===================================================================== *)

Module Cookies.

Definition CATEGORY_KEY := "cookies".
Definition CATEGORY_LABEL := "Cookie Security".
Definition MAX_SCORE := 25.
Definition PASSING_THRESHOLD := 18.
Definition DEFAULT_TIMEOUT := 8000.

Definition finalizeResult :=
  finalize CATEGORY_KEY CATEGORY_LABEL MAX_SCORE PASSING_THRESHOLD.

(** A [Date] object: a time value, or the invalid date whose time
    value is NaN. *)
Inductive JsDate :=
| ValidDate (time : Z)
| InvalidDate.

(** A cookie as the set-cookie tokenizer returns it.  The tokenizer
    stores [new Date(text)] for the [Expires] attribute, whatever the
    text is, and [true] for the [Secure] and [HttpOnly] flags. *)
Record Cookie := {
  name : string;
  domain : option string;
  path : option string;
  expires : option JsDate;
  secure : bool;
  httpOnly : bool;
  sameSite : option string;
}.

Definition sanitizeSameSite (v : option string) : option string :=
  match v with
  | Some s => if nonempty s then Some (toLowerCase s) else None
  | None => None
  end.

(** [if (c) issues.push(w)] *)
Definition when (c : bool) (w : string) (issues : list string) : list string :=
  if c then issues ++ [w] else issues.

Definition analyzeCookieIssues (cookie : Cookie) : list string :=
  let issues := [] in
  let sameSite := sanitizeSameSite (sameSite cookie) in
  let issues := when (negb (secure cookie)) "Missing Secure attribute." issues in
  let issues := when (negb (httpOnly cookie)) "Missing HttpOnly attribute." issues in
  let issues :=
    match sameSite with
    | None => when true "Missing SameSite attribute." issues
    | Some s =>
        when (String.eqb s "none" && negb (secure cookie))
             "SameSite=None cookies must also be Secure." issues
    end in
  let issues :=
    when (startsWith "__Secure-" (name cookie) && negb (secure cookie))
         "__Secure- cookies must set the Secure flag." issues in
  let issues :=
    if startsWith "__Host-" (name cookie) then
      let issues :=
        when (negb (secure cookie))
             "__Host- cookies must set the Secure flag." issues in
      let issues :=
        when (negb (bool_decide (path cookie = Some "/")))
             "__Host- cookies must have Path=/" issues in
      when (truthy_str (domain cookie))
           "__Host- cookies must not specify a Domain attribute." issues
    else issues in
  issues.

(** An entry of [cookiesWithDetails]. *)
Record CookieDetails := {
  d_name : string;
  d_domain : option string;
  d_path : option string;
  d_expires : option string;
  d_secure : bool;
  d_httpOnly : bool;
  d_sameSite : option string;
  d_issues : list string;
}.

Definition to_value (c : CookieDetails) : value :=
  Obj [ ("name", Str (d_name c));
        ("domain", of_opt (d_domain c));
        ("path", of_opt (d_path c));
        ("expires", of_opt (d_expires c));
        ("secure", Bool (d_secure c));
        ("httpOnly", Bool (d_httpOnly c));
        ("sameSite", of_opt (d_sameSite c));
        ("issues", Arr (map Str (d_issues c))) ].

Definition obtain (axios_get : string -> AxiosOutcome) (targetUrl : string)
    (context : Context) : option Response * option fault :=
  match ctx_response context with
  | Some r => (Some r, ctx_fetchError context)
  | None =>
      match axios_get targetUrl with
      | AxiosResponse r => (Some r, ctx_fetchError context)
      | AxiosError error r => (r, Some error)
      end
  end.

(** [!setCookieHeader || setCookieHeader.length === 0] *)
Definition noSetCookie (setCookieHeader : option HeaderValue) : bool :=
  match setCookieHeader with
  | None => true
  | Some (HStr s) => String.eqb s ""
  | Some (HArr l) => bool_decide (l = [])
  | Some (HNum n) => n =? 0
  end.

Section Check.

Variable axios_get : string -> AxiosOutcome.
(** [setCookieParser.parse(header, { map: false })] *)
Variable parse : option HeaderValue -> list Cookie.
Variable toISOString : Z -> string.

(** [new Date(d).toISOString()]: a RangeError on the invalid date. *)
Definition isoString (d : JsDate) : settled string :=
  match d with
  | ValidDate t => Fulfilled (toISOString t)
  | InvalidDate => Rejected (Fault (Some "Invalid time value"))
  end.

(** The callback of [parsedCookies.map]: it adds to [penalty] and
    returns the entry, or throws. *)
Definition describe (cookie : Cookie) (penalty : Z)
    : settled (Z * CookieDetails) :=
  let issues := analyzeCookieIssues cookie in
  let penalty :=
    if (0 <? length issues)%nat then penalty + Z.of_nat (length issues) * 5
    else penalty in
  match
    match expires cookie with
    | Some d =>
        match isoString d with
        | Fulfilled s => Fulfilled (Some s)
        | Rejected e => Rejected e
        end
    | None => Fulfilled None
    end
  with
  | Rejected e => Rejected e
  | Fulfilled expires =>
      Fulfilled (penalty,
        {| d_name := name cookie;
           d_domain := domain cookie;
           d_path := path cookie;
           d_expires := expires;
           d_secure := secure cookie;
           d_httpOnly := httpOnly cookie;
           d_sameSite := sanitizeSameSite (sameSite cookie);
           d_issues := issues |})
  end.

(** [parsedCookies.map(callback)], left to right, with the running
    [penalty]; the first exception ends it. *)
Fixpoint mapCookies (cookies : list Cookie) (penalty : Z)
    : settled (Z * list CookieDetails) :=
  match cookies with
  | [] => Fulfilled (penalty, [])
  | cookie :: rest =>
      match describe cookie penalty with
      | Rejected e => Rejected e
      | Fulfilled (penalty, entry) =>
          match mapCookies rest penalty with
          | Rejected e => Rejected e
          | Fulfilled (penalty, entries) => Fulfilled (penalty, entry :: entries)
          end
      end
  end.

Definition checkCookies (targetUrl : string) (context : Context)
    : settled CategoryResult :=
  let '(response, capturedError) := obtain axios_get targetUrl context in
  match response with
  | None =>
      Fulfilled (finalizeResult 0
        (filter_Boolean [Some "Unable to retrieve response cookies.";
                         message_of capturedError])
        [])
  | Some response =>
      let setCookieHeader :=
        match headers response with
        | Some h => prop "set-cookie" h
        | None => None
        end in
      if noSetCookie setCookieHeader then
        Fulfilled (finalizeResult MAX_SCORE []
          [ ("totalCookies", Num 0);
            ("note", Str "No cookies were set during the initial request.") ])
      else
        let parsedCookies := parse setCookieHeader in
        match mapCookies parsedCookies 0 with
        | Rejected e => Rejected e
        | Fulfilled (penalty, cookiesWithDetails) =>
            let score := Z.max 0 (MAX_SCORE - Z.min MAX_SCORE penalty) in
            let insecureCookies :=
              List.filter (fun c => (0 <? length (d_issues c))%nat)
                          cookiesWithDetails in
            let warnings :=
              map (fun c => d_name c ++ ": " ++ join " " (d_issues c))
                  insecureCookies in
            Fulfilled (finalizeResult score warnings
              [ ("totalCookies", Num (Z.of_nat (length parsedCookies)));
                ("insecureCookies", Num (Z.of_nat (length insecureCookies)));
                ("cookies", Arr (map to_value cookiesWithDetails)) ])
        end
  end.

End Check.

End Cookies.

(* ===================================================================== *)
(** ** server/checks/whois.js *)
(* ===================================================================== *)

Module Whois.

Definition CATEGORY_KEY := "whois".
Definition CATEGORY_LABEL := "Domain WHOIS".
Definition MAX_SCORE := 25.
Definition PASSING_THRESHOLD := 18.
Definition DEFAULT_TIMEOUT := 10000.
Definition DAY_IN_MS := 1000 * 60 * 60 * 24.

(** [whois(domain, options)]: a record ([None] for null or undefined),
    or a thrown error. *)
Inductive WhoisOutcome :=
| WhoisRecord (record : option (list (string * value)))
| WhoisError (error : fault).

(** [key.toLowerCase().replace(/[\s_-]/g, '')] *)
Definition normalizeKey (key : string) : string :=
  remove_all (fun c => is_space c || Ascii.eqb c "_" || Ascii.eqb c "-")
             (toLowerCase key).

Definition normalizeRecord (record : list (string * value)) : gmap string value :=
  fold_left (fun acc kv => <[normalizeKey (fst kv) := snd kv]> acc) record ∅.

Fixpoint pickValue (record : gmap string value) (keys : list string) : value :=
  match keys with
  | [] => Undefined
  | key :: rest =>
      match record !! normalizeKey key with
      | Some Undefined | None => pickValue record rest
      | Some v => v
      end
  end.

(** [x || undefined] *)
Definition or_undefined (v : value) : value :=
  if truthy v then v else Undefined.

Definition toArray (v : value) : list value :=
  if negb (truthy v) then []
  else match v with
       | Arr l => l
       | Str s => map Str (List.filter nonempty (map trim (split_spaces s)))
       | _ => []
       end.

Definition finalizeResult :=
  finalize CATEGORY_KEY CATEGORY_LABEL MAX_SCORE PASSING_THRESHOLD.

Section Check.

Variable URL_parse : string -> option URL.
(** [psl.parse(hostname).domain] *)
Variable psl_domain : string -> option string.
Variable whois : string -> WhoisOutcome.
Variable Date_parse : string -> option Z.
Variable toISOString : Z -> string.
Variable now : Z.

(** The time value of the parsed date, [None] for [undefined]. *)
Definition parseDate (v : value) : option Z :=
  if negb (truthy v) then None
  else
    let candidate :=
      match v with
      | Arr l => default Undefined (head l)
      | _ => v
      end in
    match candidate with
    | Str s =>
        let cleaned := trim s in
        Date_parse cleaned
    | _ => None
    end.

Definition creationStep (creationDate : option Z) (l : Locals) : Locals :=
  match creationDate with
  | Some created =>
      let domainAgeDays := (now - created) / DAY_IN_MS in
      let l := set "creationDate" (Str (toISOString created)) l in
      let l := set "domainAgeDays" (Num domainAgeDays) l in
      if domainAgeDays <? 30 then
        assign (fun s => s - 12)
               (push "Domain was registered within the last 30 days." l)
      else if domainAgeDays <? 180 then
        assign (fun s => s - 6)
               (push "Domain is relatively new (less than six months old)." l)
      else l
  | None =>
      assign (fun s => s - 6)
             (push "Unable to determine domain creation date." l)
  end.

Definition expiryStep (expiryDate : option Z) (l : Locals) : Locals :=
  match expiryDate with
  | Some expiry =>
      let daysUntilExpiry := (expiry - now) / DAY_IN_MS in
      let l := set "expiryDate" (Str (toISOString expiry)) l in
      let l := set "daysUntilExpiry" (Num daysUntilExpiry) l in
      if daysUntilExpiry <=? 0 then
        assign (fun s => s - 10) (push "Domain appears to be expired." l)
      else if daysUntilExpiry <=? 30 then
        assign (fun s => s - 6)
               (push "Domain expires within the next 30 days." l)
      else l
  | None =>
      assign (fun s => s - 5)
             (push "Unable to determine domain expiry date." l)
  end.

Definition registrarStep (registrar : value) (l : Locals) : Locals :=
  if negb (truthy registrar) then
    assign (fun s => s - 3) (push "Registrar information is missing." l)
  else l.

Definition creationAliases : list string :=
  [ "creationdate"; "createddate"; "creationtime"; "domaincreatedate";
    "registrationtime"; "domainregistrationdate"; "registered" ].

Definition expiryAliases : list string :=
  [ "registryexpirydate"; "expirationdate"; "expirydate";
    "registrarexpirationdate"; "domainexpirydate" ].

Definition registrarAliases : list string :=
  [ "registrar"; "registrarname"; "registrarorganization";
    "sponsoringregistrar" ].

Definition nameServerAliases : list string :=
  [ "nameserver"; "nameservers"; "nameserverserver" ].

(** The scoring of a non-empty record. *)
Definition scoreRecord (domain : string) (record : list (string * value))
    : CategoryResult :=
  let normalized := normalizeRecord record in
  let creationDate := parseDate (pickValue normalized creationAliases) in
  let expiryDate := parseDate (pickValue normalized expiryAliases) in
  let registrar := or_undefined (pickValue normalized registrarAliases) in
  let nameServers := toArray (pickValue normalized nameServerAliases) in
  let l := {| l_score := MAX_SCORE; l_warnings := [];
              l_details := [ ("domain", Str domain);
                             ("registrar", registrar);
                             ("nameServers", Arr nameServers) ] |} in
  let l := creationStep creationDate l in
  let l := expiryStep expiryDate l in
  let l := registrarStep registrar l in
  finalizeResult (l_score l) (l_warnings l) (l_details l).

Definition checkWhois (targetUrl : string) : CategoryResult :=
  match URL_parse targetUrl with
  | None =>
      finalizeResult 0
        ["The URL is not valid, so WHOIS information could not be checked."]
        []
  | Some parsedUrl =>
      let domain := psl_domain (hostname parsedUrl) in
      if negb (truthy_str domain) then
        finalizeResult 0
          ["Unable to determine a registrable domain for WHOIS lookup."]
          [("hostname", Str (hostname parsedUrl))]
      else
        match whois (default "" domain) with
        | WhoisError error =>
            finalizeResult 0
              (filter_Boolean [Some "WHOIS lookup failed."; message error])
              [("hostname", Str (hostname parsedUrl))]
        | WhoisRecord None | WhoisRecord (Some []) =>
            finalizeResult 0
              ["WHOIS lookup did not return any data."]
              [("hostname", Str (hostname parsedUrl))]
        | WhoisRecord (Some record) =>
            scoreRecord (default "" domain) record
        end
  end.

End Check.

End Whois.

(* ===================================================================== *)
(** ** IEEE doubles, for the division of [summarizeOverall] *)
(* ===================================================================== *)

Module Binary64.

(** An integer as a number: the double nearest to it (ties to even, the
    infinities beyond the range); exact below 2^53. *)
Definition of_Z (z : Z) : PrimFloat.float :=
  FloatOps.SF2Prim
    (SpecFloat.binary_normalize FloatOps.prec FloatOps.emax z 0 false).

(** [Math.round] on a double, computed exactly from its sign, mantissa
    and exponent: the nearest integer, halves towards plus infinity;
    [None] for NaN and the infinities. *)
Definition Math_round (x : PrimFloat.float) : option Z :=
  match FloatOps.Prim2SF x with
  | SpecFloat.S754_zero _ => Some 0
  | SpecFloat.S754_finite sign m e =>
      let v := if sign then - Z.pos m else Z.pos m in
      Some (if 0 <=? e then v * 2 ^ e
            else (2 * v + 2 ^ (- e)) / (2 * 2 ^ (- e)))
  | _ => None
  end.

(** [totalMaxScore > 0 ? Math.round((totalScore / totalMaxScore) * 100) : 0],
    the division and the multiplication being those of the doubles. *)
Definition normalizedScore (totalScore totalMaxScore : Z) : option Z :=
  if 0 <? totalMaxScore then
    Math_round (PrimFloat.mul (PrimFloat.div (of_Z totalScore) (of_Z totalMaxScore))
                              (of_Z 100))
  else Some 0.

End Binary64.

(* ===================================================================== *)
(** ** server/index.js *)
(* ===================================================================== *)

Module Server.

Definition TLS_MAX := Tls.MAX_SCORE.
Definition HEADERS_MAX := Headers.MAX_SCORE.
Definition COOKIES_MAX := Cookies.MAX_SCORE.
Definition WHOIS_MAX := Whois.MAX_SCORE.

(** The pair [{ response, error }] of [fetchSiteResponse]. *)
Definition fetchSiteResponse (axios_get : string -> AxiosOutcome)
    (targetUrl : string) : option Response * option fault :=
  match axios_get targetUrl with
  | AxiosResponse response => (Some response, None)
  | AxiosError error (Some response) => (Some response, Some error)
  | AxiosError error None => (None, Some error)
  end.

Inductive Rating := Safe | Warning | Dangerous.

Record Overall := {
  total : Z;
  max : Z;
  rating : Rating;
}.

(** [x || 0] on a number. *)
Definition or_zero (x : Z) : Z := if x =? 0 then 0 else x.

(** The two sums are sums of integers, which the doubles add exactly
    (below 2^53).  The quotient, the product and the rounding are those
    of the doubles; the rounded number is an integer ([Math.round]
    yields NaN or an infinity only for sums beyond any score, written 0
    here). *)
Definition summarizeOverall (categories : list CategoryResult) : Overall :=
  let totalScore :=
    fold_left (fun sum category => sum + or_zero (score category)) categories 0 in
  let totalMaxScore :=
    fold_left (fun sum category => sum + or_zero (maxScore category)) categories 0 in
  let normalizedScore :=
    default 0 (Binary64.normalizedScore totalScore totalMaxScore) in
  let rating :=
    if normalizedScore <? 50 then Dangerous
    else if normalizedScore <? 60 then Warning
    else Safe in
  {| total := normalizedScore; max := 100; rating := rating |}.

(** An entry of [tasks]; [outcome] is the settlement of the promise
    [fn()] returns. *)
Record Task := {
  outcome : settled CategoryResult;
  t_key : string;
  t_label : string;
  t_maxScore : option Z;
}.

(** [Promise.allSettled]: the result array has one slot per promise;
    the promises settle in the order the scheduler completes them, each
    filling its own slot, and the array is delivered once every slot is
    filled.  [order] lists the indices in completion order. *)
Definition fill {A : Type} (promises : list (settled A))
    (slots : list (option (settled A))) (i : nat) : list (option (settled A)) :=
  match promises !! i with
  | Some r => <[i := Some r]> slots
  | None => slots
  end.

Definition settle {A : Type} (promises : list (settled A)) (order : list nat)
    : list (option (settled A)) :=
  fold_left (fill promises) order (replicate (length promises) None).

Fixpoint delivered {A : Type} (slots : list (option A)) : option (list A) :=
  match slots with
  | [] => Some []
  | Some r :: rest =>
      match delivered rest with
      | Some l => Some (r :: l)
      | None => None
      end
  | None :: _ => None
  end.

Definition allSettled {A : Type} (promises : list (settled A))
    (order : list nat) : option (list (settled A)) :=
  delivered (settle promises order).

(** The callback of [results.map]. *)
Definition category (tasks : list Task) (result : settled CategoryResult)
    (index : nat) : option CategoryResult :=
  match result with
  | Fulfilled value => Some value
  | Rejected reason =>
      match tasks !! index with
      | Some fallback =>
          Some {| key := or_else (Some (t_key fallback)) ("check-" ++ pretty index);
                  label := or_else (Some (t_label fallback)) "Unknown Check";
                  score := 0;
                  maxScore := default 25 (t_maxScore fallback);
                  passed := false;
                  warnings := filter_Boolean [Some "Check failed to complete.";
                                              message reason];
                  details := [("error", of_opt (message reason))] |}
      | None => None   (* [tasks[index]] is always there: one result per task *)
      end
  end.

Fixpoint mapi {A B : Type} (f : A -> nat -> option B) (l : list A) (i : nat)
    : option (list B) :=
  match l with
  | [] => Some []
  | a :: rest =>
      match f a i, mapi f rest (S i) with
      | Some b, Some bs => Some (b :: bs)
      | _, _ => None
      end
  end.

(** The array [tasks].  Each descriptor has the promise its [fn]
    returns as first component: the four arguments are the promises of
    [checkTLS], [checkHeaders], [checkCookies] and [checkWhois]. *)
Definition tasks (tls headers cookies whois : settled CategoryResult)
    : list Task :=
  [ {| outcome := tls;
       t_key := "tls";
       t_label := "HTTPS & TLS";
       t_maxScore := Some TLS_MAX |};
    {| outcome := headers;
       t_key := "headers";
       t_label := "Security Headers";
       t_maxScore := Some HEADERS_MAX |};
    {| outcome := cookies;
       t_key := "cookies";
       t_label := "Cookie Security";
       t_maxScore := Some COOKIES_MAX |};
    {| outcome := whois;
       t_key := "whois";
       t_label := "Domain WHOIS";
       t_maxScore := Some WHOIS_MAX |} ].

Record Http := {
  h_status : option Z;
  h_finalUrl : string;
  h_error : option string;
}.

Record Body := {
  url : string;
  fetchedAt : string;
  b_score : Overall;
  categories : list CategoryResult;
  http : Http;
}.

Inductive Reply :=
| Status400 (error : string)
| Status200 (body : Body).

Section Handler.

Variable URL_parse : string -> option URL.
Variable Date_parse : string -> option Z.
Variable toISOString : Z -> string.
Variable now : Z.
(** The three call sites of [axios.get] (index, headers, cookies). *)
Variable fetch headers_get cookies_get : string -> AxiosOutcome.
Variable network : string -> Z -> Tls.SocketEvent.
Variable parse : option HeaderValue -> list Cookies.Cookie.
Variable psl_domain : string -> option string.
Variable whois : string -> Whois.WhoisOutcome.
(** The order in which the four promises settle. *)
Variable order : list nat.

(** The handler from [Promise.allSettled] on.  [None]: the promise of
    [allSettled] never resolves and no reply is sent. *)
Definition aggregate (tasks : list Task) (sanitizedUrl : string)
    (siteResponse : option Response) (fetchError : option fault)
    : option Reply :=
  match allSettled (map outcome tasks) order with
  | None => None
  | Some results =>
      match mapi (category tasks) results 0 with
      | None => None
      | Some categories =>
          let overall := summarizeOverall categories in
          Some (Status200
            {| url := sanitizedUrl;
               fetchedAt := toISOString now;
               b_score := overall;
               categories := categories;
               http :=
                 {| h_status := siteResponse ≫= status;
                    h_finalUrl :=
                      match siteResponse with
                      | Some r => finalUrl r sanitizedUrl
                      | None => sanitizedUrl
                      end;
                    h_error :=
                      match fetchError, siteResponse with
                      | Some e, None => message e
                      | _, _ => None
                      end |} |})
      end
  end.

(** [app.post('/api/check', ...)]; the argument is [req.body.url]. *)
Definition check (url : option string) : option Reply :=
  if negb (truthy_str url) then
    Some (Status400 "Please provide a url in the request body.")
  else
    match URL_parse (default "" url) with
    | None => Some (Status400 "The provided URL is not valid.")
    | Some parsedUrl =>
        if negb (existsb (String.eqb (protocol parsedUrl)) ["http:"; "https:"]) then
          Some (Status400 "Only HTTP and HTTPS URLs can be checked by this service.")
        else
          let sanitizedUrl := href parsedUrl in
          let '(siteResponse, fetchError) := fetchSiteResponse fetch sanitizedUrl in
          let sharedContext :=
            {| ctx_response := siteResponse; ctx_fetchError := fetchError |} in
          aggregate
            (tasks
               (* three of the checks return a result on every path;
                  [checkCookies] can throw, see [Cookies.describe] *)
               (Fulfilled
                  (Tls.run network
                     (Tls.checkTLS URL_parse Date_parse toISOString now
                        sanitizedUrl)))
               (Fulfilled
                  (Headers.checkHeaders headers_get sanitizedUrl sharedContext))
               (Cookies.checkCookies cookies_get parse toISOString sanitizedUrl
                  sharedContext)
               (Fulfilled
                  (Whois.checkWhois URL_parse psl_domain whois Date_parse
                     toISOString now sanitizedUrl)))
            sanitizedUrl siteResponse fetchError
    end.

End Handler.

End Server.

(* ===================================================================== *)
(** ** The properties, in the words of the specification *)
(* ===================================================================== *)

(** The invariant of a CategoryResult: an integer score between 0 and
    the fixed maximum 25, and [passed] decided by the threshold 18. *)
Definition well_formed (r : CategoryResult) : Prop :=
  0 <= score r <= maxScore r /\ maxScore r = 25 /\ passed r = (18 <=? score r).

(** A result that left some module through its [finalizeResult]. *)
Inductive finalized (K L : string) : CategoryResult -> Prop :=
| finalized_intro s w d : finalized K L (finalize K L 25 18 s w d).

(** The sum of a field over the categories. *)
Definition sigma (f : CategoryResult -> Z) (l : list CategoryResult) : Z :=
  foldr (fun c acc => f c + acc) 0 l.

(** [clamp x]: [x] brought into the range 0..25. *)
Definition clamp (x : Z) : Z := Z.max 0 (Z.min 25 x).

(** [round q], as the specification writes it: the integer nearest to
    the rational [q], halves going up. *)
Definition round (q : Q) : Z := Qfloor (q + (1 # 2))%Q.

(** The substitute for a rejected evaluator: score 0, the category's
    maximum, not passed, the generic warning followed by the fault's
    message when it has one. *)
Definition fallbackOf (t : Server.Task) (reason : fault) : CategoryResult :=
  {| key := Server.t_key t;
     label := Server.t_label t;
     score := 0;
     maxScore := default 25 (Server.t_maxScore t);
     passed := false;
     warnings :=
       "Check failed to complete." ::
       match message reason with
       | Some m => if nonempty m then [m] else []
       | None => []
       end;
     details := [("error", of_opt (message reason))] |}.

(** The entry of [categories] a task ends up as. *)
Definition entryOf (t : Server.Task) : CategoryResult :=
  match Server.outcome t with
  | Fulfilled v => v
  | Rejected reason => fallbackOf t reason
  end.

(** The entry of [categories] for the promise [p] of the category
    with key [K] and label [L]: what the evaluator returned, or the
    substitute when its promise rejected. *)
Definition entry (K L : string) (p : settled CategoryResult) : CategoryResult :=
  match p with
  | Fulfilled v => v
  | Rejected reason =>
      {| key := K;
         label := L;
         score := 0;
         maxScore := 25;
         passed := false;
         warnings :=
           "Check failed to complete." ::
           match message reason with
           | Some m => if nonempty m then [m] else []
           | None => []
           end;
         details := [("error", of_opt (message reason))] |}
  end.

(** Slots of [Promise.allSettled] in which every filled slot holds the
    settlement of its own promise. *)
Definition sound {A : Type} (promises : list (settled A))
    (slots : list (option (settled A))) : Prop :=
  forall i r, slots !! i = Some (Some r) -> promises !! i = Some r.

(** A task descriptor as the handler writes them: a non-empty key and
    label, and a maximum. *)
Definition described (t : Server.Task) : Prop :=
  Server.t_key t <> "" /\ Server.t_label t <> "" /\ is_Some (Server.t_maxScore t).

(** A request that passes the validation of the handler. *)
Definition valid (URL_parse : string -> option URL) (url : option string)
    (parsedUrl : URL) : Prop :=
  truthy_str url = true /\
  URL_parse (default "" url) = Some parsedUrl /\
  (protocol parsedUrl = "http:" \/ protocol parsedUrl = "https:").

(** The shared context of a valid request. *)
Definition contextOf (fetch : string -> AxiosOutcome) (parsedUrl : URL)
    : Context :=
  let fetched := Server.fetchSiteResponse fetch (href parsedUrl) in
  {| ctx_response := fst fetched; ctx_fetchError := snd fetched |}.

(** The issues of a cookie, counted one by one as the specification
    lists them. *)
Definition issueCount (c : Cookies.Cookie) : nat :=
  let is_none :=
    match Cookies.sameSite c with
    | Some s => nonempty s && String.eqb (toLowerCase s) "none"
    | None => false
    end in
  let no_sameSite := negb (truthy_str (Cookies.sameSite c)) in
  let host := startsWith "__Host-" (Cookies.name c) in
  (Nat.b2n (negb (Cookies.secure c)) +
   Nat.b2n (negb (Cookies.httpOnly c)) +
   Nat.b2n no_sameSite +
   Nat.b2n (is_none && negb (Cookies.secure c)) +
   Nat.b2n (startsWith "__Secure-" (Cookies.name c) && negb (Cookies.secure c)) +
   Nat.b2n (host && negb (Cookies.secure c)) +
   Nat.b2n (host && negb (bool_decide (Cookies.path c = Some "/"))) +
   Nat.b2n (host && truthy_str (Cookies.domain c)))%nat.

(** A cookie whose [Expires] attribute, if any, is a valid date. *)
Definition datable (c : Cookies.Cookie) : Prop :=
  Cookies.expires c <> Some Cookies.InvalidDate.

(** The number of issues over all the cookies, and the cookies that
    have at least one. *)
Definition totalIssues (cookies : list Cookies.Cookie) : nat :=
  foldr (fun c n => (issueCount c + n)%nat) 0%nat cookies.

Definition offending (cookies : list Cookies.Cookie) : list Cookies.Cookie :=
  List.filter (fun c => (0 <? issueCount c)%nat) cookies.

(** [response.headers?.['set-cookie']] *)
Definition setCookieOf (response : Response) : option HeaderValue :=
  match headers response with
  | Some h => prop "set-cookie" h
  | None => None
  end.

(** [hay] contains [needle], letter case ignored. *)
Definition contains_i (needle hay : string) : Prop :=
  exists pre post, toLowerCase hay = pre ++ needle ++ post.


(** The six header names of the rubric. *)
Definition rubricHeaders : list string :=
  [ "strict-transport-security"; "content-security-policy"; "x-frame-options";
    "referrer-policy"; "permissions-policy"; "x-content-type-options" ].

(** The labels of the six checks. *)
Definition rubricLabels : list string :=
  [ "HSTS (Strict-Transport-Security)"; "Content-Security-Policy";
    "Clickjacking protection"; "Referrer-Policy"; "Permissions-Policy";
    "X-Content-Type-Options" ].

(** The penalties of the failed checks among [checks]. *)
Definition penalties (checks : list Headers.HeaderCheck) : Z :=
  foldr (fun c acc => (if Headers.failed c then Headers.weight c else 0) + acc)
        0 checks.

(** *** The validity rules of the rubric, in its own words *)




(** The three policies the rubric names for Referrer-Policy. *)
Definition policyNames : list string :=
  [ "no-referrer"; "strict-origin"; "strict-origin-when-cross-origin" ].






(** TLS penalties other than the expiry ones. *)
Definition protocolPenalty (protocol : option string) : Z :=
  match protocol with
  | Some p => if nonempty p && negb (startsWith "TLS" (Tls.toUpperCase p))
              then 10 else 0
  | None => 0
  end.

Definition issuerPenalty (c : Tls.Certificate) : Z :=
  match Tls.formatName (Tls.issuer c) with Some _ => 0 | None => 3 end.

Definition sanPenalty (host : string) (c : Tls.Certificate) : Z :=
  match Tls.subjectaltname c with
  | Some san =>
      let entries := Tls.sanEntries san in
      if nonempty san && negb (bool_decide (entries = []))
         && negb (existsb (String.eqb host) entries)
      then 5 else 0
  | None => 0
  end.

(** What the certificate says about its expiry. *)
Inductive Expiry :=
| ExpiryMissing
| ExpiryUnparsable
| ExpiresIn (days : Z).

Definition expiryOf (Date_parse : string -> option Z) (now : Z)
    (c : Tls.Certificate) : Expiry :=
  match Tls.valid_to c with
  | Some s =>
      if nonempty s then
        match Date_parse s with
        | Some t => ExpiresIn ((t - now) / 86400000)
        | None => ExpiryUnparsable
        end
      else ExpiryMissing
  | None => ExpiryMissing
  end.

(** The bracket penalty of a certificate that expires in [days] >= 0
    days: the closest bracket wins. *)
Definition expiryBracket (days : Z) : Z :=
  if days <=? 7 then 12
  else if days <=? 30 then 8
  else if days <=? 90 then 3
  else 0.

(** The text has no colon. *)
Definition colon_free (s : string) : Prop :=
  ~ In ":"%char (list_ascii_of_string s).

(** WHOIS penalties: age of the domain, time to expiry, registrar. *)
Definition agePenalty (now : Z) (creationDate : option Z) : Z :=
  match creationDate with
  | Some created =>
      let age := (now - created) / 86400000 in
      if age <? 30 then 12 else if age <? 180 then 6 else 0
  | None => 6
  end.

Definition expiryPenalty (now : Z) (expiryDate : option Z) : Z :=
  match expiryDate with
  | Some expiry =>
      let days := (expiry - now) / 86400000 in
      if days <=? 0 then 10 else if days <=? 30 then 6 else 0
  | None => 5
  end.

Definition registrarPenalty (registrar : value) : Z :=
  if truthy registrar then 0 else 3.

(* ===================================================================== *)
(** ** A concrete world, for the examples *)
(* ===================================================================== *)

Module Example.

Definition site : URL :=
  {| protocol := "https:"; hostname := "example.com"; port := "";
     href := "https://example.com/" |}.

Definition plain : URL :=
  {| protocol := "http:"; hostname := "example.com"; port := "";
     href := "http://example.com/" |}.

Definition ftp : URL :=
  {| protocol := "ftp:"; hostname := "example.com"; port := "";
     href := "ftp://example.com/" |}.

(** [new URL(s)] on the texts of the examples: three URLs, and texts
    that are no URL. *)
Definition URL_parse (s : string) : option URL :=
  if String.eqb s "https://example.com/" then Some site
  else if String.eqb s "http://example.com/" then Some plain
  else if String.eqb s "ftp://example.com/" then Some ftp
  else None.

(** 2026-11-02T00:00:00Z *)
Definition now : Z := 1793577600000.

Definition Date_parse (s : string) : option Z :=
  if String.eqb s "Jan  1 00:00:00 2020 GMT" then Some 1577836800000
  else if String.eqb s "Nov  1 00:00:00 2026 GMT" then Some 1793491200000
  else if String.eqb s "Jan  1 00:00:00 2030 GMT" then Some 1893456000000
  else if String.eqb s "2020-01-01T00:00:00Z" then Some 1577836800000
  else if String.eqb s "2030-01-01T00:00:00Z" then Some 1893456000000
  else None.

(** A stand-in for the ISO rendering: the time value in decimal. *)
Definition toISOString (t : Z) : string := pretty t.

Definition certificate (valid_to : option string) : Tls.Certificate :=
  {| Tls.issuer := Some [("C", "US"); ("O", "Example CA"); ("CN", "Example Root")];
     Tls.subject := Some [("CN", "example.com")];
     Tls.serialNumber := Some "0A1B2C";
     Tls.valid_from := Some "Jan  1 00:00:00 2020 GMT";
     Tls.valid_to := valid_to;
     Tls.subjectaltname := Some "DNS:example.com, DNS:www.example.com" |}.

Definition network (valid_to : option string) (_ : string) (_ : Z)
    : Tls.SocketEvent :=
  Tls.OnSecureConnect (Tls.PeerInfo (Some (certificate valid_to)) (Some "TLSv1.3")).

Definition response (h : list (string * HeaderValue)) : Response :=
  {| status := Some 200; headers := Some h; responseUrl := None;
     configUrl := Some "https://example.com/" |}.

Definition context (h : list (string * HeaderValue)) : Context :=
  {| ctx_response := Some (response h); ctx_fetchError := None |}.

Definition unreachable (_ : string) : AxiosOutcome :=
  AxiosError (Fault (Some "connect ECONNREFUSED")) None.

Definition secureHeaders : list (string * HeaderValue) :=
  [ ("Strict-Transport-Security", HStr "max-age=31536000; includeSubDomains");
    ("Content-Security-Policy", HStr "default-src 'self'");
    ("X-Frame-Options", HStr "DENY");
    ("Referrer-Policy", HStr "strict-origin-when-cross-origin");
    ("Permissions-Policy", HStr "geolocation=()");
    ("X-Content-Type-Options", HStr "nosniff") ].

Definition downgradeHeaders : list (string * HeaderValue) :=
  [ ("Referrer-Policy", HStr "no-referrer-when-downgrade") ].


(** A redirected response that came with an error status. *)
Definition redirected : Response :=
  {| status := Some 503; headers := Some [];
     responseUrl := Some "https://www.example.com/";
     configUrl := Some "https://example.com/" |}.

Definition session (expires : option Cookies.JsDate) : Cookies.Cookie :=
  {| Cookies.name := "__Host-session"; Cookies.domain := None;
     Cookies.path := Some "/"; Cookies.expires := expires;
     Cookies.secure := true; Cookies.httpOnly := true;
     Cookies.sameSite := Some "Strict" |}.

Definition tracker : Cookies.Cookie :=
  {| Cookies.name := "__Host-track"; Cookies.domain := Some "example.com";
     Cookies.path := Some "/app"; Cookies.expires := None;
     Cookies.secure := false; Cookies.httpOnly := false;
     Cookies.sameSite := None |}.

(** The set-cookie tokenizer on the header lines of the examples. *)
Definition parse (v : option HeaderValue) : list Cookies.Cookie :=
  match v with
  | Some (HArr ["__Host-session=1; Path=/; Secure; HttpOnly; SameSite=Strict"]) =>
      [session None]
  | Some (HArr ["__Host-session=1; Path=/; Expires=never; Secure; HttpOnly; SameSite=Strict"]) =>
      [session (Some Cookies.InvalidDate)]
  | Some (HArr ["__Host-track=1; Domain=example.com; Path=/app"]) =>
      [tracker]
  | _ => []
  end.

Definition neverExpires : list (string * HeaderValue) :=
  [ ("set-cookie",
     HArr ["__Host-session=1; Path=/; Expires=never; Secure; HttpOnly; SameSite=Strict"]) ].

Definition psl_domain (host : string) : option string :=
  if String.eqb host "example.com" then Some "example.com" else None.

Definition whoisRecord : list (string * value) :=
  [ ("Domain Name", Str "EXAMPLE.COM");
    ("Creation Date", Str "2020-01-01T00:00:00Z");
    ("Registry Expiry Date", Str "2030-01-01T00:00:00Z");
    ("Registrar", Str "Example Registrar, Inc.");
    ("Name Server", Str "a.iana-servers.net b.iana-servers.net") ].

Definition whois (_ : string) : Whois.WhoisOutcome :=
  Whois.WhoisRecord (Some whoisRecord).

(** Four categories with the given scores. *)
Definition four (tls headers cookies whois : Z) : list CategoryResult :=
  [ Tls.finalizeResult tls [] []; Headers.finalizeResult headers [] [];
    Cookies.finalizeResult cookies [] []; Whois.finalizeResult whois [] [] ].

(** The handler in this world: the site answers with headers [h]. *)
Definition check (h : list (string * HeaderValue)) (order : list nat)
    (url : option string) : option Server.Reply :=
  Server.check URL_parse Date_parse toISOString now
    (fun _ => AxiosResponse (response h)) unreachable unreachable
    (network (Some "Jan  1 00:00:00 2030 GMT")) parse psl_domain whois order url.

End Example.

(* ===================================================================== *)
(** ** src/App.jsx and src/components/UrlForm.jsx: the pure helpers *)
(* ===================================================================== *)

Module Client.

(** [ratingTone(rating)], on [score?.rating]. *)
Definition ratingTone (rating : option string) : string :=
  match rating with
  | None => "score-badge--neutral"
  | Some rating =>
      if negb (nonempty rating) then "score-badge--neutral"
      else
        let normalized := toLowerCase rating in
        if String.eqb normalized "safe" then "score-badge--good"
        else if String.eqb normalized "warning" then "score-badge--warn"
        else if String.eqb normalized "dangerous" then "score-badge--bad"
        else "score-badge--neutral"
  end.

(** [formatDays(days)] on a day count of the details ([None] for
    undefined or null, also as a result). *)
Definition formatDays (days : option Z) : option string :=
  match days with
  | None => None
  | Some days =>
      if days <? 0 then Some "Expired"
      else if days =? 0 then Some "Today"
      else if days =? 1 then Some "1 day"
      else Some (pretty days ++ " days")
  end.

(** The text of the input of the form is what the browser holds: a
    sequence of UTF-16 code units. *)
Definition text := list N.

(** The white space and the line terminators of ECMAScript, which
    [String.prototype.trim] removes: TAB, LF, VT, FF, CR, SP, NBSP,
    U+1680, U+2000..U+200A, U+2028, U+2029, U+202F, U+205F, U+3000 and
    U+FEFF. *)
Definition is_white_space (u : N) : bool :=
  ((9 <=? u) && (u <=? 13) || (u =? 32) || (u =? 160) || (u =? 5760) ||
   (8192 <=? u) && (u <=? 8202) || (u =? 8232) || (u =? 8233) ||
   (u =? 8239) || (u =? 8287) || (u =? 12288) || (u =? 65279))%N.

Fixpoint trimStart (s : text) : text :=
  match s with
  | u :: t => if is_white_space u then trimStart t else s
  | [] => []
  end.

Fixpoint trimEnd (s : text) : text :=
  match s with
  | [] => []
  | u :: t =>
      match trimEnd t with
      | [] => if is_white_space u then [] else [u]
      | t' => u :: t'
      end
  end.

(** [value.trim()] *)
Definition trim (s : text) : text := trimEnd (trimStart s).

(** [handleSubmit] of the form on the text of the input: the argument
    [onSubmit] is called with, [None] when it returns without calling. *)
Definition handleSubmit (value : text) : option text :=
  let trimmed := trim value in
  match trimmed with
  | [] => None
  | _ => Some trimmed
  end.

(** The [disabled] attribute of the submit button:
    [isLoading || !value.trim()]. *)
Definition submitDisabled (isLoading : bool) (value : text) : bool :=
  isLoading || match trim value with [] => true | _ => false end.

End Client.

(* ===================================================================== *)
(** ** Further notions for the properties *)
(* ===================================================================== *)

(** The string [summarizeOverall] assigns to [rating]. *)
Definition ratingName (r : Server.Rating) : string :=
  match r with
  | Server.Safe => "Safe"
  | Server.Warning => "Warning"
  | Server.Dangerous => "Dangerous"
  end.

(** A number of the details, as the client reads it. *)
Definition number (v : value) : option Z :=
  match v with Num n => Some n | _ => None end.

(** In an object given by its entries in order, with the names
    normalised by [norm]: the value of the last entry whose normalised
    name is [k]. *)
Fixpoint lastNamed {A : Type} (norm : string -> string) (k : string)
    (entries : list (string * A)) : option A :=
  match entries with
  | [] => None
  | (k', v) :: rest =>
      match lastNamed norm k rest with
      | Some w => Some w
      | None => if String.eqb (norm k') k then Some v else None
      end
  end.

(** Every character of the string is white space. *)
Fixpoint blank (s : string) : bool :=
  match s with
  | EmptyString => true
  | String c t => is_space c && blank t
  end.

(** The string has a character of the class. *)
Fixpoint has_char (class : ascii -> bool) (s : string) : bool :=
  match s with
  | EmptyString => false
  | String c t => class c || has_char class t
  end.

(** The score of the cookie check for [n] issues in all. *)
Definition cookieScore (n : nat) : Z := Z.max 0 (25 - 5 * Z.of_nat n).

(** The certificate is reported expired. *)
Definition expired (e : Expiry) : Prop :=
  match e with ExpiresIn d => d < 0 | _ => False end.

(** The expiry penalty of a certificate that is not expired. *)
Definition tlsExpiryPenalty (e : Expiry) : Z :=
  match e with
  | ExpiresIn d => expiryBracket d
  | ExpiryUnparsable => 4
  | ExpiryMissing => 6
  end.

(** The invariant of a scoring block: no warning and the full score, or
    a warning and less. *)
Definition penalised (l : Locals) : Prop :=
  (l_warnings l = [] /\ l_score l = 25) \/
  (l_warnings l <> [] /\ l_score l < 25).

(** The value of the Content-Security-Policy header declares
    frame-ancestors ([hasFrameAncestors] of [createHeaderChecks]). *)
Definition declaresFrameAncestors (h : gmap string HeaderValue) : bool :=
  and_then (Headers.normalizeValue (h !! "content-security-policy"))
           (search Headers.re_frame_ancestors).

(** Two lists of entries with the same values under names that agree
    up to [norm]. *)
Definition sameUpTo {A : Type} (norm : string -> string)
    (entries entries' : list (string * A)) : Prop :=
  Forall2 (fun e e' => norm (fst e) = norm (fst e') /\ snd e = snd e')
          entries entries'.

(** A name as a certificate lists it: not empty, without white space
    and without a comma. *)
Definition plainName (name : string) : Prop :=
  name <> "" /\ has_char is_space name = false /\
  has_char (fun c => Ascii.eqb c ",") name = false.

(** The subjectaltname line of a certificate for the DNS names
    [names], as Node prints it: [DNS:a, DNS:b]. *)
Definition sanLine (names : list string) : string :=
  join ", " (map (fun name => "DNS:" ++ name) names).

(** The name of a field of a WHOIS record as the lookup compares it:
    without its white space, underscores and hyphens, in lower case. *)
Definition fieldName (name : string) : string :=
  string_of_list_ascii
    (map lower_char
       (List.filter
          (fun c => negb (is_space c) && negb (Ascii.eqb c "_")
                    && negb (Ascii.eqb c "-"))
          (list_ascii_of_string name))).

(** A word: not empty and without white space. *)
Definition wordOf (w : string) : Prop :=
  w <> "" /\ has_char is_space w = false.

(** The text made of the words of [words], each after its gap, and of
    [trail] at the end. *)
Fixpoint spaced (words : list (string * string)) (trail : string) : string :=
  match words with
  | [] => trail
  | (gap, word) :: rest => gap ++ word ++ spaced rest trail
  end.

(** A text of words: the gaps and the trail are white space, and every
    gap but the first is there. *)
Definition wordsOf (words : list (string * string)) (trail : string) : Prop :=
  Forall (fun gw => blank (fst gw) = true /\ wordOf (snd gw)) words /\
  Forall (fun gw => fst gw <> "") (tail words) /\
  blank trail = true.

(** A text of 8-bit code units as a text of the browser. *)
Definition latin1 (s : string) : Client.text :=
  map N_of_ascii (list_ascii_of_string s).

(* ===================================================================== *)
(** ** Results of [finalizeResult] *)
(* ===================================================================== *)

Lemma finalized_well_formed K L r : finalized K L r -> well_formed r.
Proof.
  intros [s w d]. unfold well_formed, finalize; simpl. lia.
Qed.

Lemma finalized_fields K L r :
  finalized K L r -> key r = K /\ label r = L /\ maxScore r = 25.
Proof. intros [s w d]. auto. Qed.

Lemma finalize_score K L s w d : score (finalize K L 25 18 s w d) = clamp s.
Proof. reflexivity. Qed.

Lemma clamp_id x : 0 <= x <= 25 -> clamp x = x.
Proof. unfold clamp. lia. Qed.

Lemma tls_finalized URL_parse Date_parse toISOString now network targetUrl :
  finalized "tls" "HTTPS & TLS"
    (Tls.run network (Tls.checkTLS URL_parse Date_parse toISOString now targetUrl)).
Proof.
  unfold Tls.checkTLS.
  destruct (URL_parse targetUrl) as [u|]; [|apply finalized_intro].
  destruct (negb _); [apply finalized_intro|].
  cbn [Tls.run]. destruct (network _ _); apply finalized_intro.
Qed.

Lemma headers_finalized axios_get targetUrl context :
  finalized "headers" "Security Headers"
    (Headers.checkHeaders axios_get targetUrl context).
Proof.
  unfold Headers.checkHeaders.
  destruct (Headers.obtain _ _ _) as [[r|] e]; apply finalized_intro.
Qed.

Lemma cookies_finalized axios_get parse toISOString targetUrl context r :
  Cookies.checkCookies axios_get parse toISOString targetUrl context = Fulfilled r ->
  finalized "cookies" "Cookie Security" r.
Proof.
  unfold Cookies.checkCookies.
  destruct (Cookies.obtain _ _ _) as [[resp|] e].
  - destruct (Cookies.noSetCookie _).
    + intros [= <-]. apply finalized_intro.
    + destruct (Cookies.mapCookies _ _ _) as [[p cs]|]; [|discriminate].
      intros [= <-]. apply finalized_intro.
  - intros [= <-]. apply finalized_intro.
Qed.

Lemma whois_finalized URL_parse psl_domain whois Date_parse toISOString now targetUrl :
  finalized "whois" "Domain WHOIS"
    (Whois.checkWhois URL_parse psl_domain whois Date_parse toISOString now targetUrl).
Proof.
  unfold Whois.checkWhois.
  destruct (URL_parse targetUrl) as [u|]; [|apply finalized_intro].
  destruct (negb _); [apply finalized_intro|].
  destruct (whois _) as [[[|kv rec]|]|e]; apply finalized_intro.
Qed.

(** C3. Every CategoryResult an evaluator returns, on every path (the
    fetch-failure ones included), has an integer score with
    0 <= score <= maxScore, maxScore = 25, and passed = (score >= 18). *)
Theorem evaluators_return_well_formed_results :
  forall URL_parse Date_parse toISOString now network axios_get parse
         psl_domain whois targetUrl context,
    well_formed
      (Tls.run network
         (Tls.checkTLS URL_parse Date_parse toISOString now targetUrl)) /\
    well_formed (Headers.checkHeaders axios_get targetUrl context) /\
    (forall r,
        Cookies.checkCookies axios_get parse toISOString targetUrl context
          = Fulfilled r ->
        well_formed r) /\
    well_formed
      (Whois.checkWhois URL_parse psl_domain whois Date_parse toISOString now
         targetUrl).
Proof.
  intros. repeat split_and.
  - eapply finalized_well_formed, tls_finalized.
  - eapply finalized_well_formed, headers_finalized.
  - intros r Hr. eapply finalized_well_formed, cookies_finalized, Hr.
  - eapply finalized_well_formed, whois_finalized.
Qed.

(* ===================================================================== *)
(** ** [summarizeOverall] *)
(* ===================================================================== *)

Lemma or_zero_id x : Server.or_zero x = x.
Proof. unfold Server.or_zero. destruct (Z.eqb_spec x 0); congruence. Qed.

Lemma reduce_sum f l a :
  fold_left (fun sum c => sum + Server.or_zero (f c)) l a = a + sigma f l.
Proof.
  revert a. induction l as [|c l IH]; intros a; simpl; [lia|].
  rewrite IH, or_zero_id. lia.
Qed.

(** [round(100 * s / m)] in integer arithmetic. *)
Lemma round_ratio' s m :
  0 < m ->
  round (inject_Z 100 * inject_Z s / inject_Z m)%Q = (200 * s + m) / (2 * m).
Proof.
  intros Hm. unfold round.
  destruct m as [|p|p]; try lia.
  assert (E : (inject_Z 100 * inject_Z s / inject_Z (Z.pos p) + (1 # 2) ==
               (200 * s + Z.pos p) # (2 * p))%Q).
  { unfold Qeq, Qdiv, Qmult, Qplus, Qinv, inject_Z; simpl. lia. }
  rewrite (Qfloor_comp _ _ E). reflexivity.
Qed.

Lemma nearest_unique s m t :
  0 < m ->
  t = (200 * s + m) / (2 * m) <->
  2 * m * t <= 200 * s + m < 2 * m * (t + 1).
Proof.
  intros Hm. split.
  - intros ->. split.
    + apply Z.mul_div_le. lia.
    + replace (2 * m * ((200 * s + m) / (2 * m) + 1))
        with (2 * m * Z.succ ((200 * s + m) / (2 * m))) by lia.
      apply Z.mul_succ_div_gt. lia.
  - intros [H1 H2].
    apply Z.div_unique with (r := 200 * s + m - 2 * m * t); lia.
Qed.

(** The doubles give the exact answer on every sum of four scores. *)
Lemma binary64_exact s :
  0 <= s <= 100 -> Binary64.normalizedScore s 100 = Some s.
Proof.
  intros Hs.
  assert (H : forallb (fun n => bool_decide
                (Binary64.normalizedScore (Z.of_nat n) 100 = Some (Z.of_nat n)))
              (seq 0 101) = true) by (vm_compute; reflexivity).
  rewrite forallb_forall in H. specialize (H (Z.to_nat s)).
  rewrite Z2Nat.id in H by lia.
  assert (Hin : In (Z.to_nat s) (seq 0 101)) by (apply in_seq; lia).
  apply H in Hin. by apply bool_decide_eq_true in Hin.
Qed.

Lemma summarizeOverall_total categories :
  Server.total (Server.summarizeOverall categories) =
    default 0 (Binary64.normalizedScore (sigma score categories)
                                        (sigma maxScore categories)).
Proof.
  unfold Server.summarizeOverall. cbn [Server.total].
  by rewrite !reduce_sum, !Z.add_0_l.
Qed.

Lemma summarizeOverall_rating categories :
  let o := Server.summarizeOverall categories in
  (Server.rating o = Server.Dangerous <-> Server.total o < 50) /\
  (Server.rating o = Server.Warning <-> 50 <= Server.total o < 60) /\
  (Server.rating o = Server.Safe <-> 60 <= Server.total o).
Proof.
  unfold Server.summarizeOverall. cbn [Server.total Server.rating].
  set (t := default 0 _). clearbody t.
  destruct (Z.ltb_spec t 50), (Z.ltb_spec t 60);
    repeat split; intros; try discriminate; try lia; reflexivity.
Qed.

(** With the maxima adding up to 100 and the scores to a sum from 0 to
    100, as in every reply, the total is the sum. *)
Lemma summarizeOverall_hundred categories :
  sigma maxScore categories = 100 ->
  0 <= sigma score categories <= 100 ->
  Server.total (Server.summarizeOverall categories) = sigma score categories.
Proof.
  intros HM HS. by rewrite summarizeOverall_total, HM, binary64_exact.
Qed.

(** Without a positive sum of maxima there is no division. *)
Lemma summarizeOverall_zero categories :
  sigma maxScore categories <= 0 ->
  Server.total (Server.summarizeOverall categories) = 0.
Proof.
  intros HM. rewrite summarizeOverall_total. unfold Binary64.normalizedScore.
  by destruct (Z.ltb_spec 0 (sigma maxScore categories)); [lia|].
Qed.

(* ===================================================================== *)
(** ** [Promise.allSettled] *)
(* ===================================================================== *)

Section Settle.

Context {A : Type} (ps : list (settled A)).

Lemma fill_length slots i : length (Server.fill ps slots i) = length slots.
Proof. unfold Server.fill. destruct (ps !! i); [apply length_insert|done]. Qed.

Lemma fold_fill_length order slots :
  length (fold_left (Server.fill ps) order slots) = length slots.
Proof.
  revert slots. induction order as [|j order IH]; intros slots; simpl; [done|].
  rewrite IH. apply fill_length.
Qed.

Lemma fill_sound slots j : sound ps slots -> sound ps (Server.fill ps slots j).
Proof.
  intros Hs i r. unfold Server.fill.
  destruct (ps !! j) as [rj|] eqn:Hj; [|apply Hs].
  destruct (decide (i = j)) as [->|Hne].
  - intros H. apply list_lookup_insert_Some in H.
    destruct H as [(_ & [= <-] & _)|[? _]]; [done|congruence].
  - rewrite list_lookup_insert_ne by done. apply Hs.
Qed.

Lemma fold_fill_sound order slots :
  sound ps slots -> sound ps (fold_left (Server.fill ps) order slots).
Proof.
  revert slots. induction order as [|j order IH]; intros slots Hs; simpl; [done|].
  apply IH, fill_sound, Hs.
Qed.

(** A filled slot stays as it is. *)
Lemma fold_fill_keeps order slots i r :
  ps !! i = Some r -> slots !! i = Some (Some r) ->
  fold_left (Server.fill ps) order slots !! i = Some (Some r).
Proof.
  intros Hp. revert slots.
  induction order as [|j order IH]; intros slots Hs; simpl; [done|].
  apply IH. unfold Server.fill. destruct (ps !! j) as [rj|] eqn:Hj; [|done].
  destruct (decide (j = i)) as [->|Hne].
  - rewrite list_lookup_insert_eq; [congruence|]. by eapply lookup_lt_Some.
  - by rewrite list_lookup_insert_ne.
Qed.

(** A promise that completes fills its slot. *)
Lemma fold_fill_fills order slots i r :
  i ∈ order -> (i < length slots)%nat -> ps !! i = Some r ->
  fold_left (Server.fill ps) order slots !! i = Some (Some r).
Proof.
  intros Hin Hlen Hp. revert slots Hlen.
  induction order as [|j order IH]; intros slots Hlen; simpl.
  - by apply elem_of_nil in Hin.
  - apply elem_of_cons in Hin as [->|Hin].
    + apply fold_fill_keeps; [done|]. unfold Server.fill. rewrite Hp.
      by rewrite list_lookup_insert_eq.
    + apply IH; [done|]. by rewrite fill_length.
Qed.

Lemma delivered_Some (slots : list (option (settled A))) rs :
  Server.delivered slots = Some rs <-> slots = Some <$> rs.
Proof.
  revert rs. induction slots as [|[r|] slots IH]; intros rs; simpl.
  - split; [intros [= <-]; done|]. destruct rs; [done|discriminate].
  - destruct (Server.delivered slots) as [l|] eqn:E.
    + split.
      * intros [= <-]. simpl. f_equal. by apply IH.
      * destruct rs as [|r' rs]; [discriminate|]. intros [= -> H].
        apply IH in H. congruence.
    + split; [discriminate|]. destruct rs as [|r' rs]; [discriminate|].
      intros [= -> H]. apply IH in H. discriminate.
  - split; [discriminate|]. destruct rs; discriminate.
Qed.

Lemma settle_sound order : sound ps (Server.settle ps order).
Proof.
  apply fold_fill_sound. intros i r H.
  apply lookup_replicate in H as [H _]. discriminate.
Qed.

(** Whatever the order, what [allSettled] delivers is the settlements
    in the order of the promises. *)
Lemma allSettled_inv order rs :
  Server.allSettled ps order = Some rs -> rs = ps.
Proof.
  unfold Server.allSettled. intros H. apply delivered_Some in H.
  pose proof (settle_sound order) as Hs.
  assert (Hlen : length rs = length ps).
  { apply (f_equal length) in H. rewrite length_fmap in H. rewrite <- H.
    unfold Server.settle. rewrite fold_fill_length. apply length_replicate. }
  apply list_eq_same_length with (n := length ps); [done..|].
  intros i x y _ Hx Hy. rewrite H in Hs.
  specialize (Hs i x). rewrite list_lookup_fmap, Hx in Hs. simpl in Hs.
  specialize (Hs eq_refl). congruence.
Qed.

(** It delivers as soon as every promise has completed. *)
Lemma allSettled_complete order :
  (forall i, (i < length ps)%nat -> i ∈ order) ->
  Server.allSettled ps order = Some ps.
Proof.
  intros Hall. unfold Server.allSettled. apply delivered_Some.
  apply list_eq_same_length with (n := length ps).
  - by rewrite length_fmap.
  - unfold Server.settle. rewrite fold_fill_length. apply length_replicate.
  - intros i x y Hi Hx Hy. rewrite list_lookup_fmap in Hy.
    destruct (ps !! i) as [r|] eqn:Hp; [|discriminate]. simpl in Hy.
    unfold Server.settle in Hx.
    rewrite (fold_fill_fills order _ i r) in Hx; [congruence|auto|..|done].
    by rewrite length_replicate.
Qed.

Lemma allSettled_any_order order :
  order ≡ₚ seq 0 (length ps) -> Server.allSettled ps order = Some ps.
Proof.
  intros Hp. apply allSettled_complete. intros i Hi.
  rewrite Hp. apply elem_of_seq. lia.
Qed.

End Settle.

(* ===================================================================== *)
(** ** The aggregation stage *)
(* ===================================================================== *)

Lemma category_described tasks t i :
  tasks !! i = Some t -> described t ->
  Server.category tasks (Server.outcome t) i = Some (entryOf t).
Proof.
  intros Hi (Hk & Hl & Hm). unfold Server.category, entryOf.
  destruct (Server.outcome t) as [v|reason]; [done|].
  rewrite Hi. f_equal. unfold fallbackOf, or_else.
  assert (Hne : forall s, s <> "" -> nonempty s = true).
  { intros s Hs. unfold nonempty. by destruct (String.eqb_spec s ""). }
  rewrite !Hne by done. unfold filter_Boolean. simpl.
  destruct (message reason) as [m|]; [|done]. by destruct (nonempty m).
Qed.

Lemma mapi_entries (tasks before todo : list Server.Task) :
  tasks = (before ++ todo)%list -> Forall described todo ->
  Server.mapi (Server.category tasks) (map Server.outcome todo) (length before)
    = Some (map entryOf todo).
Proof.
  revert before. induction todo as [|t todo IH]; intros before -> Hd; [done|].
  apply Forall_cons in Hd as [Ht Hd]. simpl.
  rewrite (category_described _ t); [|by apply list_lookup_middle|done].
  specialize (IH (before ++ [t])%list). rewrite length_app, Nat.add_1_r in IH.
  rewrite IH; [done| by rewrite <- app_assoc |done].
Qed.

Lemma mapi_tasks (tasks : list Server.Task) :
  Forall described tasks ->
  Server.mapi (Server.category tasks) (map Server.outcome tasks) 0
    = Some (map entryOf tasks).
Proof. intros Hd. by apply (mapi_entries tasks [] tasks). Qed.

Section Aggregate.

Variable toISOString : Z -> string.
Variable now : Z.
Variable order : list nat.
Variable tasks : list Server.Task.
Variable sanitizedUrl : string.
Variable siteResponse : option Response.
Variable fetchError : option fault.
Hypothesis tasks_described : Forall described tasks.

(** If a reply is sent, its categories are the entries of the tasks, in
    the order of the tasks. *)
Lemma aggregate_inv reply :
  Server.aggregate toISOString now order tasks sanitizedUrl siteResponse fetchError
    = Some reply ->
  exists body,
    reply = Server.Status200 body /\
    Server.categories body = map entryOf tasks /\
    Server.b_score body = Server.summarizeOverall (map entryOf tasks).
Proof.
  unfold Server.aggregate.
  destruct (Server.allSettled _ _) as [results|] eqn:E; [|discriminate].
  apply allSettled_inv in E as ->.
  rewrite mapi_tasks by done.
  intros [= <-]. eexists. split; [reflexivity|]. done.
Qed.

(** Once the four promises have settled, in any order, a reply is sent. *)
Lemma aggregate_any_order :
  order ≡ₚ seq 0 (length tasks) ->
  exists reply,
    Server.aggregate toISOString now order tasks sanitizedUrl siteResponse fetchError
      = Some reply.
Proof.
  intros Hp. unfold Server.aggregate.
  rewrite allSettled_any_order by (by rewrite length_map).
  rewrite mapi_tasks by done. eauto.
Qed.

End Aggregate.

(* ===================================================================== *)
(** ** The handler *)
(* ===================================================================== *)

Lemma tasks_described p0 p1 p2 p3 : Forall described (Server.tasks p0 p1 p2 p3).
Proof. repeat constructor; simpl; by eauto. Qed.

Lemma tasks_entries p0 p1 p2 p3 :
  map entryOf (Server.tasks p0 p1 p2 p3) =
    [ entry "tls" "HTTPS & TLS" p0; entry "headers" "Security Headers" p1;
      entry "cookies" "Cookie Security" p2; entry "whois" "Domain WHOIS" p3 ].
Proof.
  unfold Server.tasks, entryOf, entry, fallbackOf. cbn [map Server.outcome].
  by destruct p0, p1, p2, p3.
Qed.

Lemma entry_finalized K L p :
  (forall v, p = Fulfilled v -> finalized K L v) ->
  well_formed (entry K L p) /\ key (entry K L p) = K.
Proof.
  intros H. destruct p as [v|reason]; simpl.
  - specialize (H v eq_refl). split; [by eapply finalized_well_formed|].
    by apply finalized_fields in H as [? _].
  - split; [|done]. unfold well_formed. simpl. lia.
Qed.

Lemma sigma_max (l : list CategoryResult) :
  Forall well_formed l -> sigma maxScore l = 25 * Z.of_nat (length l).
Proof.
  induction 1 as [|c l (_ & Hm & _) _ IH]; simpl; [done|]. lia.
Qed.

Lemma sigma_score (l : list CategoryResult) :
  Forall well_formed l -> 0 <= sigma score l <= 25 * Z.of_nat (length l).
Proof.
  induction 1 as [|c l (Hs & Hm & _) _ IH]; simpl; [done|]. lia.
Qed.

Section Handler.

Variable URL_parse : string -> option URL.
Variable Date_parse : string -> option Z.
Variable toISOString : Z -> string.
Variable now : Z.
Variable fetch headers_get cookies_get : string -> AxiosOutcome.
Variable network : string -> Z -> Tls.SocketEvent.
Variable parse : option HeaderValue -> list Cookies.Cookie.
Variable psl_domain : string -> option string.
Variable whois : string -> Whois.WhoisOutcome.
Variable order : list nat.

#[local] Abbreviation check :=
  (Server.check URL_parse Date_parse toISOString now fetch headers_get
     cookies_get network parse psl_domain whois order).

(** The promises of the four evaluators for the URL [s] and the shared
    context [c]. *)
#[local] Abbreviation tlsPromise s :=
  (Fulfilled (Tls.run network
                (Tls.checkTLS URL_parse Date_parse toISOString now s))).
#[local] Abbreviation headersPromise s c :=
  (Fulfilled (Headers.checkHeaders headers_get s c)).
#[local] Abbreviation cookiesPromise s c :=
  (Cookies.checkCookies cookies_get parse toISOString s c).
#[local] Abbreviation whoisPromise s :=
  (Fulfilled (Whois.checkWhois URL_parse psl_domain whois Date_parse
                toISOString now s)).

(** The entries of [categories] for the URL [s] and the context [c]. *)
#[local] Abbreviation entries s c :=
  [ entry "tls" "HTTPS & TLS" (tlsPromise s);
    entry "headers" "Security Headers" (headersPromise s c);
    entry "cookies" "Cookie Security" (cookiesPromise s c);
    entry "whois" "Domain WHOIS" (whoisPromise s) ].

Lemma entries_finalized s c :
  Forall well_formed (entries s c) /\
  map key (entries s c) = ["tls"; "headers"; "cookies"; "whois"].
Proof.
  destruct (entry_finalized "tls" "HTTPS & TLS" (tlsPromise s)) as [W0 K0].
  { intros v [= <-]. apply tls_finalized. }
  destruct (entry_finalized "headers" "Security Headers" (headersPromise s c))
    as [W1 K1].
  { intros v [= <-]. apply headers_finalized. }
  destruct (entry_finalized "cookies" "Cookie Security" (cookiesPromise s c))
    as [W2 K2].
  { intros v Hv. eapply cookies_finalized, Hv. }
  destruct (entry_finalized "whois" "Domain WHOIS" (whoisPromise s)) as [W3 K3].
  { intros v [= <-]. apply whois_finalized. }
  split; [|cbn [map]; by rewrite K0, K1, K2, K3].
  repeat apply Forall_cons_2; try apply Forall_nil_2; assumption.
Qed.

Lemma check_valid url parsedUrl :
  valid URL_parse url parsedUrl ->
  let s := href parsedUrl in
  let c := contextOf fetch parsedUrl in
  check url =
    Server.aggregate toISOString now order
      (Server.tasks (tlsPromise s) (headersPromise s c) (cookiesPromise s c)
                    (whoisPromise s))
      s (ctx_response c) (ctx_fetchError c).
Proof.
  intros (Hu & Hp & Hs). unfold Server.check. rewrite Hu, Hp. simpl.
  replace (String.eqb (protocol parsedUrl) "http:" ||
           (String.eqb (protocol parsedUrl) "https:" || false)) with true.
  2:{ destruct Hs as [-> | ->]; reflexivity. }
  simpl. unfold contextOf. by destruct (Server.fetchSiteResponse _ _).
Qed.

Lemma check_inv url body :
  check url = Some (Server.Status200 body) ->
  exists s c,
    Server.categories body = entries s c /\
    Server.b_score body = Server.summarizeOverall (Server.categories body).
Proof.
  unfold Server.check.
  destruct (negb _); [discriminate|].
  destruct (URL_parse _) as [u|]; [|discriminate].
  destruct (negb _); [discriminate|].
  destruct (Server.fetchSiteResponse _ _) as [r e].
  intros H. apply aggregate_inv in H as (body' & [= <-] & Hc & Hs);
    [|apply tasks_described].
  rewrite tasks_entries in Hc, Hs.
  do 2 eexists. split; [exact Hc|]. by rewrite Hc.
Qed.

(** C1. The overall score.  For the four categories of a check request
    (their maxScores add up to M = 100 and their scores to a sum S from
    0 to 100), and for every list with such sums:
    total = round(100 * S / M), the integer nearest to the quotient with
    halves going up.  For every list, total = 0 when M is 0, and the
    rating is the step function of the total: Dangerous iff total < 50,
    Warning iff 50 <= total < 60, Safe iff total >= 60, so that 49 is
    Dangerous, 50 and 59 are Warning and 60 is Safe.  The score of a
    check request is this summary of its four categories. *)
Theorem overall_score_and_rating :
  (forall categories,
     let S := sigma score categories in
     let M := sigma maxScore categories in
     let t := Server.total (Server.summarizeOverall categories) in
     let r := Server.rating (Server.summarizeOverall categories) in
     (M = 100 -> 0 <= S <= 100 ->
        t = round (inject_Z 100 * inject_Z S / inject_Z M)%Q /\
        2 * M * t <= 200 * S + M < 2 * M * (t + 1)) /\
     (M = 0 -> t = 0) /\
     (r = Server.Dangerous <-> t < 50) /\
     (r = Server.Warning <-> 50 <= t < 60) /\
     (r = Server.Safe <-> 60 <= t) /\
     (t = 49 -> r = Server.Dangerous) /\
     (t = 50 -> r = Server.Warning) /\
     (t = 59 -> r = Server.Warning) /\
     (t = 60 -> r = Server.Safe)) /\
  (forall url body,
     check url = Some (Server.Status200 body) ->
     length (Server.categories body) = 4%nat /\
     Server.b_score body = Server.summarizeOverall (Server.categories body) /\
     Server.max (Server.b_score body) = 100 /\
     sigma maxScore (Server.categories body) = 100 /\
     0 <= sigma score (Server.categories body) <= 100).
Proof.
  split.
  - intros categories. cbn zeta.
    pose proof (summarizeOverall_rating categories) as (HD & HW & HS).
    cbn zeta in HD, HW, HS.
    split_and!.
    + intros HM HS'. rewrite summarizeOverall_hundred by done.
      rewrite round_ratio' by lia. rewrite HM.
      assert (E : sigma score categories
                  = (200 * sigma score categories + 100) / (2 * 100)).
      { apply nearest_unique; lia. }
      split; [exact E|lia].
    + intros HM. apply summarizeOverall_zero. lia.
    + exact HD.
    + exact HW.
    + exact HS.
    + intros E. apply HD. lia.
    + intros E. apply HW. lia.
    + intros E. apply HW. lia.
    + intros E. apply HS. lia.
  - intros url body H. apply check_inv in H as (s & c & Hc & Hs).
    destruct (entries_finalized s c) as [Hwf _]. rewrite <- Hc in Hwf.
    assert (Hlen : length (Server.categories body) = 4%nat) by (by rewrite Hc).
    pose proof (sigma_max _ Hwf) as HM. pose proof (sigma_score _ Hwf) as HS.
    rewrite Hlen in HM, HS.
    split_and!; [exact Hlen|exact Hs|by rewrite Hs|lia|lia|lia].
Qed.

(** C10. Each of the four entries, evaluator result or fallback, has
    maxScore 25; the maxScore sum is 100; the total is the plain sum of
    the four scores (the division and the rounding of the doubles
    change nothing); 0 <= total <= 100. *)
Theorem total_is_the_sum_of_the_scores url body :
  check url = Some (Server.Status200 body) ->
  let cats := Server.categories body in
  let t := Server.total (Server.b_score body) in
  Forall (fun c => maxScore c = 25) cats /\
  sigma maxScore cats = 100 /\
  t = sigma score cats /\
  Binary64.normalizedScore (sigma score cats) (sigma maxScore cats) = Some t /\
  0 <= t <= 100.
Proof.
  intros H. apply check_inv in H as (s & c & Hc & Hs). cbn zeta.
  destruct (entries_finalized s c) as [Hwf _]. rewrite <- Hc in Hwf.
  assert (Hlen : length (Server.categories body) = 4%nat) by (by rewrite Hc).
  pose proof (sigma_max _ Hwf) as HM. pose proof (sigma_score _ Hwf) as HS.
  rewrite Hlen in HM, HS.
  assert (Ht : Server.total (Server.b_score body)
               = sigma score (Server.categories body))
    by (rewrite Hs; apply summarizeOverall_hundred; lia).
  split_and!.
  - eapply Forall_impl; [exact Hwf|]. by intros x (_ & ? & _).
  - lia.
  - exact Ht.
  - rewrite Ht, HM. apply binary64_exact. lia.
  - lia.
  - lia.
Qed.

(** C2. A request that passes validation is answered, whatever the
    order in which the four promises settle, with exactly four
    categories in the order tls, headers, cookies, whois.  Whatever the
    four promises do, the entry of one that rejects is the fallback
    (score 0, the category's maxScore 25, passed = false, warnings
    'Check failed to complete.' followed by the message of the fault,
    see [entry]), and the other entries and the overall score are
    produced all the same. *)
Theorem categories_in_task_order url parsedUrl :
  valid URL_parse url parsedUrl ->
  order ≡ₚ [0; 1; 2; 3]%nat ->
  let s := href parsedUrl in
  let c := contextOf fetch parsedUrl in
  let aggregate tasks :=
    Server.aggregate toISOString now order tasks s (ctx_response c)
                     (ctx_fetchError c) in
  check url =
    aggregate (Server.tasks (tlsPromise s) (headersPromise s c)
                            (cookiesPromise s c) (whoisPromise s)) /\
  (forall tls headers cookies whois,
     exists body,
       aggregate (Server.tasks tls headers cookies whois)
         = Some (Server.Status200 body) /\
       Server.categories body =
         [ entry "tls" "HTTPS & TLS" tls;
           entry "headers" "Security Headers" headers;
           entry "cookies" "Cookie Security" cookies;
           entry "whois" "Domain WHOIS" whois ] /\
       Server.b_score body = Server.summarizeOverall (Server.categories body)) /\
  exists body,
    check url = Some (Server.Status200 body) /\
    length (Server.categories body) = 4%nat /\
    map key (Server.categories body) = ["tls"; "headers"; "cookies"; "whois"].
Proof.
  intros Hv Ho s c aggregate.
  assert (Hagg : forall tls headers cookies whois,
     exists body,
       aggregate (Server.tasks tls headers cookies whois)
         = Some (Server.Status200 body) /\
       Server.categories body =
         [ entry "tls" "HTTPS & TLS" tls;
           entry "headers" "Security Headers" headers;
           entry "cookies" "Cookie Security" cookies;
           entry "whois" "Domain WHOIS" whois ] /\
       Server.b_score body = Server.summarizeOverall (Server.categories body)).
  { intros p0 p1 p2 p3.
    destruct (aggregate_any_order toISOString now order
                (Server.tasks p0 p1 p2 p3) s (ctx_response c) (ctx_fetchError c))
      as [reply Hr]; [apply tasks_described|exact Ho|].
    pose proof Hr as Hi.
    apply aggregate_inv in Hi as (body & -> & Hc & Hs); [|apply tasks_described].
    rewrite tasks_entries in Hc, Hs.
    exists body. split_and!; [exact Hr|exact Hc|by rewrite Hc]. }
  split_and!.
  - by apply check_valid.
  - exact Hagg.
  - destruct (Hagg (tlsPromise s) (headersPromise s c) (cookiesPromise s c)
                   (whoisPromise s)) as (body & Hb & Hc & _).
    exists body. rewrite (check_valid _ _ Hv). split_and!.
    + exact Hb.
    + by rewrite Hc.
    + rewrite Hc. apply entries_finalized.
Qed.

End Handler.

Lemma overall_score_and_rating_witness :
  Server.rating (Server.summarizeOverall (Example.four 24 25 0 0)) = Server.Dangerous /\
  Server.rating (Server.summarizeOverall (Example.four 25 25 0 0)) = Server.Warning /\
  Server.rating (Server.summarizeOverall (Example.four 25 25 9 0)) = Server.Warning /\
  Server.rating (Server.summarizeOverall (Example.four 25 25 10 0)) = Server.Safe /\
  Server.total (Server.summarizeOverall []) = 0 /\
  Server.total (Server.summarizeOverall (Example.four 25 18 0 14))
    = round (inject_Z 100 * inject_Z 57 / inject_Z 100)%Q.
Proof.
  pose proof (fun w c => proj1 (overall_score_and_rating Example.URL_parse
    Example.Date_parse Example.toISOString Example.now Example.unreachable
    Example.unreachable Example.unreachable w Example.parse Example.psl_domain
    Example.whois [] ) c) as H.
  specialize (H (Example.network None)).
  split_and!.
  - destruct (H (Example.four 24 25 0 0)) as (_ & _ & _ & _ & _ & H49 & _).
    apply H49. reflexivity.
  - destruct (H (Example.four 25 25 0 0)) as (_ & _ & _ & _ & _ & _ & H50 & _).
    apply H50. reflexivity.
  - destruct (H (Example.four 25 25 9 0)) as (_ & _ & _ & _ & _ & _ & _ & H59 & _).
    apply H59. reflexivity.
  - destruct (H (Example.four 25 25 10 0)) as (_ & _ & _ & _ & _ & _ & _ & _ & H60).
    apply H60. reflexivity.
  - destruct (H []) as (_ & H0 & _). apply H0. reflexivity.
  - destruct (H (Example.four 25 18 0 14)) as (Ht & _).
    apply Ht; [reflexivity|]. vm_compute. split; discriminate.
Defined.

Lemma total_is_the_sum_of_the_scores_witness :
  exists body,
    Example.check [] [3; 2; 1; 0]%nat (Some "http://example.com/")
      = Some (Server.Status200 body) /\
    map score (Server.categories body) = [0; 0; 25; 25] /\
    Server.total (Server.b_score body) = 50 /\
    Binary64.normalizedScore 50 100 = Some 50.
Proof.
  unfold Example.check.
  destruct (Server.check _ _ _ _ _ _ _ _ _ _ _ _ _) as [[e|body]|] eqn:E;
    try (vm_compute in E; discriminate).
  exists body. split; [reflexivity|].
  pose proof (total_is_the_sum_of_the_scores _ _ _ _ _ _ _ _ _ _ _ _ _ _ E)
    as (_ & HM & Ht & Hb & _).
  assert (Hs : map score (Server.categories body) = [0; 0; 25; 25]).
  { vm_compute in E. injection E as <-. reflexivity. }
  assert (Hsum : sigma score (Server.categories body) = 50).
  { vm_compute in E. injection E as <-. reflexivity. }
  split; [exact Hs|]. rewrite Hsum in Ht, Hb. rewrite HM in Hb.
  split; [exact Ht|]. by rewrite Hb, Ht.
Defined.

Lemma categories_in_task_order_witness :
  exists body,
    Example.check Example.neverExpires [2; 0; 3; 1]%nat
      (Some "https://example.com/") = Some (Server.Status200 body) /\
    map key (Server.categories body) = ["tls"; "headers"; "cookies"; "whois"].
Proof.
  destruct (categories_in_task_order Example.URL_parse Example.Date_parse
    Example.toISOString Example.now
    (fun _ => AxiosResponse (Example.response Example.neverExpires))
    Example.unreachable Example.unreachable
    (Example.network (Some "Jan  1 00:00:00 2030 GMT")) Example.parse
    Example.psl_domain Example.whois [2; 0; 3; 1]%nat
    (Some "https://example.com/") Example.site)
    as (_ & _ & body & Hc & _ & Hk).
  - split_and!; [reflexivity|reflexivity|by right].
  - apply (bool_decide_unpack _). vm_compute. exact I.
  - exists body. split; [exact Hc|exact Hk].
Defined.

(* ===================================================================== *)
(** ** Cookies *)
(* ===================================================================== *)

Lemma when_length c w (issues : list string) :
  length (Cookies.when c w issues) = (length issues + Nat.b2n c)%nat.
Proof.
  unfold Cookies.when. destruct c; simpl; [|lia].
  rewrite length_app. simpl. lia.
Qed.

(** The code finds as many issues as the specification lists. *)
Lemma issues_counted cookie :
  length (Cookies.analyzeCookieIssues cookie) = issueCount cookie.
Proof.
  unfold Cookies.analyzeCookieIssues, issueCount, Cookies.sanitizeSameSite, truthy_str.
  destruct (Cookies.sameSite cookie) as [s|]; [destruct (nonempty s)|];
    destruct (startsWith "__Host-" (Cookies.name cookie));
    rewrite ?when_length; simpl; lia.
Qed.

Section CookieCheck.

Variable axios_get : string -> AxiosOutcome.
Variable parse : option HeaderValue -> list Cookies.Cookie.
Variable toISOString : Z -> string.

Lemma describe_datable cookie penalty :
  datable cookie ->
  exists entry,
    Cookies.describe toISOString cookie penalty
      = Fulfilled (penalty + 5 * Z.of_nat (issueCount cookie), entry) /\
    Cookies.d_issues entry = Cookies.analyzeCookieIssues cookie /\
    Cookies.d_name entry = Cookies.name cookie.
Proof.
  intros Hd. unfold Cookies.describe. rewrite issues_counted.
  assert (Hp : (if (0 <? issueCount cookie)%nat
                then penalty + Z.of_nat (issueCount cookie) * 5 else penalty)
               = penalty + 5 * Z.of_nat (issueCount cookie)).
  { destruct (Nat.ltb_spec 0 (issueCount cookie)); lia. }
  rewrite Hp. unfold datable in Hd.
  destruct (Cookies.expires cookie) as [[t|]|]; try done; simpl; eauto.
Qed.

Lemma mapCookies_datable cookies penalty :
  Forall datable cookies ->
  exists entries,
    Cookies.mapCookies toISOString cookies penalty
      = Fulfilled (penalty + 5 * Z.of_nat (totalIssues cookies), entries) /\
    Forall2 (fun e c => Cookies.d_issues e = Cookies.analyzeCookieIssues c /\
                        Cookies.d_name e = Cookies.name c) entries cookies.
Proof.
  intros H. revert penalty. induction H as [|c cs Hc _ IH]; intros penalty; simpl.
  - exists []. split; [f_equal; f_equal; lia|constructor].
  - destruct (describe_datable c penalty Hc) as (e & -> & He).
    destruct (IH (penalty + 5 * Z.of_nat (issueCount c))) as (es & -> & Hes).
    exists (e :: es). split; [f_equal; f_equal; lia|by constructor].
Qed.

Lemma insecure_offending entries cookies :
  Forall2 (fun e c => Cookies.d_issues e = Cookies.analyzeCookieIssues c /\
                      Cookies.d_name e = Cookies.name c) entries cookies ->
  length (List.filter (fun c => (0 <? length (Cookies.d_issues c))%nat) entries)
    = length (offending cookies).
Proof.
  induction 1 as [|e c es cs [He _] _ IH]; simpl; [done|].
  rewrite He, issues_counted. destruct (0 <? issueCount c)%nat; simpl; lia.
Qed.

(** What the claim C4 says, on the responses whose cookies carry no
    unparsable [Expires] attribute. *)
Lemma cookies_score_formula targetUrl context response e :
  Cookies.obtain axios_get targetUrl context = (Some response, e) ->
  let header := setCookieOf response in
  (Cookies.noSetCookie header = true ->
     exists r,
       Cookies.checkCookies axios_get parse toISOString targetUrl context
         = Fulfilled r /\
       score r = 25 /\ warnings r = [] /\
       get "totalCookies" (details r) = Num 0) /\
  (Cookies.noSetCookie header = false ->
   Forall datable (parse header) ->
     exists r,
       Cookies.checkCookies axios_get parse toISOString targetUrl context
         = Fulfilled r /\
       score r = Z.max 0 (25 - 5 * Z.of_nat (totalIssues (parse header))) /\
       length (warnings r) = length (offending (parse header)) /\
       get "totalCookies" (details r) = Num (Z.of_nat (length (parse header)))).
Proof.
  intros Ho header. unfold Cookies.checkCookies. rewrite Ho.
  fold (setCookieOf response). fold header. split.
  - intros ->. eexists. split; [reflexivity|]. by repeat split.
  - intros -> Hd.
    destruct (mapCookies_datable (parse header) 0 Hd) as (es & -> & Hes).
    eexists. split; [reflexivity|]. split_and!.
    + unfold Cookies.finalizeResult, finalize, Cookies.MAX_SCORE.
      cbn [score]. lia.
    + unfold Cookies.finalizeResult, finalize. cbn [warnings].
      rewrite length_map.
      by apply insecure_offending.
    + reflexivity.
Qed.

End CookieCheck.

(** C4, at the input where the code departs from it.  The response sets
    one cookie, [__Host-session=1; Path=/; Expires=never; Secure;
    HttpOnly; SameSite=Strict]: it has no issue, so the claim gives it
    the score 25; the check throws instead (the date of [Expires] is
    invalid), and the handler reports the cookie category with the
    fallback score 0. *)
Theorem cookies_unparsable_expires_throws :
  let cookies := Example.parse (setCookieOf (Example.response Example.neverExpires)) in
  cookies = [Example.session (Some Cookies.InvalidDate)] /\
  totalIssues cookies = 0%nat /\
  Cookies.checkCookies Example.unreachable Example.parse Example.toISOString
    "https://example.com/" (Example.context Example.neverExpires)
    = Rejected (Fault (Some "Invalid time value")) /\
  exists body,
    Example.check Example.neverExpires [0; 1; 2; 3]%nat (Some "https://example.com/")
      = Some (Server.Status200 body) /\
    (score <$> Server.categories body !! 2%nat) = Some 0 /\
    (warnings <$> Server.categories body !! 2%nat)
      = Some ["Check failed to complete."; "Invalid time value"].
Proof.
  cbn zeta. split_and!; [reflexivity..|].
  eexists. split_and!; [vm_compute; reflexivity|reflexivity..].
Qed.

(* ===================================================================== *)
(** ** Headers *)
(* ===================================================================== *)

Lemma fold_applyCheck checks l :
  let l' := fold_left Headers.applyCheck checks l in
  l_score l' = l_score l - penalties checks /\
  l_warnings l' =
    (l_warnings l ++ map Headers.warning (List.filter Headers.failed checks))%list.
Proof.
  revert l. induction checks as [|c checks IH]; intros l; simpl.
  - split; [lia|by rewrite app_nil_r].
  - destruct (IH (Headers.applyCheck l c)) as [Hs Hw]. rewrite Hs, Hw.
    unfold Headers.applyCheck. destruct (Headers.failed c); simpl.
    + split; [lia|by rewrite <- app_assoc].
    + split; [lia|done].
Qed.

Lemma penalties_bounds checks :
  Forall (fun c => 0 <= Headers.weight c) checks ->
  0 <= penalties checks <=
    foldr (fun c acc => Headers.weight c + acc) 0 checks.
Proof.
  induction 1 as [|c checks Hc _ IH]; simpl; [lia|].
  destruct (Headers.failed c); lia.
Qed.

Lemma checks_shape h :
  map Headers.hc_key (Headers.createHeaderChecks h) = rubricHeaders /\
  map Headers.hc_label (Headers.createHeaderChecks h) = rubricLabels /\
  map Headers.weight (Headers.createHeaderChecks h) = [5; 5; 4; 4; 3; 4].
Proof. repeat split. Qed.

(** The result of the check on an obtained response. *)
Lemma checkHeaders_obtained axios_get targetUrl context response e :
  Headers.obtain axios_get targetUrl context = (Some response, e) ->
  let checks := Headers.createHeaderChecks (Headers.extractHeaders response) in
  let r := Headers.checkHeaders axios_get targetUrl context in
  score r = Z.max 0 (25 - penalties checks) /\
  warnings r = map Headers.warning (List.filter Headers.failed checks) /\
  get "missing" (details r)
    = Arr (map (fun c => Str (Headers.hc_label c)) (List.filter Headers.failed checks)).
Proof.
  intros Ho checks r. unfold r, Headers.checkHeaders. rewrite Ho.
  fold checks.
  pose proof (fold_applyCheck checks
    {| l_score := Headers.MAX_SCORE; l_warnings := []; l_details := [] |}) as [Hs Hw].
  cbn zeta in Hs, Hw.
  unfold Headers.finalizeResult, finalize. cbn [score warnings details].
  rewrite Hs, Hw. cbn [l_score l_warnings]. split_and!; [|done|reflexivity].
  assert (Hb : 0 <= penalties checks <= 25).
  { pose proof (penalties_bounds checks) as Hb.
    assert (Hw' : Forall (fun c => 0 <= Headers.weight c) checks).
    { unfold checks, Headers.createHeaderChecks. repeat constructor; simpl; lia. }
    apply Hb in Hw'. exact Hw'. }
  unfold Headers.MAX_SCORE. lia.
Qed.

(** *** Unanchored, case-insensitive literals *)

Lemma lit_i_Some p s :
  is_Some (lit_i p s) <-> exists post, toLowerCase s = p ++ post.
Proof.
  revert s. induction p as [|a p IH]; intros s; simpl.
  - split; [intros _; by exists (toLowerCase s)|by eauto].
  - destruct s as [|c s]; simpl.
    + split; [by intros [? [=]]|by intros [? [=]]].
    + destruct (Ascii.eqb_spec a (lower_char c)) as [->|Hne].
      * rewrite IH. split; intros [post H]; exists post.
        -- simpl. by rewrite H.
        -- simpl in H. by injection H.
      * split; [by intros [? [=]]|]. intros [post H]. simpl in H.
        injection H as H _. congruence.
Qed.

Lemma search_or f g s :
  search (fun x => f x || g x) s = search f s || search g s.
Proof.
  induction s as [|c s IH]; simpl.
  - by rewrite !orb_false_r.
  - rewrite IH. destruct (f (String c s)), (g (String c s)),
      (search f s), (search g s); reflexivity.
Qed.

Lemma search_lit p s :
  search (fun x => bool_decide (is_Some (lit_i p x))) s = true <-> contains_i p s.
Proof.
  unfold contains_i. split.
  - induction s as [|c s IH]; simpl.
    + rewrite orb_false_r. intros H. apply bool_decide_eq_true in H.
      apply lit_i_Some in H as [post H]. by exists "", post.
    + intros H. apply orb_true_iff in H as [H|H].
      * apply bool_decide_eq_true in H. apply lit_i_Some in H as [post H].
        by exists "", post.
      * destruct (IH H) as (pre & post & E).
        exists (String (lower_char c) pre), post. simpl. by rewrite E.
  - intros (pre & post & E). revert s E.
    induction pre as [|a pre IH]; intros s E.
    + assert (H : is_Some (lit_i p s)) by (apply lit_i_Some; eauto).
      destruct s; simpl; apply orb_true_iff; left; by apply bool_decide_eq_true.
    + destruct s as [|c s]; [discriminate|]. simpl in E. injection E as _ E.
      simpl. apply orb_true_iff. right. by apply IH.
Qed.

Lemma search_referrer s :
  search Headers.re_referrer s = true <->
  contains_i "no-referrer" s \/ contains_i "strict-origin" s.
Proof.
  unfold Headers.re_referrer. rewrite !search_or, !orb_true_iff, !search_lit.
  split; [|tauto]. intros [[H|H]|H]; [tauto..|]. right.
  destruct H as (pre & post & E).
  exists pre, ("-when-cross-origin" ++ post). exact E.
Qed.

Lemma search_empty_referrer : search Headers.re_referrer "" = false.
Proof. reflexivity. Qed.

Lemma search_frame_options s :
  search Headers.re_frame_options s = true <->
  contains_i "sameorigin" s \/ contains_i "deny" s.
Proof.
  unfold Headers.re_frame_options.
  by rewrite search_or, orb_true_iff, !search_lit.
Qed.

(** *** The rules of the rubric *)





















Lemma warning_listed checks c :
  NoDup (map Headers.warning checks) -> In c checks ->
  In (Headers.warning c) (map Headers.warning (List.filter Headers.failed checks))
    <-> Headers.failed c = true.
Proof.
  intros Hnd Hc. rewrite in_map_iff. split.
  - intros (c' & Hw & Hin). apply filter_In in Hin as [Hin Hf].
    assert (c' = c); [|congruence].
    apply list_elem_of_In in Hin, Hc.
    apply list_elem_of_lookup in Hin as [i Hi], Hc as [j Hj].
    assert (i = j); [|congruence].
    eapply NoDup_lookup; [exact Hnd|..]; rewrite list_lookup_fmap.
    + by rewrite Hi.
    + rewrite Hj. simpl. by rewrite Hw.
  - intros Hf. exists c. split; [done|]. by apply filter_In.
Qed.

(** C8.  The claim does not hold of the code.  The check tests its
    expression anywhere in the value: it passes, without warning and
    without its 4-point penalty, exactly when the header is present and
    its value contains, letter case ignored, no-referrer or
    strict-origin; otherwise, a missing header included, the warning is
    appended and 4 points are lost.  So it also passes on values that
    are none of the three policies of the rubric, among them
    no-referrer-when-downgrade. *)
Theorem referrer_policy_passes_on_substring
    axios_get targetUrl context response e :
  Headers.obtain axios_get targetUrl context = (Some response, e) ->
  let h := Headers.extractHeaders response in
  let value := Headers.normalizeValue (h !! "referrer-policy") in
  let passes :=
    Headers.Boolean (h !! "referrer-policy") = true /\
    exists v, value = Some v /\
              (contains_i "no-referrer" v \/ contains_i "strict-origin" v) in
  let others := delete 3%nat (Headers.createHeaderChecks h) in
  let r := Headers.checkHeaders axios_get targetUrl context in
  (h !! "referrer-policy" = None -> ~ passes) /\
  (passes ->
     ~ In "Missing Referrer-Policy header." (warnings r) /\
     score r = Z.max 0 (25 - penalties others)) /\
  (~ passes ->
     In "Missing Referrer-Policy header." (warnings r) /\
     score r = Z.max 0 (25 - penalties others - 4)).
Proof.
  intros Ho h value passes others r.
  destruct (checkHeaders_obtained _ _ _ _ _ Ho) as (Hs & Hw & _).
  fold h r in Hs, Hw.
  set (c := {| Headers.hc_key := "referrer-policy";
               Headers.hc_label := "Referrer-Policy";
               Headers.weight := 4;
               Headers.present := Headers.Boolean (h !! "referrer-policy");
               Headers.valid := and_then value (search Headers.re_referrer);
               Headers.warning := "Missing Referrer-Policy header." |}).
  assert (Hin : In c (Headers.createHeaderChecks h)).
  { unfold Headers.createHeaderChecks. simpl. tauto. }
  assert (Hnd : NoDup (map Headers.warning (Headers.createHeaderChecks h))).
  { apply (bool_decide_unpack _). vm_compute. exact I. }
  pose proof (warning_listed _ c Hnd Hin) as Hl. rewrite <- Hw in Hl.
  change (Headers.warning c) with "Missing Referrer-Policy header." in Hl.
  assert (Hp : penalties (Headers.createHeaderChecks h)
               = penalties others + (if Headers.failed c then 4 else 0)).
  { unfold others, Headers.createHeaderChecks, penalties. simpl. fold h value. 
    fold c. lia. }
  assert (Hpass : passes <-> Headers.failed c = false).
  { unfold passes, Headers.failed, c. cbn [Headers.present Headers.valid].
    rewrite orb_false_iff, !negb_false_iff. apply and_iff_compat_l.
    unfold and_then. destruct value as [v|].
    - split.
      + intros (v' & [= <-] & H). apply search_referrer in H.
        apply andb_true_iff. split; [|done].
        destruct v; [vm_compute in H; discriminate H|done].
      + intros H. apply andb_true_iff in H as [_ H].
        apply search_referrer in H. eauto.
    - split; [by intros (? & [=] & _)|discriminate]. }
  split_and!.
  - intros Hnone [Hb _]. rewrite Hnone in Hb. discriminate.
  - intros H. apply Hpass in H. rewrite Hs, Hp, H. split; [|f_equal; lia].
    rewrite Hl, H. discriminate.
  - intros H. assert (Hf : Headers.failed c = true).
    { destruct (Headers.failed c); [done|]. exfalso. by apply H, Hpass. }
    rewrite Hs, Hp, Hf. split; [by apply Hl|f_equal; lia].
Qed.

Lemma referrer_policy_passes_on_substring_witness :
  let h := Headers.extractHeaders (Example.response Example.downgradeHeaders) in
  let r := Headers.checkHeaders Example.unreachable "https://example.com/"
             (Example.context Example.downgradeHeaders) in
  h !! "referrer-policy" = Some (HStr "no-referrer-when-downgrade") /\
  ~ In "no-referrer-when-downgrade" policyNames /\
  ~ In "Missing Referrer-Policy header." (warnings r) /\
  score r = 25 - (5 + 5 + 4 + 3 + 4).
Proof.
  cbn zeta. split_and!.
  - reflexivity.
  - intros [H|[H|[H|[]]]]; discriminate H.
  - refine (proj1 (proj1 (proj2
      (referrer_policy_passes_on_substring Example.unreachable
         "https://example.com/" (Example.context Example.downgradeHeaders)
         (Example.response Example.downgradeHeaders) None eq_refl)) _)).
    split; [reflexivity|].
    exists "no-referrer-when-downgrade". split; [reflexivity|].
    left. by exists "", "-when-downgrade".
  - reflexivity.
Defined.

(* ===================================================================== *)
(** ** TLS *)
(* ===================================================================== *)

Lemma remove_first_scheme scheme :
  colon_free scheme -> remove_first ":" (scheme ++ ":") = scheme.
Proof.
  unfold colon_free. induction scheme as [|c scheme IH]; simpl; [done|].
  intros H. destruct (Ascii.eqb_spec c ":") as [->|Hne]; [tauto|].
  f_equal. apply IH. tauto.
Qed.

(** C9. For a URL whose scheme is not https the TLS check answers at
    once, without opening a connection: score 0, the warning that the
    site does not use HTTPS, and the scheme in the details. *)
Theorem plain_http_is_not_inspected
    URL_parse Date_parse toISOString now targetUrl parsedUrl :
  URL_parse targetUrl = Some parsedUrl ->
  protocol parsedUrl <> "https:" ->
  let p := Tls.checkTLS URL_parse Date_parse toISOString now targetUrl in
  Tls.connections p = [] /\
  forall network,
    let r := Tls.run network p in
    score r = 0 /\
    passed r = false /\
    warnings r = ["Site does not use HTTPS; TLS certificate was not evaluated."] /\
    details r = [("protocol", Str (remove_first ":" (protocol parsedUrl)))] /\
    forall scheme,
      protocol parsedUrl = scheme ++ ":" -> colon_free scheme ->
      get "protocol" (details r) = Str scheme.
Proof.
  intros Hu Hp p. unfold p, Tls.checkTLS. rewrite Hu.
  destruct (String.eqb_spec (protocol parsedUrl) "https:") as [E|_]; [done|].
  simpl. split; [done|]. intros network. split_and!; try reflexivity.
  intros scheme Hs Hc. rewrite Hs. simpl. by rewrite remove_first_scheme.
Qed.

Lemma plain_http_is_not_inspected_witness :
  let p := Tls.checkTLS Example.URL_parse Example.Date_parse Example.toISOString
             Example.now "http://example.com/" in
  Tls.connections p = [] /\
  get "protocol" (details (Tls.run (Example.network None) p)) = Str "http".
Proof.
  pose proof (plain_http_is_not_inspected Example.URL_parse Example.Date_parse
    Example.toISOString Example.now "http://example.com/" Example.plain
    eq_refl) as H.
  cbn zeta in H. destruct H as [Hc Hr]; [discriminate|].
  split; [exact Hc|].
  apply (Hr (Example.network None)); [reflexivity|].
  unfold colon_free. simpl. intros H. repeat (destruct H as [H|H]; [discriminate H|]).
  exact H.
Defined.

(** An https URL, by contrast, is inspected over one connection to its
    host and port. *)
Lemma https_is_inspected
    URL_parse Date_parse toISOString now targetUrl parsedUrl :
  URL_parse targetUrl = Some parsedUrl ->
  protocol parsedUrl = "https:" ->
  Tls.connections (Tls.checkTLS URL_parse Date_parse toISOString now targetUrl)
    = [(hostname parsedUrl, Tls.portOf parsedUrl)].
Proof.
  intros Hu Hp. unfold Tls.checkTLS. by rewrite Hu, Hp.
Qed.

Section TlsSteps.

Variable Date_parse : string -> option Z.
Variable toISOString : Z -> string.
Variable now : Z.

Lemma protocolStep_score protocol l :
  l_score (Tls.protocolStep protocol l) = l_score l - protocolPenalty protocol.
Proof.
  unfold Tls.protocolStep, protocolPenalty.
  destruct protocol as [p|]; [|simpl; lia].
  destruct (nonempty p); [|simpl; lia].
  destruct (negb _); simpl; lia.
Qed.

Lemma issuerStep_score c l :
  l_score (Tls.issuerStep c l) = l_score l - issuerPenalty c.
Proof.
  unfold Tls.issuerStep, issuerPenalty.
  destruct (Tls.formatName _); simpl; lia.
Qed.

Lemma subjectStep_score c l : l_score (Tls.subjectStep c l) = l_score l.
Proof. unfold Tls.subjectStep. by destruct (Tls.formatName _). Qed.

Lemma serialStep_score c l : l_score (Tls.serialStep c l) = l_score l.
Proof.
  unfold Tls.serialStep. destruct (Tls.serialNumber c) as [s|]; [|done].
  by destruct (nonempty s).
Qed.

Lemma validFromStep_score c l :
  l_score (Tls.validFromStep Date_parse toISOString c l) = l_score l.
Proof.
  unfold Tls.validFromStep. destruct (Tls.valid_from c) as [s|]; [|done].
  destruct (nonempty s); [|done]. by destruct (Date_parse s).
Qed.

Lemma sanStep_score host c l :
  l_score (Tls.sanStep host c l) = l_score l - sanPenalty host c.
Proof.
  unfold Tls.sanStep, sanPenalty, truthy_str.
  destruct (Tls.subjectaltname c) as [san|]; [|simpl; lia].
  destruct (nonempty san); [|simpl; lia]. simpl.
  destruct (Tls.sanEntries san) as [|e es]; [simpl; lia|].
  rewrite bool_decide_eq_false_2 by done. simpl.
  destruct (negb _); simpl; lia.
Qed.

Lemma sanStep_warnings host c l w :
  In w (l_warnings l) -> In w (l_warnings (Tls.sanStep host c l)).
Proof.
  intros H. unfold Tls.sanStep. destruct (truthy_str _); [|done].
  destruct (Tls.sanEntries _); [done|].
  destruct (negb _); simpl; [|done]. apply in_or_app. by left.
Qed.

Lemma validToStep_score c l :
  l_score (Tls.validToStep Date_parse toISOString now c l) =
    match expiryOf Date_parse now c with
    | ExpiresIn d => if d <? 0 then 0 else l_score l - expiryBracket d
    | ExpiryUnparsable => l_score l - 4
    | ExpiryMissing => l_score l - 6
    end.
Proof.
  unfold Tls.validToStep, expiryOf, truthy_str.
  destruct (Tls.valid_to c) as [s|]; [|done].
  destruct (nonempty s); [|done]. simpl.
  destruct (Date_parse s) as [t|]; [|done].
  change (1000 * 60 * 60 * 24) with 86400000.
  unfold Tls.expiryBrackets, expiryBracket.
  destruct (_ <? 0); [done|].
  repeat (destruct (_ <=? _); [simpl; lia|]). simpl. lia.
Qed.

Lemma validToStep_expired c l d :
  expiryOf Date_parse now c = ExpiresIn d -> d < 0 ->
  In "Certificate is expired."
     (l_warnings (Tls.validToStep Date_parse toISOString now c l)).
Proof.
  unfold Tls.validToStep, expiryOf, truthy_str.
  destruct (Tls.valid_to c) as [s|]; [|done].
  destruct (nonempty s); [|done]. simpl.
  destruct (Date_parse s) as [t|]; [|done].
  change (1000 * 60 * 60 * 24) with 86400000.
  intros [= <-] Hd. unfold Tls.expiryBrackets.
  destruct (Z.ltb_spec ((t - now) / 86400000) 0); [|lia].
  simpl. apply in_or_app. right. by left.
Qed.

End TlsSteps.

(** C6. With a readable certificate: an expired one (negative days
    until expiry) ends with score 0 and the warning 'Certificate is
    expired.'; otherwise exactly one expiry penalty applies: 12 within
    7 days, 8 within 30, 3 within 90, none beyond, 4 for an unparsable
    date and 6 for a missing one. *)
Theorem certificate_expiry_penalties
    URL_parse Date_parse toISOString now network targetUrl parsedUrl cert negotiated :
  URL_parse targetUrl = Some parsedUrl ->
  protocol parsedUrl = "https:" ->
  network (hostname parsedUrl) (Tls.portOf parsedUrl)
    = Tls.OnSecureConnect (Tls.PeerInfo (Some cert) negotiated) ->
  let r := Tls.run network
             (Tls.checkTLS URL_parse Date_parse toISOString now targetUrl) in
  let rest := 25 - protocolPenalty negotiated - issuerPenalty cert
                 - sanPenalty (hostname parsedUrl) cert in
  match expiryOf Date_parse now cert with
  | ExpiresIn days =>
      (days < 0 -> score r = 0 /\ In "Certificate is expired." (warnings r)) /\
      (0 <= days <= 7 -> score r = clamp (rest - 12)) /\
      (7 < days <= 30 -> score r = clamp (rest - 8)) /\
      (30 < days <= 90 -> score r = clamp (rest - 3)) /\
      (90 < days -> score r = clamp rest)
  | ExpiryUnparsable => score r = clamp (rest - 4)
  | ExpiryMissing => score r = clamp (rest - 6)
  end.
Proof.
  intros Hu Hp Hn r rest.
  assert (Hr : r = Tls.onSecureConnect Date_parse toISOString now
                     (hostname parsedUrl) (Tls.portOf parsedUrl)
                     (Tls.PeerInfo (Some cert) negotiated)).
  { unfold r, Tls.checkTLS. rewrite Hu, Hp. simpl. by rewrite Hn. }
  assert (Hpp : 0 <= protocolPenalty negotiated <= 10).
  { unfold protocolPenalty. destruct negotiated as [p|]; [|lia].
    destruct (_ && _); lia. }
  assert (Hip : 0 <= issuerPenalty cert <= 3).
  { unfold issuerPenalty. destruct (Tls.formatName _); lia. }
  assert (Hsp : 0 <= sanPenalty (hostname parsedUrl) cert <= 5).
  { unfold sanPenalty. destruct (Tls.subjectaltname cert); [|lia].
    destruct (_ && _); lia. }
  assert (Hs : score r =
    clamp (match expiryOf Date_parse now cert with
           | ExpiresIn d =>
               if d <? 0 then 0 - sanPenalty (hostname parsedUrl) cert
               else rest - expiryBracket d
           | ExpiryUnparsable => rest - 4
           | ExpiryMissing => rest - 6
           end)).
  { rewrite Hr. unfold Tls.onSecureConnect, Tls.inspect, Tls.finalizeResult.
    rewrite finalize_score. f_equal.
    rewrite sanStep_score, validToStep_score, validFromStep_score,
      serialStep_score, subjectStep_score, issuerStep_score, protocolStep_score.
    unfold rest, Tls.MAX_SCORE. cbn [l_score].
    destruct (expiryOf Date_parse now cert) as [| |d]; [lia..|].
    destruct (d <? 0); lia. }
  destruct (expiryOf Date_parse now cert) as [| |d] eqn:He; [exact Hs..|].
  unfold expiryBracket in Hs. split_and!; intros Hd.
  - destruct (Z.ltb_spec d 0); [|lia]. split; [rewrite Hs; unfold clamp; lia|].
    rewrite Hr. unfold Tls.onSecureConnect, Tls.inspect, Tls.finalizeResult, finalize.
    cbn [warnings]. apply sanStep_warnings. by eapply validToStep_expired.
  - rewrite Hs. destruct (Z.ltb_spec d 0); [lia|].
    destruct (Z.leb_spec d 7); [f_equal; lia|lia].
  - rewrite Hs. destruct (Z.ltb_spec d 0); [lia|].
    destruct (Z.leb_spec d 7); [lia|].
    destruct (Z.leb_spec d 30); [f_equal; lia|lia].
  - rewrite Hs. destruct (Z.ltb_spec d 0); [lia|].
    destruct (Z.leb_spec d 7); [lia|].
    destruct (Z.leb_spec d 30); [lia|].
    destruct (Z.leb_spec d 90); [f_equal; lia|lia].
  - rewrite Hs. destruct (Z.ltb_spec d 0); [lia|].
    destruct (Z.leb_spec d 7); [lia|].
    destruct (Z.leb_spec d 30); [lia|].
    destruct (Z.leb_spec d 90); [lia|f_equal; lia].
Qed.

Lemma certificate_expiry_penalties_witness :
  let r := Tls.run (Example.network (Some "Nov  1 00:00:00 2026 GMT"))
             (Tls.checkTLS Example.URL_parse Example.Date_parse
                Example.toISOString Example.now "https://example.com/") in
  score r = 0 /\ In "Certificate is expired." (warnings r).
Proof.
  pose proof (certificate_expiry_penalties Example.URL_parse Example.Date_parse
    Example.toISOString Example.now
    (Example.network (Some "Nov  1 00:00:00 2026 GMT")) "https://example.com/"
    Example.site (Example.certificate (Some "Nov  1 00:00:00 2026 GMT"))
    (Some "TLSv1.3") eq_refl eq_refl eq_refl) as H.
  cbn zeta in H.
  change (expiryOf Example.Date_parse Example.now
            (Example.certificate (Some "Nov  1 00:00:00 2026 GMT")))
    with (ExpiresIn (-1)) in H.
  apply H. lia.
Defined.

(* ===================================================================== *)
(** ** WHOIS *)
(* ===================================================================== *)

Section WhoisSteps.

Variable Date_parse : string -> option Z.
Variable toISOString : Z -> string.
Variable now : Z.

Lemma creationStep_score created l :
  l_score (Whois.creationStep toISOString now created l)
    = l_score l - agePenalty now created.
Proof.
  unfold Whois.creationStep, agePenalty, Whois.DAY_IN_MS.
  change (1000 * 60 * 60 * 24) with 86400000.
  destruct created as [t|]; [|simpl; lia].
  repeat (destruct (_ <? _); [simpl; lia|]). simpl. lia.
Qed.

Lemma expiryStep_score expiry l :
  l_score (Whois.expiryStep toISOString now expiry l)
    = l_score l - expiryPenalty now expiry.
Proof.
  unfold Whois.expiryStep, expiryPenalty, Whois.DAY_IN_MS.
  change (1000 * 60 * 60 * 24) with 86400000.
  destruct expiry as [t|]; [|simpl; lia].
  repeat (destruct (_ <=? _); [simpl; lia|]). simpl. lia.
Qed.

Lemma registrarStep_score registrar l :
  l_score (Whois.registrarStep registrar l)
    = l_score l - registrarPenalty registrar.
Proof.
  unfold Whois.registrarStep, registrarPenalty.
  destruct (truthy registrar); simpl; lia.
Qed.

Lemma truthy_or_undefined v : truthy (Whois.or_undefined v) = truthy v.
Proof. unfold Whois.or_undefined. by destruct (truthy v) eqn:E. Qed.

(** An unparsable date string is an absent date. *)
Lemma parseDate_unparsable s :
  Date_parse (trim s) = None ->
  Whois.parseDate Date_parse (Str s) = Whois.parseDate Date_parse Undefined.
Proof.
  intros H. unfold Whois.parseDate. simpl. rewrite H. by destruct (negb _).
Qed.

Lemma step_warnings_grow (f : Locals -> Locals) w l :
  (forall l', exists ws, l_warnings (f l') = (l_warnings l' ++ ws)%list) ->
  In w (l_warnings l) -> In w (l_warnings (f l)).
Proof.
  intros Hf Hin. destruct (Hf l) as [ws ->]. apply in_or_app. by left.
Qed.

Lemma expiryStep_grows expiry l :
  exists ws, l_warnings (Whois.expiryStep toISOString now expiry l)
             = (l_warnings l ++ ws)%list.
Proof.
  unfold Whois.expiryStep. destruct expiry as [t|]; [|simpl; eauto].
  repeat (destruct (_ <=? _); [simpl; eauto|]). simpl.
  exists []. by rewrite app_nil_r.
Qed.

Lemma registrarStep_grows registrar l :
  exists ws, l_warnings (Whois.registrarStep registrar l)
             = (l_warnings l ++ ws)%list.
Proof.
  unfold Whois.registrarStep. destruct (negb _); simpl; [eauto|].
  exists []. by rewrite app_nil_r.
Qed.

End WhoisSteps.

(** C7. On a successful lookup with a non-empty record the score is 25
    minus: 12 for a domain younger than 30 days, else 6 under 180 days,
    6 when the creation date is unknown or unparsable; 10 when the days
    until expiry are at most 0, else 6 when at most 30, 5 when the
    expiry date is unknown or unparsable; 3 when the registrar is
    missing; clamped to 0..25.  An unparsable date string is treated as
    an absent field. *)
Theorem whois_score_penalties
    URL_parse psl_domain whois Date_parse toISOString now targetUrl
    parsedUrl domain record :
  URL_parse targetUrl = Some parsedUrl ->
  psl_domain (hostname parsedUrl) = Some domain ->
  domain <> "" ->
  whois domain = Whois.WhoisRecord (Some record) ->
  record <> [] ->
  let normalized := Whois.normalizeRecord record in
  let creationDate :=
    Whois.parseDate Date_parse (Whois.pickValue normalized Whois.creationAliases) in
  let expiryDate :=
    Whois.parseDate Date_parse (Whois.pickValue normalized Whois.expiryAliases) in
  let registrar := Whois.pickValue normalized Whois.registrarAliases in
  let r := Whois.checkWhois URL_parse psl_domain whois Date_parse toISOString
             now targetUrl in
  let age d := (now - d) / 86400000 in
  let left d := (d - now) / 86400000 in
  let p1 := match creationDate with
            | Some d => if age d <? 30 then 12 else if age d <? 180 then 6 else 0
            | None => 6
            end in
  let p2 := match expiryDate with
            | Some d => if left d <=? 0 then 10 else if left d <=? 30 then 6 else 0
            | None => 5
            end in
  let p3 := if truthy registrar then 0 else 3 in
  score r = Z.max 0 (Z.min 25 (25 - p1 - p2 - p3)) /\
  score r = 25 - p1 - p2 - p3 /\
  (forall s, Date_parse (trim s) = None ->
     Whois.parseDate Date_parse (Str s) = None /\
     Whois.parseDate Date_parse Undefined = None) /\
  (creationDate = None ->
     In "Unable to determine domain creation date." (warnings r)) /\
  (expiryDate = None ->
     In "Unable to determine domain expiry date." (warnings r)) /\
  (truthy registrar = false ->
     In "Registrar information is missing." (warnings r)).
Proof.
  intros Hu Hd Hne Hw Hr normalized creationDate expiryDate registrar r age left p1 p2 p3.
  assert (Er : r = Whois.scoreRecord Date_parse toISOString now domain record).
  { unfold r, Whois.checkWhois. rewrite Hu, Hd. unfold truthy_str, nonempty.
    destruct (String.eqb_spec domain ""); [done|]. simpl. rewrite Hw.
    by destruct record. }
  assert (Es : score r = clamp (25 - p1 - p2 - p3)).
  { rewrite Er. unfold Whois.scoreRecord, Whois.finalizeResult.
    rewrite finalize_score. f_equal.
    rewrite registrarStep_score, expiryStep_score, creationStep_score.
    cbn [l_score]. unfold registrarPenalty. rewrite truthy_or_undefined.
    reflexivity. }
  assert (B1 : 0 <= p1 <= 12).
  { unfold p1. destruct creationDate; [|lia]. repeat destruct (_ <? _); lia. }
  assert (B2 : 0 <= p2 <= 10).
  { unfold p2. destruct expiryDate; [|lia]. repeat destruct (_ <=? _); lia. }
  assert (B3 : 0 <= p3 <= 3) by (unfold p3; destruct (truthy registrar); lia).
  split_and!.
  - exact Es.
  - rewrite Es. unfold clamp. lia.
  - intros s Hs. split; [|reflexivity]. by rewrite parseDate_unparsable.
  - intros Hc. rewrite Er. unfold Whois.scoreRecord, Whois.finalizeResult, finalize.
    cbn [warnings]. fold normalized. fold creationDate. rewrite Hc.
    apply step_warnings_grow; [apply registrarStep_grows|].
    apply step_warnings_grow; [apply expiryStep_grows|].
    simpl. by left.
  - intros He. rewrite Er. unfold Whois.scoreRecord, Whois.finalizeResult, finalize.
    cbn [warnings]. fold normalized. fold expiryDate. rewrite He.
    apply step_warnings_grow; [apply registrarStep_grows|].
    simpl. apply in_or_app. right. by left.
  - intros Ht. rewrite Er. unfold Whois.scoreRecord, Whois.finalizeResult, finalize.
    cbn [warnings]. fold normalized. fold registrar.
    unfold Whois.registrarStep. rewrite truthy_or_undefined, Ht. simpl.
    apply in_or_app. right. by left.
Qed.

Lemma whois_score_penalties_witness :
  score (Whois.checkWhois Example.URL_parse Example.psl_domain Example.whois
           Example.Date_parse Example.toISOString Example.now
           "https://example.com/") = 25.
Proof.
  exact (proj1 (proj2 (whois_score_penalties Example.URL_parse
    Example.psl_domain Example.whois Example.Date_parse Example.toISOString
    Example.now "https://example.com/" Example.site "example.com"
    Example.whoisRecord eq_refl eq_refl ltac:(discriminate) eq_refl
    ltac:(discriminate)))).
Defined.

(* ===================================================================== *)
(** ** More on the handler *)
(* ===================================================================== *)

Lemma fold_fill_untouched {A : Type} (ps : list (settled A)) order slots i :
  i ∉ order -> fold_left (Server.fill ps) order slots !! i = slots !! i.
Proof.
  revert slots. induction order as [|j order IH]; intros slots Hi; simpl; [done|].
  apply not_elem_of_cons in Hi as [Hne Hi]. rewrite IH by done.
  unfold Server.fill. destruct (ps !! j); [|done].
  by rewrite list_lookup_insert_ne.
Qed.

(** [allSettled] delivers exactly when every promise has completed. *)
Lemma allSettled_delivers {A : Type} (ps : list (settled A)) order :
  is_Some (Server.allSettled ps order) <->
  forall i, (i < length ps)%nat -> i ∈ order.
Proof.
  split.
  - intros [rs H] i Hi. destruct (decide (i ∈ order)) as [|Hn]; [done|exfalso].
    pose proof H as H'. apply allSettled_inv in H' as ->.
    unfold Server.allSettled in H. apply delivered_Some in H.
    apply (f_equal (fun l => l !! i)) in H.
    unfold Server.settle in H. rewrite fold_fill_untouched in H by done.
    rewrite lookup_replicate_2 in H by done. rewrite list_lookup_fmap in H.
    destruct (lookup_lt_is_Some_2 ps i Hi) as [r Hr]. rewrite Hr in H. discriminate.
  - intros H. rewrite allSettled_complete by done. eauto.
Qed.

Lemma aggregate_body toISOString now order tasks s r e body :
  Server.aggregate toISOString now order tasks s r e
    = Some (Server.Status200 body) ->
  Server.url body = s /\
  Server.fetchedAt body = toISOString now /\
  Server.h_status (Server.http body) = r ≫= status /\
  Server.h_finalUrl (Server.http body)
    = match r with Some r => finalUrl r s | None => s end /\
  Server.h_error (Server.http body)
    = match e, r with Some e, None => message e | _, _ => None end.
Proof.
  unfold Server.aggregate.
  destruct (Server.allSettled _ _); [|discriminate].
  destruct (Server.mapi _ _ _); [|discriminate]. by intros [= <-].
Qed.

Section HandlerMore.

Variable URL_parse : string -> option URL.
Variable Date_parse : string -> option Z.
Variable toISOString : Z -> string.
Variable now : Z.
Variable fetch headers_get cookies_get : string -> AxiosOutcome.
Variable network : string -> Z -> Tls.SocketEvent.
Variable parse : option HeaderValue -> list Cookies.Cookie.
Variable psl_domain : string -> option string.
Variable whois : string -> Whois.WhoisOutcome.
Variable order : list nat.

#[local] Abbreviation check :=
  (Server.check URL_parse Date_parse toISOString now fetch headers_get
     cookies_get network parse psl_domain whois order).

Lemma valid_protocol parsedUrl :
  (protocol parsedUrl = "http:" \/ protocol parsedUrl = "https:") <->
  existsb (String.eqb (protocol parsedUrl)) ["http:"; "https:"] = true.
Proof.
  simpl. rewrite !orb_true_iff, !String.eqb_eq. intuition discriminate.
Qed.

(** X1. Validation.  The handler answers with status 400 exactly for
    a request that fails one of its three tests, with the message of
    the first test it fails: a missing or empty url, a text that is not
    a URL, a scheme other than http and https.  Such a request is
    answered at once: the reply is the same whatever the fetch, the
    four checks and the promises would do.  A reply with status 200 is
    only sent for a request that passes the three tests, and carries
    the normalised URL. *)
Theorem validation_rejects_with_400 url :
  (forall error,
     check url = Some (Server.Status400 error) <->
     (truthy_str url = false /\
      error = "Please provide a url in the request body.") \/
     (truthy_str url = true /\ URL_parse (default "" url) = None /\
      error = "The provided URL is not valid.") \/
     (exists parsedUrl,
        truthy_str url = true /\
        URL_parse (default "" url) = Some parsedUrl /\
        protocol parsedUrl <> "http:" /\ protocol parsedUrl <> "https:" /\
        error = "Only HTTP and HTTPS URLs can be checked by this service.")) /\
  (forall error Date_parse' toISOString' now' fetch' headers_get' cookies_get'
          network' parse' psl_domain' whois' order',
     check url = Some (Server.Status400 error) ->
     Server.check URL_parse Date_parse' toISOString' now' fetch' headers_get'
       cookies_get' network' parse' psl_domain' whois' order' url
     = Some (Server.Status400 error)) /\
  (forall body,
     check url = Some (Server.Status200 body) ->
     exists parsedUrl,
       valid URL_parse url parsedUrl /\ Server.url body = href parsedUrl).
Proof.
  assert (Hrej : forall Date_parse' toISOString' now' fetch' headers_get'
                        cookies_get' network' parse' psl_domain' whois' order'
                        error,
    Server.check URL_parse Date_parse' toISOString' now' fetch' headers_get'
      cookies_get' network' parse' psl_domain' whois' order' url
    = Some (Server.Status400 error) <->
    (truthy_str url = false /\
     error = "Please provide a url in the request body.") \/
    (truthy_str url = true /\ URL_parse (default "" url) = None /\
     error = "The provided URL is not valid.") \/
    (exists parsedUrl,
       truthy_str url = true /\
       URL_parse (default "" url) = Some parsedUrl /\
       protocol parsedUrl <> "http:" /\ protocol parsedUrl <> "https:" /\
       error = "Only HTTP and HTTPS URLs can be checked by this service.")).
  { intros D T N F Hg Cg Nw Pa Ps Wh Or error. unfold Server.check.
    destruct (truthy_str url) eqn:Hu; cbn [negb].
    2:{ split.
        - intros [= <-]. by left.
        - intros [[_ ->]|[(? & _)|(? & ? & _)]]; done. }
    destruct (URL_parse (default "" url)) as [u|] eqn:Hp.
    2:{ split.
        - intros [= <-]. right. by left.
        - intros [[? _]|[(_ & _ & ->)|(? & _ & ? & _)]]; done. }
    destruct (existsb (String.eqb (protocol u)) ["http:"; "https:"]) eqn:Hs;
      cbn [negb].
    - apply valid_protocol in Hs. split.
      + destruct (Server.fetchSiteResponse _ _) as [r e]. intros H.
        apply aggregate_inv in H as (body & [=] & _). apply tasks_described.
      + intros [[? _]|[(_ & ? & _)|(u' & _ & [= <-] & H1 & H2 & _)]];
          [done..|]. by destruct Hs.
    - split.
      + intros [= <-]. right. right. exists u. split_and!; try done.
        * intros E. rewrite E in Hs. discriminate.
        * intros E. rewrite E in Hs. discriminate.
      + intros [[? _]|[(_ & ? & _)|(u' & _ & _ & _ & _ & ->)]]; done. }
  split_and!.
  - intros error. apply Hrej.
  - intros error D T N F Hg Cg Nw Pa Ps Wh Or H. apply Hrej. by apply Hrej in H.
  - intros body. unfold Server.check.
    destruct (truthy_str url) eqn:Hu; [|discriminate]. cbn [negb].
    destruct (URL_parse _) as [u|] eqn:Hp; [|discriminate].
    destruct (existsb (String.eqb (protocol u)) ["http:"; "https:"]) eqn:Hs;
      [|discriminate]. cbn [negb].
    destruct (Server.fetchSiteResponse _ _) as [r e]. intros H. pose proof H as H'.
    apply aggregate_inv in H as (body' & [= <-] & _); [|apply tasks_described].
    exists u. split; [by split_and!; [| |apply valid_protocol]|].
    clear -H'. revert H'. unfold Server.aggregate.
    destruct (Server.allSettled _ _); [|discriminate].
    destruct (Server.mapi _ _ _); [|discriminate]. by intros [= <-].
Qed.

(** X2. The [http] field of a reply.  Whenever the shared fetch has
    a response, also one that came with an error, the status is the
    status of the response, the final URL is the URL the response was
    redirected to, or else the URL of its request, or else the URL
    checked, and no error is reported; the error message is reported
    only when no response was obtained, with no status and the URL
    checked as final URL. *)
Theorem http_field_reports_the_fetch url body :
  check url = Some (Server.Status200 body) ->
  exists parsedUrl,
    valid URL_parse url parsedUrl /\
    let s := href parsedUrl in
    let h := Server.http body in
    match fetch s with
    | AxiosResponse r | AxiosError _ (Some r) =>
        Server.h_status h = status r /\
        Server.h_error h = None /\
        (forall u, responseUrl r = Some u -> u <> "" ->
           Server.h_finalUrl h = u) /\
        (truthy_str (responseUrl r) = false ->
         forall u, configUrl r = Some u -> u <> "" ->
           Server.h_finalUrl h = u) /\
        (truthy_str (responseUrl r) = false ->
         truthy_str (configUrl r) = false ->
           Server.h_finalUrl h = s)
    | AxiosError error None =>
        Server.h_status h = None /\
        Server.h_finalUrl h = s /\
        Server.h_error h = message error
    end.
Proof.
  assert (Hfinal : forall r s f,
    f = finalUrl r s ->
    (forall u, responseUrl r = Some u -> u <> "" -> f = u) /\
    (truthy_str (responseUrl r) = false ->
     forall u, configUrl r = Some u -> u <> "" -> f = u) /\
    (truthy_str (responseUrl r) = false ->
     truthy_str (configUrl r) = false -> f = s)).
  { intros r s f ->. unfold finalUrl, or_else, truthy_str, nonempty.
    split_and!.
    - intros u -> Hne. by destruct (String.eqb_spec u "").
    - intros H u -> Hne. destruct (responseUrl r) as [u'|].
      + rewrite H. by destruct (String.eqb_spec u "").
      + by destruct (String.eqb_spec u "").
    - intros H1 H2. destruct (responseUrl r) as [u'|]; rewrite ?H1;
        destruct (configUrl r) as [u''|]; by rewrite ?H2. }
  unfold Server.check.
  destruct (truthy_str url) eqn:Hu; [|discriminate]. cbn [negb].
  destruct (URL_parse _) as [u|] eqn:Hp; [|discriminate].
  destruct (existsb (String.eqb (protocol u)) ["http:"; "https:"]) eqn:Hs;
    [|discriminate]. cbn [negb].
  unfold Server.fetchSiteResponse. intros H. exists u.
  split; [by split_and!; [| |apply valid_protocol]|]. cbn zeta.
  destruct (fetch (href u)) as [r|error [r|]];
    apply aggregate_body in H as (_ & _ & H1 & H2 & H3);
    rewrite ?H1, ?H3; try (by rewrite H2);
    (split; [done|split; [done|by apply Hfinal]]).
Qed.

(** X3. A valid request is answered exactly when each of the four
    promises has settled: the reply waits for all of them, and repeated
    or foreign completions do no harm. *)
Theorem reply_waits_for_all_promises url parsedUrl :
  valid URL_parse url parsedUrl ->
  is_Some (check url) <-> forall i, (i < 4)%nat -> i ∈ order.
Proof.
  intros Hv. rewrite (check_valid _ _ _ _ _ _ _ _ _ _ _ _ _ _ Hv). cbn zeta.
  unfold Server.aggregate.
  match goal with |- context [Server.allSettled ?ps order] =>
    pose proof (allSettled_delivers ps order) as Hd end.
  cbn [length map Server.tasks] in Hd.
  destruct (Server.allSettled _ _) as [rs|] eqn:E.
  - apply allSettled_inv in E as ->. rewrite mapi_tasks by apply tasks_described.
    split; [intros _; apply Hd; eauto|eauto].
  - split; [by intros [? [=]]|]. intros H. apply Hd in H. by destruct H as [? [=]].
Qed.

(** X5. When the shared fetch has obtained a response, the header and
    the cookie checks work on it and make no request of their own: the
    reply does not depend on what their requests would return. *)
Theorem shared_response_is_reused url parsedUrl response headers_get' cookies_get' :
  valid URL_parse url parsedUrl ->
  ctx_response (contextOf fetch parsedUrl) = Some response ->
  check url =
    Server.check URL_parse Date_parse toISOString now fetch headers_get'
      cookies_get' network parse psl_domain whois order url.
Proof.
  intros Hv Hr.
  rewrite (check_valid _ _ _ _ _ _ _ _ _ _ _ _ _ _ Hv).
  rewrite (check_valid URL_parse Date_parse toISOString now fetch headers_get'
             cookies_get' network parse psl_domain whois order _ _ Hv).
  cbn zeta.
  assert (Hh : Headers.checkHeaders headers_get (href parsedUrl)
                 (contextOf fetch parsedUrl)
               = Headers.checkHeaders headers_get' (href parsedUrl)
                   (contextOf fetch parsedUrl)).
  { unfold Headers.checkHeaders, Headers.obtain. by rewrite Hr. }
  assert (Hc : Cookies.checkCookies cookies_get parse toISOString
                 (href parsedUrl) (contextOf fetch parsedUrl)
               = Cookies.checkCookies cookies_get' parse toISOString
                   (href parsedUrl) (contextOf fetch parsedUrl)).
  { unfold Cookies.checkCookies, Cookies.obtain. by rewrite Hr. }
  by rewrite Hh, Hc.
Qed.

End HandlerMore.

Lemma validation_rejects_with_400_witness :
  Example.check [] [] None
    = Some (Server.Status400 "Please provide a url in the request body.") /\
  Example.check [] [] (Some "not a url")
    = Some (Server.Status400 "The provided URL is not valid.") /\
  Example.check [] [] (Some "ftp://example.com/")
    = Some (Server.Status400
              "Only HTTP and HTTPS URLs can be checked by this service.").
Proof.
  pose proof (fun url error =>
    proj2 (proj1 (validation_rejects_with_400 Example.URL_parse
      Example.Date_parse Example.toISOString Example.now
      (fun _ => AxiosResponse (Example.response [])) Example.unreachable
      Example.unreachable (Example.network (Some "Jan  1 00:00:00 2030 GMT"))
      Example.parse Example.psl_domain Example.whois [] url) error)) as H.
  split_and!; apply H.
  - by left.
  - right. by left.
  - right. right. exists Example.ftp. by split_and!.
Defined.

Lemma http_field_reports_the_fetch_witness :
  exists body,
    Server.check Example.URL_parse Example.Date_parse Example.toISOString
      Example.now (fun _ => AxiosResponse Example.redirected)
      Example.unreachable Example.unreachable
      (Example.network None) Example.parse Example.psl_domain Example.whois
      [0; 1; 2; 3]%nat (Some "https://example.com/")
      = Some (Server.Status200 body) /\
    Server.h_status (Server.http body) = Some 503 /\
    Server.h_finalUrl (Server.http body) = "https://www.example.com/" /\
    Server.h_error (Server.http body) = None.
Proof.
  destruct (Server.check _ _ _ _ _ _ _ _ _ _ _ _ _) as [[e|body]|] eqn:E;
    try (vm_compute in E; discriminate).
  exists body. split; [reflexivity|].
  destruct (http_field_reports_the_fetch _ _ _ _ _ _ _ _ _ _ _ _ _ _ E)
    as (u & (_ & Hu & _) & H).
  injection Hu as <-. cbn in H. destruct H as (H1 & H2 & H3 & _).
  split_and!; [exact H1|by apply H3|exact H2].
Defined.

Lemma reply_waits_for_all_promises_witness :
  is_Some (Example.check [] [3; 3; 0; 9; 2; 1]%nat (Some "https://example.com/")).
Proof.
  assert (Hv : valid Example.URL_parse (Some "https://example.com/") Example.site)
    by (split_and!; [reflexivity|reflexivity|by right]).
  apply (proj2 (reply_waits_for_all_promises Example.URL_parse
    Example.Date_parse Example.toISOString Example.now
    (fun _ => AxiosResponse (Example.response [])) Example.unreachable
    Example.unreachable (Example.network (Some "Jan  1 00:00:00 2030 GMT"))
    Example.parse Example.psl_domain Example.whois [3; 3; 0; 9; 2; 1]%nat
    (Some "https://example.com/") Example.site Hv)).
  intros i Hi. apply (bool_decide_unpack _).
  destruct i as [|[|[|[|i]]]]; [vm_compute; exact I..|lia].
Defined.

Lemma shared_response_is_reused_witness :
  Example.check Example.secureHeaders [0; 1; 2; 3]%nat (Some "https://example.com/")
  = Server.check Example.URL_parse Example.Date_parse Example.toISOString
      Example.now (fun _ => AxiosResponse (Example.response Example.secureHeaders))
      (fun _ => AxiosResponse (Example.response []))
      (fun _ => AxiosResponse (Example.response Example.neverExpires))
      (Example.network (Some "Jan  1 00:00:00 2030 GMT")) Example.parse
      Example.psl_domain Example.whois [0; 1; 2; 3]%nat
      (Some "https://example.com/").
Proof.
  apply (shared_response_is_reused _ _ _ _ _ _ _ _ _ _ _ _ _ Example.site
           (Example.response Example.secureHeaders)).
  - split_and!; [reflexivity|reflexivity|by right].
  - reflexivity.
Defined.

(* ===================================================================== *)
(** ** More on the TLS check *)
(* ===================================================================== *)

Lemma filter_Boolean_nonempty l s : In s (filter_Boolean l) -> s <> "".
Proof.
  unfold filter_Boolean. intros H. apply list_elem_of_In in H.
  apply list_elem_of_omap in H as (o & _ & Ho).
  destruct o as [x|]; [|discriminate].
  destruct (nonempty x) eqn:E; [|discriminate]. injection Ho as ->.
  unfold nonempty in E. intros ->. discriminate.
Qed.

Lemma filter_Boolean_nil l :
  filter_Boolean l = [] <->
  Forall (fun o => match o with Some s => s = "" | None => True end) l.
Proof.
  unfold filter_Boolean. induction l as [|o l IH]; simpl.
  - split; [constructor|done].
  - destruct o as [s|]; simpl.
    + unfold nonempty. destruct (String.eqb_spec s "") as [->|Hne]; simpl.
      * rewrite IH. split; [by constructor|by inversion 1].
      * split; [discriminate|]. inversion 1; subst. done.
    + rewrite IH. split; [by constructor|by inversion 1].
Qed.

Lemma join_nonempty sep x l : x <> "" -> join sep (x :: l) <> "".
Proof.
  unfold join. simpl. destruct l; [done|]. by destruct x.
Qed.

Lemma prop_In {A : Type} k (l : list (string * A)) v :
  prop k l = Some v -> In (k, v) l.
Proof.
  induction l as [|[k' v'] l IH]; simpl; [discriminate|].
  destruct (String.eqb_spec k k') as [->|_]; [intros [= ->]; by left|].
  intros H. right. by apply IH.
Qed.

(** X9. [formatName] yields nothing exactly when the name is missing or
    has no non-empty field at all, and never yields the empty string.
    So the check of the issuer takes its 3 points, with the warning and
    without a detail, in exactly that case; in every other case it
    takes nothing and records a non-empty issuer in the details. *)
Theorem formatName_needs_a_nonempty_field (entity : Tls.Name) :
  let nameless :=
    match entity with
    | None => True
    | Some fields => Forall (fun kv => snd kv = "") fields
    end in
  (Tls.formatName entity = None <-> nameless) /\
  (forall s, Tls.formatName entity = Some s -> s <> "") /\
  (forall c l, Tls.issuer c = entity ->
     let l' := Tls.issuerStep c l in
     (nameless ->
        l_score l' = l_score l - 3 /\
        l_warnings l' =
          (l_warnings l ++ ["Certificate issuer information is incomplete."])%list /\
        l_details l' = l_details l) /\
     (~ nameless ->
        l_score l' = l_score l /\
        l_warnings l' = l_warnings l /\
        exists s, s <> "" /\
          l_details l' = (l_details l ++ [("issuer", Str s)])%list)).
Proof.
  intros nameless.
  assert (H1 : Tls.formatName entity = None <-> nameless);
    [|assert (H2 : forall s, Tls.formatName entity = Some s -> s <> "");
      [|split_and!; [exact H1|exact H2|]]].
  - unfold nameless. destruct entity as [e|]; [|done]. unfold Tls.formatName.
    set (parts := filter_Boolean _).
    set (fallback := filter_Boolean (map _ e)).
    assert (Hf : fallback = [] <-> Forall (fun kv => snd kv = "") e).
    { unfold fallback. rewrite filter_Boolean_nil, Forall_map. done. }
    destruct parts as [|p ps] eqn:Hp.
    + destruct fallback; [by rewrite <- Hf|].
      split; [discriminate|]. intros H. by apply Hf in H.
    + split; [discriminate|]. intros H. exfalso.
      assert (Hin : In p parts) by (rewrite Hp; by left).
      pose proof (filter_Boolean_nonempty _ _ Hin) as Hne.
      unfold parts, filter_Boolean in Hin. apply list_elem_of_In in Hin.
      apply list_elem_of_omap in Hin as (o & Ho & Hs).
      apply list_elem_of_In, in_map_iff in Ho as (k & <- & _).
      destruct (prop k e) as [v|] eqn:Hk; [|discriminate].
      apply prop_In, list_elem_of_In in Hk. rewrite Forall_forall in H.
      specialize (H _ Hk). simpl in H. subst v. discriminate.
  - intros s. destruct entity as [e|]; [|discriminate]. unfold Tls.formatName.
    set (parts := filter_Boolean _).
    set (fallback := filter_Boolean (map _ e)).
    destruct parts as [|p ps] eqn:Hp.
    + destruct fallback as [|f fs] eqn:Hf; [discriminate|]. intros [= <-].
      apply join_nonempty, (filter_Boolean_nonempty (map (fun kv => Some (snd kv)) e)).
      fold fallback. rewrite Hf. by left.
    + intros [= <-]. apply join_nonempty.
      apply (filter_Boolean_nonempty
               (map (fun k => prop k e) ["CN"; "O"; "OU"])).
      fold parts. rewrite Hp. by left.
  - intros c l <- l'. unfold l', Tls.issuerStep. split.
    + intros Hn. apply H1 in Hn. by rewrite Hn.
    + intros Hn. destruct (Tls.formatName (Tls.issuer c)) as [s|] eqn:E.
      * split_and!; [done|done|]. exists s. split; [by apply H2|done].
      * exfalso. by apply Hn, H1.
Qed.

Section TlsMore.

Variable URL_parse : string -> option URL.
Variable Date_parse : string -> option Z.
Variable toISOString : Z -> string.
Variable now : Z.
Variable network : string -> Z -> Tls.SocketEvent.

#[local] Abbreviation checkTLS targetUrl :=
  (Tls.run network (Tls.checkTLS URL_parse Date_parse toISOString now targetUrl)).

Lemma checkTLS_connected targetUrl parsedUrl peer :
  URL_parse targetUrl = Some parsedUrl ->
  protocol parsedUrl = "https:" ->
  network (hostname parsedUrl) (Tls.portOf parsedUrl) = Tls.OnSecureConnect peer ->
  checkTLS targetUrl =
    Tls.onSecureConnect Date_parse toISOString now (hostname parsedUrl)
      (Tls.portOf parsedUrl) peer.
Proof.
  intros Hu Hp Hn. unfold Tls.checkTLS. rewrite Hu, Hp. simpl. by rewrite Hn.
Qed.

Lemma inspected_score host port cert negotiated :
  let rest := 25 - protocolPenalty negotiated - issuerPenalty cert
                 - sanPenalty host cert in
  score (Tls.onSecureConnect Date_parse toISOString now host port
           (Tls.PeerInfo (Some cert) negotiated)) =
    clamp (match expiryOf Date_parse now cert with
           | ExpiresIn d =>
               if d <? 0 then 0 - sanPenalty host cert
               else rest - expiryBracket d
           | ExpiryUnparsable => rest - 4
           | ExpiryMissing => rest - 6
           end).
Proof.
  intros rest. unfold Tls.onSecureConnect, Tls.inspect, Tls.finalizeResult.
  rewrite finalize_score. f_equal.
  rewrite sanStep_score, validToStep_score, validFromStep_score,
    serialStep_score, subjectStep_score, issuerStep_score, protocolStep_score.
  unfold rest, Tls.MAX_SCORE. cbn [l_score].
  destruct (expiryOf Date_parse now cert) as [| |d]; [lia..|].
  destruct (d <? 0); lia.
Qed.

Lemma penalty_ranges host cert negotiated :
  (protocolPenalty negotiated = 0 \/ protocolPenalty negotiated = 10) /\
  (issuerPenalty cert = 0 \/ issuerPenalty cert = 3) /\
  (sanPenalty host cert = 0 \/ sanPenalty host cert = 5).
Proof.
  unfold protocolPenalty, issuerPenalty, sanPenalty. split_and!.
  - destruct negotiated as [p|]; [|by left]. destruct (_ && _); auto.
  - destruct (Tls.formatName _); auto.
  - destruct (Tls.subjectaltname cert); [|by left]. destruct (_ && _); auto.
Qed.

Lemma passed_finalize K L s w d :
  passed (finalize K L 25 18 s w d) = true <-> 18 <= s.
Proof. unfold finalize. cbn [passed]. rewrite Z.leb_le. lia. Qed.

(** X6. When the handshake succeeds but the certificate cannot be read
    the score is 5, whatever protocol was negotiated (the protocol
    penalty disappears in the cap); when the inspection throws it is 10;
    neither passes. *)
Theorem unreadable_certificate_scores_5 targetUrl parsedUrl :
  URL_parse targetUrl = Some parsedUrl ->
  protocol parsedUrl = "https:" ->
  (forall negotiated,
     network (hostname parsedUrl) (Tls.portOf parsedUrl)
       = Tls.OnSecureConnect (Tls.PeerInfo None negotiated) ->
     score (checkTLS targetUrl) = 5 /\ passed (checkTLS targetUrl) = false /\
     In "Unable to read TLS certificate details." (warnings (checkTLS targetUrl))) /\
  (forall error,
     network (hostname parsedUrl) (Tls.portOf parsedUrl)
       = Tls.OnSecureConnect (Tls.PeerThrows error) ->
     score (checkTLS targetUrl) = 10 /\ passed (checkTLS targetUrl) = false /\
     warnings (checkTLS targetUrl) = ["TLS inspection failed."]).
Proof.
  intros Hu Hp. split.
  - intros negotiated Hn. rewrite (checkTLS_connected _ _ _ Hu Hp Hn).
    unfold Tls.onSecureConnect, Tls.inspect, Tls.finalizeResult, finalize.
    cbn [score passed warnings assign push l_score l_warnings].
    rewrite protocolStep_score. cbn [l_score].
    destruct (penalty_ranges "" {| Tls.issuer := None; Tls.subject := None;
      Tls.serialNumber := None; Tls.valid_from := None; Tls.valid_to := None;
      Tls.subjectaltname := None |} negotiated) as ([-> | ->] & _);
      (split_and!; [reflexivity|reflexivity|apply in_or_app; right; by left]).
  - intros error Hn. by rewrite (checkTLS_connected _ _ _ Hu Hp Hn).
Qed.

(** X7. The TLS category passes exactly when the URL is https, the
    handshake succeeds with a readable certificate that is not expired,
    and the penalties (10 protocol, 3 issuer, 12/8/3/4/6 expiry, 5 SAN)
    add up to at most 7.  So it never passes with a protocol that is
    not TLS, nor with a certificate that expires within 30 days. *)
Theorem tls_passes_within_7_points targetUrl :
  (passed (checkTLS targetUrl) = true <->
   exists parsedUrl cert negotiated,
     URL_parse targetUrl = Some parsedUrl /\
     protocol parsedUrl = "https:" /\
     network (hostname parsedUrl) (Tls.portOf parsedUrl)
       = Tls.OnSecureConnect (Tls.PeerInfo (Some cert) negotiated) /\
     ~ expired (expiryOf Date_parse now cert) /\
     protocolPenalty negotiated + issuerPenalty cert
       + tlsExpiryPenalty (expiryOf Date_parse now cert)
       + sanPenalty (hostname parsedUrl) cert <= 7) /\
  (forall parsedUrl cert negotiated,
     passed (checkTLS targetUrl) = true ->
     URL_parse targetUrl = Some parsedUrl ->
     network (hostname parsedUrl) (Tls.portOf parsedUrl)
       = Tls.OnSecureConnect (Tls.PeerInfo (Some cert) negotiated) ->
     protocolPenalty negotiated = 0 /\
     forall days, expiryOf Date_parse now cert = ExpiresIn days -> 30 < days).
Proof.
  assert (Hcert : forall parsedUrl cert negotiated,
    URL_parse targetUrl = Some parsedUrl ->
    protocol parsedUrl = "https:" ->
    network (hostname parsedUrl) (Tls.portOf parsedUrl)
      = Tls.OnSecureConnect (Tls.PeerInfo (Some cert) negotiated) ->
    passed (checkTLS targetUrl) = true <->
    ~ expired (expiryOf Date_parse now cert) /\
    protocolPenalty negotiated + issuerPenalty cert
      + tlsExpiryPenalty (expiryOf Date_parse now cert)
      + sanPenalty (hostname parsedUrl) cert <= 7).
  { intros u cert negotiated Hu Hp Hn.
    pose proof (tls_finalized URL_parse Date_parse toISOString now network targetUrl)
      as Hf.
    assert (Hps : passed (checkTLS targetUrl) = (18 <=? score (checkTLS targetUrl))).
    { destruct Hf. reflexivity. }
    rewrite Hps, Z.leb_le, (checkTLS_connected _ _ _ Hu Hp Hn), inspected_score.
    destruct (penalty_ranges (hostname u) cert negotiated) as (H1 & H2 & H3).
    unfold clamp, expired, tlsExpiryPenalty.
    destruct (expiryOf Date_parse now cert) as [| |d]; [lia..|].
    assert (0 <= expiryBracket d <= 12)
      by (unfold expiryBracket; repeat destruct (_ <=? _); lia).
    destruct (Z.ltb_spec d 0); lia. }
  split.
  - split.
    + intros H0. pose proof H0 as H. unfold Tls.checkTLS in H.
      destruct (URL_parse targetUrl) as [u|] eqn:Hu; [|discriminate].
      destruct (String.eqb_spec (protocol u) "https:") as [Hp|Hp]; [|discriminate].
      cbn [negb Tls.run] in H.
      destruct (network _ _) as [[error|[cert|] negotiated]|error|] eqn:Hn;
        try discriminate.
      * exists u, cert, negotiated. split_and!; try done;
          by apply (Hcert u cert negotiated eq_refl Hp Hn).
      * exfalso. revert H.
        unfold Tls.onSecureConnect, Tls.inspect, Tls.finalizeResult, finalize.
        cbn [passed assign push l_score]. rewrite protocolStep_score.
        cbn [l_score]. rewrite Z.leb_le.
        unfold Tls.MAX_SCORE, Tls.PASSING_THRESHOLD.
        destruct (penalty_ranges "" {| Tls.issuer := None; Tls.subject := None;
          Tls.serialNumber := None; Tls.valid_from := None; Tls.valid_to := None;
          Tls.subjectaltname := None |} negotiated) as ([-> | ->] & _); lia.
    + intros (u & cert & negotiated & Hu & Hp & Hn & H).
      by apply (Hcert u cert negotiated Hu Hp Hn).
  - intros u cert negotiated H Hu Hn.
    assert (Hp : protocol u = "https:").
    { unfold Tls.checkTLS in H. rewrite Hu in H.
      destruct (String.eqb_spec (protocol u) "https:"); [done|discriminate]. }
    apply (Hcert u cert negotiated Hu Hp Hn) in H as [He Hs].
    destruct (penalty_ranges (hostname u) cert negotiated) as (H1 & H2 & H3).
    split.
    + assert (0 <= tlsExpiryPenalty (expiryOf Date_parse now cert)).
      { unfold tlsExpiryPenalty, expiryBracket.
        destruct (expiryOf _ _ _); repeat destruct (_ <=? _); lia. }
      lia.
    + intros d Hd. rewrite Hd in He, Hs. unfold expired, tlsExpiryPenalty in *.
      unfold expiryBracket in Hs.
      destruct (Z.leb_spec d 7); [lia|]. destruct (Z.leb_spec d 30); lia.
Qed.

End TlsMore.

Lemma unreadable_certificate_scores_5_witness :
  score (Tls.run (fun _ _ => Tls.OnSecureConnect (Tls.PeerInfo None (Some "SSLv3")))
           (Tls.checkTLS Example.URL_parse Example.Date_parse Example.toISOString
              Example.now "https://example.com/")) = 5.
Proof.
  apply (proj1 (unreadable_certificate_scores_5 Example.URL_parse
    Example.Date_parse Example.toISOString Example.now
    (fun _ _ => Tls.OnSecureConnect (Tls.PeerInfo None (Some "SSLv3")))
    "https://example.com/" Example.site eq_refl eq_refl) (Some "SSLv3") eq_refl).
Defined.

Lemma tls_passes_within_7_points_witness :
  passed (Tls.run (Example.network (Some "Jan  1 00:00:00 2030 GMT"))
            (Tls.checkTLS Example.URL_parse Example.Date_parse
               Example.toISOString Example.now "https://example.com/")) = true.
Proof.
  apply (proj1 (tls_passes_within_7_points Example.URL_parse Example.Date_parse
    Example.toISOString Example.now
    (Example.network (Some "Jan  1 00:00:00 2030 GMT")) "https://example.com/")).
  exists Example.site, (Example.certificate (Some "Jan  1 00:00:00 2030 GMT")),
    (Some "TLSv1.3").
  split_and!; [reflexivity..| |].
  - vm_compute. intros H. discriminate H.
  - vm_compute. discriminate.
Defined.

(* ===================================================================== *)
(** ** More on the cookie check *)
(* ===================================================================== *)

Lemma host_excludes_secure n :
  startsWith "__Host-" n = true -> startsWith "__Secure-" n = false.
Proof.
  unfold startsWith. intros H.
  destruct (String.prefix "__Secure-" n) eqn:E; [exfalso|done].
  apply prefix_correct in H, E.
  destruct n as [|a [|b [|c n]]]; simpl in H, E; try discriminate.
  injection H as _ _ Hc _. injection E as _ _ Hc' _. congruence.
Qed.

(** X14. A cookie is free of issues exactly when it has the Secure and
    HttpOnly flags and a non-empty SameSite attribute and, if its name
    starts with __Host-, the path "/" and no domain. *)
Theorem clean_cookie (cookie : Cookies.Cookie) :
  Cookies.analyzeCookieIssues cookie = [] <->
  Cookies.secure cookie = true /\
  Cookies.httpOnly cookie = true /\
  truthy_str (Cookies.sameSite cookie) = true /\
  (startsWith "__Host-" (Cookies.name cookie) = true ->
   Cookies.path cookie = Some "/" /\ truthy_str (Cookies.domain cookie) = false).
Proof.
  rewrite <- length_zero_iff_nil, issues_counted. unfold issueCount.
  destruct (Cookies.secure cookie), (Cookies.httpOnly cookie),
    (truthy_str (Cookies.sameSite cookie)),
    (startsWith "__Host-" (Cookies.name cookie)),
    (truthy_str (Cookies.domain cookie));
    try (case_bool_decide as Hp);
    rewrite ?andb_false_r, ?andb_true_r; simpl; try lia;
    try (split; [lia|]); try (intros (? & ? & ? & ?); try discriminate);
    intuition (try discriminate; try congruence; try lia).
Qed.

(** X15. A cookie has at most six issues, and at most four unless its
    name starts with __Host-: only a __Host- cookie can use up the 25
    points by itself. *)
Theorem cookie_issue_bounds (cookie : Cookies.Cookie) :
  let n := length (Cookies.analyzeCookieIssues cookie) in
  (n <= 6)%nat /\
  (startsWith "__Host-" (Cookies.name cookie) = false ->
   (n <= 4)%nat /\ 5 <= cookieScore n).
Proof.
  cbn zeta. rewrite issues_counted. unfold issueCount, cookieScore, truthy_str.
  destruct (startsWith "__Host-" (Cookies.name cookie)) eqn:Hh;
    [rewrite (host_excludes_secure _ Hh)|];
    (destruct (Cookies.sameSite cookie) as [s|];
       [destruct (nonempty s); [destruct (String.eqb _ "none")|]|]);
    (destruct (Cookies.domain cookie) as [d|]; [destruct (nonempty d)|]);
    destruct (Cookies.secure cookie), (Cookies.httpOnly cookie),
      (bool_decide (Cookies.path cookie = Some "/")),
      (startsWith "__Secure-" (Cookies.name cookie));
    simpl; (split; [lia|]); try discriminate; intros _; lia.
Qed.

Section CookieMore.

Variable axios_get : string -> AxiosOutcome.
Variable parse : option HeaderValue -> list Cookies.Cookie.
Variable toISOString : Z -> string.

#[local] Abbreviation described_as :=
  (fun e c => Cookies.d_issues e = Cookies.analyzeCookieIssues c /\
              Cookies.d_name e = Cookies.name c).

Lemma describe_cases cookie penalty :
  (datable cookie /\
   exists entry,
     Cookies.describe toISOString cookie penalty
       = Fulfilled (penalty + 5 * Z.of_nat (issueCount cookie), entry) /\
     described_as entry cookie) \/
  (Cookies.expires cookie = Some Cookies.InvalidDate /\
   Cookies.describe toISOString cookie penalty
     = Rejected (Fault (Some "Invalid time value"))).
Proof.
  destruct (Cookies.expires cookie) as [[t|]|] eqn:He.
  - left. assert (Hd : datable cookie) by (unfold datable; by rewrite He).
    split; [done|]. by apply describe_datable.
  - right. split; [done|]. unfold Cookies.describe. by rewrite He.
  - left. assert (Hd : datable cookie) by (unfold datable; by rewrite He).
    split; [done|]. by apply describe_datable.
Qed.

Lemma mapCookies_cases cookies penalty :
  (Forall datable cookies /\
   exists entries,
     Cookies.mapCookies toISOString cookies penalty
       = Fulfilled (penalty + 5 * Z.of_nat (totalIssues cookies), entries) /\
     Forall2 described_as entries cookies) \/
  (Exists (fun c => Cookies.expires c = Some Cookies.InvalidDate) cookies /\
   Cookies.mapCookies toISOString cookies penalty
     = Rejected (Fault (Some "Invalid time value"))).
Proof.
  revert penalty. induction cookies as [|c cs IH]; intros penalty.
  - left. split; [constructor|]. by apply mapCookies_datable.
  - simpl. destruct (describe_cases c penalty) as [(Hd & e & -> & He)|[Hx ->]].
    + destruct (IH (penalty + 5 * Z.of_nat (issueCount c)))
        as [(Hds & es & -> & Hes)|[Hx ->]].
      * left. split; [by constructor|]. exists (e :: es).
        split; [f_equal; f_equal; lia|by constructor].
      * right. split; [by apply Exists_cons_tl|done].
    + right. split; [by apply Exists_cons_hd|done].
Qed.

Lemma not_both cookies :
  Forall datable cookies ->
  Exists (fun c => Cookies.expires c = Some Cookies.InvalidDate) cookies -> False.
Proof.
  intros Hf Hx. apply Exists_exists in Hx as (c & Hin & Hc).
  rewrite Forall_forall in Hf. by apply (Hf c Hin).
Qed.

(** What a fulfilled check of a response with cookies returns. *)
Lemma cookies_fulfilled targetUrl context response e r :
  Cookies.obtain axios_get targetUrl context = (Some response, e) ->
  Cookies.noSetCookie (setCookieOf response) = false ->
  Cookies.checkCookies axios_get parse toISOString targetUrl context = Fulfilled r ->
  let cookies := parse (setCookieOf response) in
  Forall datable cookies /\
  score r = cookieScore (totalIssues cookies) /\
  length (warnings r) = length (offending cookies).
Proof.
  intros Ho Hn Hr cookies.
  assert (Hd : Forall datable cookies).
  { destruct (mapCookies_cases cookies 0) as [[Hd _]|[_ Hx]]; [done|exfalso].
    revert Hr. unfold Cookies.checkCookies. rewrite Ho.
    fold (setCookieOf response). rewrite Hn. fold cookies. by rewrite Hx. }
  split; [done|].
  destruct (cookies_score_formula axios_get parse toISOString _ _ _ _ Ho)
    as [_ H]. destruct (H Hn Hd) as (r' & Hr' & Hs & Hw & _).
  rewrite Hr in Hr'. injection Hr' as <-. done.
Qed.

(** X17. The cookie check throws exactly when the response has cookies
    one of which carries an invalid [Expires] date, and then with the
    message 'Invalid time value'; on every other path it returns a
    result. *)
Theorem cookie_check_throws_only_on_invalid_dates targetUrl context reason :
  Cookies.checkCookies axios_get parse toISOString targetUrl context
    = Rejected reason <->
  exists response,
    fst (Cookies.obtain axios_get targetUrl context) = Some response /\
    Cookies.noSetCookie (setCookieOf response) = false /\
    Exists (fun c => Cookies.expires c = Some Cookies.InvalidDate)
           (parse (setCookieOf response)) /\
    reason = Fault (Some "Invalid time value").
Proof.
  unfold Cookies.checkCookies.
  destruct (Cookies.obtain _ _ _) as [[response|] e]; cbn [fst].
  - fold (setCookieOf response).
    destruct (Cookies.noSetCookie _) eqn:Hn.
    + split; [discriminate|]. intros (r' & [= <-] & Hn' & _). congruence.
    + destruct (mapCookies_cases (parse (setCookieOf response)) 0)
        as [(Hd & es & -> & _)|[Hx ->]].
      * split; [discriminate|]. intros (r' & [= <-] & _ & Hx & _).
        destruct (not_both _ Hd Hx).
      * split.
        -- intros [= <-]. by exists response.
        -- by intros (r' & [= <-] & _ & _ & ->).
  - split; [discriminate|]. by intros (r' & [=] & _).
Qed.

(** X16. For a response with cookies, the cookie category passes exactly
    when there is at most one issue in all. *)
Theorem cookies_pass_with_at_most_one_issue targetUrl context response e r :
  Cookies.obtain axios_get targetUrl context = (Some response, e) ->
  Cookies.noSetCookie (setCookieOf response) = false ->
  Cookies.checkCookies axios_get parse toISOString targetUrl context = Fulfilled r ->
  passed r = true <-> (totalIssues (parse (setCookieOf response)) <= 1)%nat.
Proof.
  intros Ho Hn Hr.
  destruct (cookies_fulfilled _ _ _ _ _ Ho Hn Hr) as (_ & Hs & _).
  pose proof (cookies_finalized _ _ _ _ _ _ Hr) as Hf.
  assert (Hp : passed r = (18 <=? score r)) by (by destruct Hf).
  rewrite Hp, Hs, Z.leb_le. unfold cookieScore. lia.
Qed.

End CookieMore.

Lemma totalIssues_app cs cs' :
  totalIssues (cs ++ cs') = (totalIssues cs + totalIssues cs')%nat.
Proof. induction cs as [|c cs IH]; simpl; [done|]. rewrite IH. lia. Qed.

Lemma totalIssues_submseteq cs cs' :
  cs ⊆+ cs' -> (totalIssues cs <= totalIssues cs')%nat.
Proof. induction 1; simpl; lia. Qed.

(** X18. The score of the cookie check does not depend on the order of
    the cookies, and further cookies never raise it: for two fulfilled
    checks, equal scores when the cookies of one are a permutation of
    the other's, and a score at most as high when they include the
    other's. *)
Theorem cookie_score_is_antitone
    axios_get parse toISOString targetUrl context response e r
    axios_get' parse' toISOString' targetUrl' context' response' e' r' :
  Cookies.obtain axios_get targetUrl context = (Some response, e) ->
  Cookies.noSetCookie (setCookieOf response) = false ->
  Cookies.checkCookies axios_get parse toISOString targetUrl context = Fulfilled r ->
  Cookies.obtain axios_get' targetUrl' context' = (Some response', e') ->
  Cookies.noSetCookie (setCookieOf response') = false ->
  Cookies.checkCookies axios_get' parse' toISOString' targetUrl' context'
    = Fulfilled r' ->
  let cookies := parse (setCookieOf response) in
  let cookies' := parse' (setCookieOf response') in
  (cookies ≡ₚ cookies' -> score r = score r') /\
  (cookies ⊆+ cookies' -> score r' <= score r).
Proof.
  intros Ho Hn Hr Ho' Hn' Hr' cookies cookies'.
  destruct (cookies_fulfilled _ _ _ _ _ _ _ _ Ho Hn Hr) as (_ & -> & _).
  destruct (cookies_fulfilled _ _ _ _ _ _ _ _ Ho' Hn' Hr') as (_ & -> & _).
  fold cookies cookies'. unfold cookieScore. split; intros H.
  - assert (totalIssues cookies = totalIssues cookies'); [|lia].
    apply Nat.le_antisymm; apply totalIssues_submseteq; by rewrite H.
  - apply totalIssues_submseteq in H. lia.
Qed.

Lemma cookies_pass_with_at_most_one_issue_witness :
  exists r,
    Cookies.checkCookies Example.unreachable Example.parse Example.toISOString
      "https://example.com/"
      (Example.context
         [("set-cookie",
           HArr ["__Host-session=1; Path=/; Secure; HttpOnly; SameSite=Strict"])])
      = Fulfilled r /\
    passed r = true.
Proof.
  destruct (Cookies.checkCookies _ _ _ _ _) as [r|] eqn:E;
    [|vm_compute in E; discriminate].
  exists r. split; [reflexivity|].
  apply (proj2 (cookies_pass_with_at_most_one_issue Example.unreachable
    Example.parse Example.toISOString "https://example.com/"
    (Example.context
       [("set-cookie",
         HArr ["__Host-session=1; Path=/; Secure; HttpOnly; SameSite=Strict"])])
    (Example.response
       [("set-cookie",
         HArr ["__Host-session=1; Path=/; Secure; HttpOnly; SameSite=Strict"])])
    None r eq_refl eq_refl E)).
  vm_compute. lia.
Defined.

Lemma cookie_score_is_antitone_witness :
  exists r r',
    Cookies.checkCookies Example.unreachable (fun _ => [Example.session None])
      Example.toISOString "https://example.com/"
      (Example.context [("set-cookie", HArr ["a"])]) = Fulfilled r /\
    Cookies.checkCookies Example.unreachable
      (fun _ => [Example.tracker; Example.session None])
      Example.toISOString "https://example.com/"
      (Example.context [("set-cookie", HArr ["a"; "b"])]) = Fulfilled r' /\
    score r' <= score r.
Proof.
  destruct (Cookies.checkCookies _ (fun _ => [Example.session None]) _ _ _)
    as [r|] eqn:E; [|vm_compute in E; discriminate].
  destruct (Cookies.checkCookies _ (fun _ => [Example.tracker; _]) _ _ _)
    as [r'|] eqn:E'; [|vm_compute in E'; discriminate].
  exists r, r'. split; [reflexivity|]. split; [reflexivity|].
  apply (proj2 (cookie_score_is_antitone
    Example.unreachable (fun _ => [Example.session None]) Example.toISOString
    "https://example.com/" (Example.context [("set-cookie", HArr ["a"])])
    (Example.response [("set-cookie", HArr ["a"])]) None r
    Example.unreachable (fun _ => [Example.tracker; Example.session None])
    Example.toISOString "https://example.com/"
    (Example.context [("set-cookie", HArr ["a"; "b"])])
    (Example.response [("set-cookie", HArr ["a"; "b"])]) None r'
    eq_refl eq_refl E eq_refl eq_refl E')).
  apply submseteq_cons, reflexivity.
Defined.

(* ===================================================================== *)
(** ** Warnings and penalties go together *)
(* ===================================================================== *)

Lemma penalised_set k v l : penalised l -> penalised (set k v l).
Proof. done. Qed.

Lemma penalised_step w f l :
  penalised l -> (forall s, s <= 25 -> f s < 25) ->
  penalised (assign f (push w l)).
Proof.
  intros Hl Hf. right. split.
  - simpl. by destruct (l_warnings l).
  - simpl. apply Hf. destruct Hl as [[_ ->]|[_ ?]]; lia.
Qed.

Lemma penalised_start d :
  penalised {| l_score := 25; l_warnings := []; l_details := d |}.
Proof. by left. Qed.

(** The result of a block that kept the invariant. *)
Lemma penalised_finalize K L l :
  penalised l ->
  let r := finalize K L 25 18 (l_score l) (l_warnings l) (l_details l) in
  score r = 25 <-> warnings r = [].
Proof.
  intros [[Hw Hs]|[Hw Hs]]; unfold finalize; cbn [score warnings].
  - rewrite Hw, Hs. done.
  - split; [lia|done].
Qed.

(** The result of a path that gives up: score 0 and a warning. *)
Lemma failed_finalize K L w ws d :
  let r := finalize K L 25 18 0 (w :: ws) d in
  score r = 25 <-> warnings r = [].
Proof. cbn zeta. unfold finalize. cbn [score warnings]. split; [lia|done]. Qed.

Ltac penalise :=
  repeat first
    [ assumption
    | apply penalised_set
    | apply penalised_step; [|intros; lia] ].

Section Penalised.

Variable Date_parse : string -> option Z.
Variable toISOString : Z -> string.
Variable now : Z.

Ltac penalise_cases :=
  repeat match goal with
         | |- penalised (match ?x with _ => _ end) => destruct x
         | |- penalised (if ?x then _ else _) => destruct x
         | |- penalised (let _ := _ in _) => cbn zeta
         | _ => progress penalise
         end.

Lemma protocolStep_penalised negotiated l :
  penalised l -> penalised (Tls.protocolStep negotiated l).
Proof. intros Hl. unfold Tls.protocolStep. penalise_cases. Qed.

Lemma issuerStep_penalised c l : penalised l -> penalised (Tls.issuerStep c l).
Proof. intros Hl. unfold Tls.issuerStep. penalise_cases. Qed.

Lemma subjectStep_penalised c l : penalised l -> penalised (Tls.subjectStep c l).
Proof. intros Hl. unfold Tls.subjectStep. penalise_cases. Qed.

Lemma serialStep_penalised c l : penalised l -> penalised (Tls.serialStep c l).
Proof. intros Hl. unfold Tls.serialStep. penalise_cases. Qed.

Lemma validFromStep_penalised c l :
  penalised l -> penalised (Tls.validFromStep Date_parse toISOString c l).
Proof. intros Hl. unfold Tls.validFromStep. penalise_cases. Qed.

Lemma validToStep_penalised c l :
  penalised l -> penalised (Tls.validToStep Date_parse toISOString now c l).
Proof.
  intros Hl. unfold Tls.validToStep, Tls.expiryBrackets. penalise_cases.
Qed.

Lemma sanStep_penalised host c l : penalised l -> penalised (Tls.sanStep host c l).
Proof. intros Hl. unfold Tls.sanStep. penalise_cases. Qed.

Lemma inspect_penalised host cert negotiated l :
  penalised l ->
  penalised (Tls.inspect Date_parse toISOString now host cert negotiated l).
Proof.
  intros Hl. unfold Tls.inspect.
  pose proof (protocolStep_penalised negotiated l Hl) as H0.
  destruct cert as [c|]; [|penalise].
  by apply sanStep_penalised, validToStep_penalised, validFromStep_penalised,
    serialStep_penalised, subjectStep_penalised, issuerStep_penalised.
Qed.

Lemma creationStep_penalised created l :
  penalised l -> penalised (Whois.creationStep toISOString now created l).
Proof. intros Hl. unfold Whois.creationStep. penalise_cases. Qed.

Lemma expiryStep_penalised expiry l :
  penalised l -> penalised (Whois.expiryStep toISOString now expiry l).
Proof. intros Hl. unfold Whois.expiryStep. penalise_cases. Qed.

Lemma registrarStep_penalised registrar l :
  penalised l -> penalised (Whois.registrarStep registrar l).
Proof. intros Hl. unfold Whois.registrarStep. penalise_cases. Qed.

Lemma whois_penalised created expiry registrar l :
  penalised l ->
  penalised (Whois.registrarStep registrar
               (Whois.expiryStep toISOString now expiry
                  (Whois.creationStep toISOString now created l))).
Proof.
  intros Hl.
  by apply registrarStep_penalised, expiryStep_penalised, creationStep_penalised.
Qed.

End Penalised.

Lemma headers_penalised checks l :
  Forall (fun c => 0 < Headers.weight c) checks ->
  penalised l -> penalised (fold_left Headers.applyCheck checks l).
Proof.
  intros H. revert l. induction H as [|c cs Hc _ IH]; intros l Hl; [done|].
  simpl. apply IH. unfold Headers.applyCheck.
  destruct (Headers.failed c); penalise.
Qed.

Lemma filter_Boolean_cons s l :
  s <> "" -> exists ws, filter_Boolean (Some s :: l) = s :: ws.
Proof.
  intros Hs. unfold filter_Boolean. simpl. unfold nonempty.
  destruct (String.eqb_spec s ""); [done|]. simpl. eauto.
Qed.

(** X8. In every result of the four checks the full score and the
    absence of warnings go together: a result has score 25 exactly when
    it has no warning. *)
Theorem full_score_iff_no_warnings :
  forall URL_parse Date_parse toISOString now network axios_get parse
         psl_domain whois targetUrl context,
    let full r := score r = 25 <-> warnings r = [] in
    full (Tls.run network
            (Tls.checkTLS URL_parse Date_parse toISOString now targetUrl)) /\
    full (Headers.checkHeaders axios_get targetUrl context) /\
    (forall r,
        Cookies.checkCookies axios_get parse toISOString targetUrl context
          = Fulfilled r -> full r) /\
    full (Whois.checkWhois URL_parse psl_domain whois Date_parse toISOString now
            targetUrl).
Proof.
  intros. unfold full. split_and!.
  - unfold Tls.checkTLS.
    destruct (URL_parse targetUrl) as [u|]; [|apply failed_finalize].
    destruct (negb _); [apply failed_finalize|]. cbn [Tls.run].
    destruct (network _ _) as [[error|cert negotiated]|error|].
    + apply (penalised_finalize _ _
        (assign (fun s => Z.min s 10) (set "error" (of_opt (message error))
           (push "TLS inspection failed."
              {| l_score := 25; l_warnings := [];
                 l_details := [("host", Str (hostname u));
                               ("port", Num (Tls.portOf u))] |})))).
      apply (penalised_step _ _ ({| l_score := 25; l_warnings := [];
        l_details := [("host", Str (hostname u)); ("port", Num (Tls.portOf u));
                      ("error", of_opt (message error))] |}));
        [apply penalised_start|intros; lia].
    + apply penalised_finalize, inspect_penalised, penalised_start.
    + destruct (filter_Boolean_cons "Could not establish a TLS connection."
                  [message error]) as [ws ->]; [done|]. apply failed_finalize.
    + apply failed_finalize.
  - unfold Headers.checkHeaders.
    destruct (Headers.obtain _ _ _) as [[response|] e].
    + set (l := fold_left _ _ _).
      assert (Hl : penalised l).
      { apply headers_penalised; [|apply penalised_start].
        unfold Headers.createHeaderChecks. repeat constructor. }
      destruct Hl as [[Hw Hs]|[Hw Hs]];
        unfold Headers.finalizeResult, finalize; cbn [score warnings].
      * rewrite Hw, Hs. done.
      * split; [unfold Headers.MAX_SCORE; lia|done].
    + destruct (filter_Boolean_cons "Unable to retrieve the site response headers."
                  [message_of e]) as [ws ->]; [done|]. apply failed_finalize.
  - intros r. unfold Cookies.checkCookies.
    destruct (Cookies.obtain _ _ _) as [[response|] e] eqn:Ho.
    + fold (setCookieOf response).
      destruct (Cookies.noSetCookie _) eqn:Hn; [by intros [= <-]|].
      intros Hr.
      assert (Hr' : Cookies.checkCookies axios_get parse toISOString targetUrl
                      context = Fulfilled r).
      { unfold Cookies.checkCookies. rewrite Ho. fold (setCookieOf response).
        by rewrite Hn. }
      destruct (cookies_fulfilled _ _ _ _ _ _ _ _ Ho Hn Hr') as (_ & Hs & Hw).
      rewrite Hs, <- length_zero_iff_nil, Hw. unfold cookieScore.
      assert (Hz : totalIssues (parse (setCookieOf response)) = 0%nat <->
                   length (offending (parse (setCookieOf response))) = 0%nat).
      { generalize (parse (setCookieOf response)). intros cs.
        induction cs as [|c cs IH]; simpl; [done|].
        destruct (Nat.ltb_spec 0 (issueCount c)); simpl; lia. }
      rewrite <- Hz. lia.
    + destruct (filter_Boolean_cons "Unable to retrieve response cookies."
                  [message_of e]) as [ws ->]; [done|].
      intros [= <-]. apply failed_finalize.
  - unfold Whois.checkWhois.
    destruct (URL_parse targetUrl) as [u|]; [|apply failed_finalize].
    destruct (negb _); [apply failed_finalize|].
    destruct (whois _) as [[[|kv rec]|]|error]; try apply failed_finalize.
    unfold Whois.scoreRecord.
    apply penalised_finalize, whois_penalised, penalised_start.
Qed.

(* ===================================================================== *)
(** ** More on the header check *)
(* ===================================================================== *)

(** Looking a name up in an object built by assigning the entries in
    order under normalised names. *)
Lemma fold_insert_lookup {A : Type} (norm : string -> string)
    (entries : list (string * A)) (m : gmap string A) k :
  fold_left (fun acc kv => <[norm (fst kv) := snd kv]> acc) entries m !! k =
    match lastNamed norm k entries with
    | Some v => Some v
    | None => m !! k
    end.
Proof.
  revert m. induction entries as [|[k' v] entries IH]; intros m; simpl; [done|].
  rewrite IH. destruct (lastNamed norm k entries); [done|].
  destruct (String.eqb_spec (norm k') k) as [->|Hne].
  - by rewrite lookup_insert_eq.
  - by rewrite lookup_insert_ne.
Qed.

Lemma lastNamed_normalised {A : Type} norm k (entries : list (string * A)) v :
  lastNamed norm k entries = Some v -> exists k', norm k' = k.
Proof.
  induction entries as [|[k' w] entries IH]; simpl; [discriminate|].
  destruct (lastNamed norm k entries); [by eauto|].
  destruct (String.eqb_spec (norm k') k); [by eauto|discriminate].
Qed.

Lemma lastNamed_sameUpTo {A : Type} norm k (entries entries' : list (string * A)) :
  sameUpTo norm entries entries' ->
  lastNamed norm k entries = lastNamed norm k entries'.
Proof.
  induction 1 as [|[k1 v1] [k2 v2] es es' [Hk Hv] _ IH]; simpl; [done|].
  simpl in Hk, Hv. by rewrite IH, Hk, Hv.
Qed.

Lemma lower_char_idempotent c : lower_char (lower_char c) = lower_char c.
Proof. destruct c as [[] [] [] [] [] [] [] []]; reflexivity. Qed.

Lemma toLowerCase_idempotent s : toLowerCase (toLowerCase s) = toLowerCase s.
Proof.
  induction s as [|c s IH]; simpl; [done|]. by rewrite lower_char_idempotent, IH.
Qed.

Lemma extractHeaders_lookup response k :
  Headers.extractHeaders response !! k =
    match headers response with
    | Some entries => lastNamed toLowerCase k entries
    | None => None
    end.
Proof.
  unfold Headers.extractHeaders. destruct (headers response) as [entries|]; [|done].
  rewrite fold_insert_lookup. by destruct (lastNamed _ _ _).
Qed.

(** X11. Header names are matched without regard to letter case: the
    extracted headers map each lower-case name to the value of the last
    header with that name in any capitalisation, hold no name with a
    capital, and two responses that differ only in the capitalisation
    of their header names get the same result. *)
Theorem header_names_are_case_insensitive
    axios_get targetUrl response response' entries entries' fetchError :
  headers response = Some entries ->
  headers response' = Some entries' ->
  sameUpTo toLowerCase entries entries' ->
  status response = status response' ->
  responseUrl response = responseUrl response' ->
  configUrl response = configUrl response' ->
  (forall k, Headers.extractHeaders response !! k
             = lastNamed toLowerCase k entries) /\
  (forall k, k <> toLowerCase k -> Headers.extractHeaders response !! k = None) /\
  Headers.checkHeaders axios_get targetUrl
    {| ctx_response := Some response; ctx_fetchError := fetchError |}
  = Headers.checkHeaders axios_get targetUrl
      {| ctx_response := Some response'; ctx_fetchError := fetchError |}.
Proof.
  intros He He' Hs H1 H2 H3. split_and!.
  - intros k. by rewrite extractHeaders_lookup, He.
  - intros k Hk. rewrite extractHeaders_lookup, He.
    destruct (lastNamed toLowerCase k entries) as [v|] eqn:E; [exfalso|done].
    apply lastNamed_normalised in E as [k' <-].
    by rewrite toLowerCase_idempotent in Hk.
  - assert (Hx : Headers.extractHeaders response = Headers.extractHeaders response').
    { apply map_eq. intros k. rewrite !extractHeaders_lookup, He, He'.
      by apply lastNamed_sameUpTo. }
    unfold Headers.checkHeaders, Headers.obtain. cbn [ctx_response ctx_fetchError].
    unfold finalUrl. by rewrite Hx, H1, H2, H3.
Qed.

Lemma header_names_are_case_insensitive_witness :
  Headers.checkHeaders Example.unreachable "https://example.com/"
    (Example.context Example.secureHeaders)
  = Headers.checkHeaders Example.unreachable "https://example.com/"
      (Example.context
         (map (fun e => (toLowerCase (fst e), snd e)) Example.secureHeaders)).
Proof.
  apply (proj2 (proj2 (header_names_are_case_insensitive Example.unreachable
    "https://example.com/" (Example.response Example.secureHeaders)
    (Example.response
       (map (fun e => (toLowerCase (fst e), snd e)) Example.secureHeaders))
    Example.secureHeaders
    (map (fun e => (toLowerCase (fst e), snd e)) Example.secureHeaders)
    None eq_refl eq_refl ltac:(repeat constructor) eq_refl eq_refl eq_refl))).
Defined.

(** X12. The clickjacking check.  Without an X-Frame-Options header, or
    with a blank one, it passes exactly when the Content-Security-Policy
    declares frame-ancestors; with a value that is not blank it passes
    exactly when that value contains sameorigin or deny, so a lenient
    X-Frame-Options fails it even beside a frame-ancestors directive.
    The warning is there exactly when the check fails. *)
Theorem clickjacking_check axios_get targetUrl context response e :
  Headers.obtain axios_get targetUrl context = (Some response, e) ->
  let h := Headers.extractHeaders response in
  let r := Headers.checkHeaders axios_get targetUrl context in
  let warned :=
    In "Missing X-Frame-Options header or frame-ancestors directive."
       (warnings r) in
  (h !! "x-frame-options" = None ->
     ~ warned <-> declaresFrameAncestors h = true) /\
  (forall s, h !! "x-frame-options" = Some (HStr s) -> trim s = "" ->
     ~ warned <-> declaresFrameAncestors h = true) /\
  (forall s, h !! "x-frame-options" = Some (HStr s) -> trim s <> "" ->
     ~ warned <->
     contains_i "sameorigin" (trim s) \/ contains_i "deny" (trim s)).
Proof.
  intros Ho h r warned.
  destruct (checkHeaders_obtained _ _ _ _ _ Ho) as (_ & Hw & _).
  fold h r in Hw.
  set (c := {| Headers.hc_key := "x-frame-options";
               Headers.hc_label := "Clickjacking protection";
               Headers.weight := 4;
               Headers.present :=
                 Headers.Boolean (h !! "x-frame-options")
                 || declaresFrameAncestors h;
               Headers.valid :=
                 (let value := Headers.normalizeValue (h !! "x-frame-options") in
                  if truthy_str value
                  then search Headers.re_frame_options (default "" value)
                  else declaresFrameAncestors h);
               Headers.warning :=
                 "Missing X-Frame-Options header or frame-ancestors directive." |}).
  assert (Hin : In c (Headers.createHeaderChecks h)).
  { unfold Headers.createHeaderChecks. simpl. tauto. }
  assert (Hnd : NoDup (map Headers.warning (Headers.createHeaderChecks h))).
  { apply (bool_decide_unpack _). vm_compute. exact I. }
  pose proof (warning_listed _ c Hnd Hin) as Hl. rewrite <- Hw in Hl.
  change (Headers.warning c)
    with "Missing X-Frame-Options header or frame-ancestors directive." in Hl.
  fold warned in Hl.
  assert (Hnot : ~ warned <-> Headers.failed c = false).
  { rewrite Hl. by destruct (Headers.failed c). }
  split_and!; [intros Hx|intros s Hx Hs..]; rewrite Hnot;
    unfold Headers.failed, c; cbn [Headers.present Headers.valid]; rewrite Hx.
  - simpl. by destruct (declaresFrameAncestors h).
  - cbn [Headers.normalizeValue Headers.Boolean]. rewrite Hs.
    simpl. destruct (nonempty s), (declaresFrameAncestors h); simpl;
      intuition discriminate.
  - cbn [Headers.normalizeValue Headers.Boolean truthy_str].
    assert (Hne : nonempty (trim s) = true).
    { unfold nonempty. by destruct (String.eqb_spec (trim s) ""). }
    assert (Hn : nonempty s = true).
    { destruct s; [done|reflexivity]. }
    rewrite Hne, Hn. cbn [default orb negb]. rewrite <- search_frame_options.
    destruct (search _ _); simpl; intuition discriminate.
Qed.

Lemma clickjacking_check_witness :
  In "Missing X-Frame-Options header or frame-ancestors directive."
     (warnings
        (Headers.checkHeaders Example.unreachable "https://example.com/"
           (Example.context
              [ ("X-Frame-Options", HStr "ALLOWALL");
                ("Content-Security-Policy", HStr "frame-ancestors 'self'") ]))).
Proof.
  destruct (clickjacking_check Example.unreachable "https://example.com/"
    (Example.context
       [ ("X-Frame-Options", HStr "ALLOWALL");
         ("Content-Security-Policy", HStr "frame-ancestors 'self'") ])
    (Example.response
       [ ("X-Frame-Options", HStr "ALLOWALL");
         ("Content-Security-Policy", HStr "frame-ancestors 'self'") ])
    None eq_refl) as (_ & _ & H).
  specialize (H "ALLOWALL" eq_refl ltac:(discriminate)).
  match goal with |- ?G => destruct (decide G) as [Hyes|Hno] end; [exact Hyes|].
  exfalso. apply H in Hno.
  destruct Hno as [H'|H']; apply search_lit in H'; vm_compute in H'; discriminate.
Defined.

Lemma checks_warnings h :
  map Headers.warning (Headers.createHeaderChecks h) =
    [ "Missing Strict-Transport-Security header (HSTS).";
      "Missing Content-Security-Policy header.";
      "Missing X-Frame-Options header or frame-ancestors directive.";
      "Missing Referrer-Policy header.";
      "Missing Permissions-Policy header.";
      "Missing X-Content-Type-Options header (nosniff)." ].
Proof. reflexivity. Qed.

(** The failures that leave 18 points, for six checks of the weights
    and warnings of the rubric. *)
Lemma few_failures checks :
  map Headers.weight checks = [5; 5; 4; 4; 3; 4] ->
  map Headers.warning checks =
    [ "Missing Strict-Transport-Security header (HSTS).";
      "Missing Content-Security-Policy header.";
      "Missing X-Frame-Options header or frame-ancestors directive.";
      "Missing Referrer-Policy header.";
      "Missing Permissions-Policy header.";
      "Missing X-Content-Type-Options header (nosniff)." ] ->
  penalties checks <= 7 ->
  let ws := map Headers.warning (List.filter Headers.failed checks) in
  (length ws <= 2)%nat /\
  (length ws = 2%nat ->
     In "Missing Permissions-Policy header." ws /\
     ~ In "Missing Strict-Transport-Security header (HSTS)." ws /\
     ~ In "Missing Content-Security-Policy header." ws).
Proof.
  intros Hw Hm.
  do 7 (destruct checks as [|? checks]; try discriminate).
  injection Hw as W1 W2 W3 W4 W5 W6. injection Hm as M1 M2 M3 M4 M5 M6.
  unfold penalties. cbn [foldr List.filter].
  rewrite W1, W2, W3, W4, W5, W6.
  repeat match goal with
         | |- context [Headers.failed ?c] => destruct (Headers.failed c)
         end;
    cbn [map length]; rewrite ?M1, ?M2, ?M3, ?M4, ?M5, ?M6;
    intros Hp; try lia;
    (split; [lia|]); intros Hl; try discriminate Hl;
    (split_and!; [simpl; tauto|simpl; intuition discriminate..]).
Qed.

(** X13. The header category passes exactly when a response is
    obtained and the weights of the failed checks add up to at most 7.
    Then at most two checks have failed, and when two have, one is the
    Permissions-Policy check and neither is the HSTS or the
    Content-Security-Policy check. *)
Theorem headers_pass_with_few_failures axios_get targetUrl context :
  let r := Headers.checkHeaders axios_get targetUrl context in
  (passed r = true <->
   exists response e,
     Headers.obtain axios_get targetUrl context = (Some response, e) /\
     penalties (Headers.createHeaderChecks (Headers.extractHeaders response))
       <= 7) /\
  (passed r = true ->
     (length (warnings r) <= 2)%nat /\
     (length (warnings r) = 2%nat ->
        In "Missing Permissions-Policy header." (warnings r) /\
        ~ In "Missing Strict-Transport-Security header (HSTS)." (warnings r) /\
        ~ In "Missing Content-Security-Policy header." (warnings r))).
Proof.
  intros r.
  assert (Hp : passed r = (18 <=? score r)).
  { by destruct (headers_finalized axios_get targetUrl context). }
  assert (Hiff : passed r = true <->
    exists response e,
      Headers.obtain axios_get targetUrl context = (Some response, e) /\
      penalties (Headers.createHeaderChecks (Headers.extractHeaders response))
        <= 7).
  { split.
    - intros H. destruct (Headers.obtain axios_get targetUrl context)
        as [[response|] e] eqn:Ho.
      + exists response, e. split; [done|].
        destruct (checkHeaders_obtained _ _ _ _ _ Ho) as (Hs & _).
        fold r in Hs. rewrite Hp, Hs, Z.leb_le in H. lia.
      + exfalso. revert H. unfold r, Headers.checkHeaders. by rewrite Ho.
    - intros (response & e & Ho & Hle).
      destruct (checkHeaders_obtained _ _ _ _ _ Ho) as (Hs & _).
      fold r in Hs. rewrite Hp, Hs, Z.leb_le. lia. }
  split; [exact Hiff|].
  intros H. apply Hiff in H as (response & e & Ho & Hle).
  destruct (checkHeaders_obtained _ _ _ _ _ Ho) as (_ & Hw & _).
  fold r in Hw. rewrite Hw.
  apply few_failures; [apply checks_shape|apply checks_warnings|exact Hle].
Qed.

(* ===================================================================== *)
(** ** More on the WHOIS check *)
(* ===================================================================== *)

Lemma normalizeRecord_lookup record k :
  Whois.normalizeRecord record !! k = lastNamed Whois.normalizeKey k record.
Proof.
  unfold Whois.normalizeRecord. rewrite fold_insert_lookup, lookup_empty.
  by destruct (lastNamed _ _ _).
Qed.

Lemma pickValue_first m pre k post v :
  (forall k' v', In k' pre -> m !! Whois.normalizeKey k' = Some v' ->
                 v' = Undefined) ->
  m !! Whois.normalizeKey k = Some v -> v <> Undefined ->
  Whois.pickValue m (pre ++ k :: post) = v.
Proof.
  intros Hpre Hk Hv. induction pre as [|k' pre IH]; simpl.
  - rewrite Hk. by destruct v.
  - destruct (m !! Whois.normalizeKey k') as [v'|] eqn:E.
    + rewrite (Hpre k' v' (or_introl eq_refl) E).
      apply IH. intros k'' v'' Hin. apply Hpre. by right.
    + apply IH. intros k'' v'' Hin. apply Hpre. by right.
Qed.

Lemma pickValue_none m keys :
  (forall k v, In k keys -> m !! Whois.normalizeKey k = Some v ->
               v = Undefined) ->
  Whois.pickValue m keys = Undefined.
Proof.
  intros H. induction keys as [|k keys IH]; simpl; [done|].
  destruct (m !! Whois.normalizeKey k) as [v|] eqn:E.
  - rewrite (H k v (or_introl eq_refl) E). apply IH.
    intros k' v' Hin. apply H. by right.
  - apply IH. intros k' v' Hin. apply H. by right.
Qed.

Lemma aliases_normalised keys :
  In keys [ Whois.creationAliases; Whois.expiryAliases;
            Whois.registrarAliases; Whois.nameServerAliases ] ->
  Forall (fun k => Whois.normalizeKey k = k) keys.
Proof.
  simpl. intros [<-|[<-|[<-|[<-|[]]]]];
    repeat apply Forall_cons_2; try apply Forall_nil_2; reflexivity.
Qed.

Lemma class_lower c :
  is_space (lower_char c) || Ascii.eqb (lower_char c) "_"
    || Ascii.eqb (lower_char c) "-"
  = is_space c || Ascii.eqb c "_" || Ascii.eqb c "-".
Proof. destruct c as [[] [] [] [] [] [] [] []]; reflexivity. Qed.

(** [normalizeKey] is the field name of the specification. *)
Lemma normalizeKey_fieldName k : Whois.normalizeKey k = fieldName k.
Proof.
  unfold Whois.normalizeKey, fieldName.
  induction k as [|c k IH]; [reflexivity|].
  cbn [toLowerCase remove_all list_ascii_of_string List.filter].
  rewrite class_lower, IH.
  destruct (is_space c), (Ascii.eqb c "_"), (Ascii.eqb c "-"); reflexivity.
Qed.

Lemma lastNamed_ext {A : Type} norm norm' k (entries : list (string * A)) :
  (forall x, norm x = norm' x) ->
  lastNamed norm k entries = lastNamed norm' k entries.
Proof.
  intros H. induction entries as [|[k' v] entries IH]; simpl; [done|].
  by rewrite IH, H.
Qed.

(** X19. How a field of the WHOIS record is found.  The names of the
    record are compared without their white space, underscores and
    hyphens and in lower case ([fieldName]), the last field of a name
    counting; of the aliases of a field (creation date, expiry date,
    registrar, name servers) the first one in the list with a defined
    value gives the value, and the value is undefined when none has
    one. *)
Theorem whois_fields_resolve_by_alias record keys :
  In keys [ Whois.creationAliases; Whois.expiryAliases;
            Whois.registrarAliases; Whois.nameServerAliases ] ->
  let field k := lastNamed fieldName k record in
  let picked := Whois.pickValue (Whois.normalizeRecord record) keys in
  (forall pre k post v,
     keys = (pre ++ k :: post)%list ->
     (forall k' v', In k' pre -> field k' = Some v' -> v' = Undefined) ->
     field k = Some v -> v <> Undefined ->
     picked = v) /\
  ((forall k v, In k keys -> field k = Some v -> v = Undefined) ->
   picked = Undefined).
Proof.
  intros Hkeys field picked. apply aliases_normalised in Hkeys.
  rewrite Forall_forall in Hkeys.
  assert (Hfield : forall k, k ∈ keys ->
    Whois.normalizeRecord record !! Whois.normalizeKey k = field k).
  { intros k Hin. rewrite Hkeys, normalizeRecord_lookup by done.
    apply lastNamed_ext, normalizeKey_fieldName. }
  split.
  - intros pre k post v -> Hpre Hk Hv. unfold picked.
    apply pickValue_first; [| |done].
    + intros k' v' Hin. rewrite Hfield; [by apply Hpre|].
      apply list_elem_of_In, in_or_app. by left.
    + rewrite Hfield; [done|]. apply list_elem_of_In, in_elt.
  - intros Hnone. unfold picked. apply pickValue_none.
    intros k v Hin. rewrite Hfield; [by apply Hnone|].
    by apply list_elem_of_In.
Qed.

Lemma whois_fields_resolve_by_alias_witness :
  Whois.pickValue
    (Whois.normalizeRecord
       [ ("expiry date", Str "2031-01-01T00:00:00Z");
         ("Registry_Expiry-Date ", Str "2030-01-01T00:00:00Z");
         ("Creation Date", Str "2020-01-01T00:00:00Z") ])
    Whois.expiryAliases
  = Str "2030-01-01T00:00:00Z".
Proof.
  apply (proj1 (whois_fields_resolve_by_alias
    [ ("expiry date", Str "2031-01-01T00:00:00Z");
      ("Registry_Expiry-Date ", Str "2030-01-01T00:00:00Z");
      ("Creation Date", Str "2020-01-01T00:00:00Z") ]
    Whois.expiryAliases ltac:(simpl; tauto))
    [] "registryexpirydate"
    ["expirationdate"; "expirydate"; "registrarexpirationdate";
     "domainexpirydate"]
    (Str "2030-01-01T00:00:00Z") eq_refl).
  - intros k' v' [].
  - reflexivity.
  - discriminate.
Defined.

Section WhoisMore.

Variable URL_parse : string -> option URL.
Variable psl_domain : string -> option string.
Variable Date_parse : string -> option Z.
Variable toISOString : Z -> string.
Variable now : Z.

#[local] Abbreviation checkWhois whois :=
  (Whois.checkWhois URL_parse psl_domain whois Date_parse toISOString now).
#[local] Abbreviation created record :=
  (Whois.parseDate Date_parse
     (Whois.pickValue (Whois.normalizeRecord record) Whois.creationAliases)).
#[local] Abbreviation expires record :=
  (Whois.parseDate Date_parse
     (Whois.pickValue (Whois.normalizeRecord record) Whois.expiryAliases)).
#[local] Abbreviation registrarOf record :=
  (Whois.pickValue (Whois.normalizeRecord record) Whois.registrarAliases).

Lemma checkWhois_scored whois targetUrl parsedUrl domain record :
  URL_parse targetUrl = Some parsedUrl ->
  psl_domain (hostname parsedUrl) = Some domain ->
  domain <> "" ->
  whois domain = Whois.WhoisRecord (Some record) ->
  record <> [] ->
  checkWhois whois targetUrl
    = Whois.scoreRecord Date_parse toISOString now domain record.
Proof.
  intros Hu Hd Hne Hw Hr. unfold Whois.checkWhois. rewrite Hu, Hd.
  unfold truthy_str, nonempty.
  destruct (String.eqb_spec domain ""); [done|]. simpl. rewrite Hw.
  by destruct record.
Qed.

Lemma scoreRecord_score domain record :
  score (Whois.scoreRecord Date_parse toISOString now domain record)
    = clamp (25 - agePenalty now (created record)
                - expiryPenalty now (expires record)
                - registrarPenalty (registrarOf record)).
Proof.
  unfold Whois.scoreRecord, Whois.finalizeResult. rewrite finalize_score.
  f_equal. rewrite registrarStep_score, expiryStep_score, creationStep_score.
  cbn [l_score]. unfold registrarPenalty. by rewrite truthy_or_undefined.
Qed.

(** X20. The WHOIS category passes exactly when the lookup for the
    registrable domain returns a non-empty record and the penalties
    (12/6 age or 6 unknown, 10/6 expiry or 5 unknown, 3 registrar) add
    up to at most 7.  So it never passes for a domain younger than 30
    days, for an expired domain, or when both dates are unknown. *)
Theorem whois_passes_within_7_points whois targetUrl :
  (passed (checkWhois whois targetUrl) = true <->
   exists parsedUrl domain record,
     URL_parse targetUrl = Some parsedUrl /\
     psl_domain (hostname parsedUrl) = Some domain /\
     domain <> "" /\
     whois domain = Whois.WhoisRecord (Some record) /\
     record <> [] /\
     agePenalty now (created record) + expiryPenalty now (expires record)
       + registrarPenalty (registrarOf record) <= 7) /\
  (forall parsedUrl domain record,
     passed (checkWhois whois targetUrl) = true ->
     URL_parse targetUrl = Some parsedUrl ->
     psl_domain (hostname parsedUrl) = Some domain ->
     whois domain = Whois.WhoisRecord (Some record) ->
     (forall t, created record = Some t -> 30 <= (now - t) / 86400000) /\
     (forall t, expires record = Some t -> 0 < (t - now) / 86400000) /\
     (created record <> None \/ expires record <> None)).
Proof.
  assert (Hrec : forall parsedUrl domain record,
    URL_parse targetUrl = Some parsedUrl ->
    psl_domain (hostname parsedUrl) = Some domain ->
    domain <> "" ->
    whois domain = Whois.WhoisRecord (Some record) ->
    record <> [] ->
    passed (checkWhois whois targetUrl) = true <->
    agePenalty now (created record) + expiryPenalty now (expires record)
      + registrarPenalty (registrarOf record) <= 7).
  { intros u domain record Hu Hd Hne Hw Hr.
    pose proof (whois_finalized URL_parse psl_domain whois Date_parse
                  toISOString now targetUrl) as Hf.
    assert (Hps : passed (checkWhois whois targetUrl)
                  = (18 <=? score (checkWhois whois targetUrl))).
    { destruct Hf. reflexivity. }
    rewrite Hps, Z.leb_le, (checkWhois_scored _ _ _ _ _ Hu Hd Hne Hw Hr),
      scoreRecord_score.
    unfold clamp, agePenalty, expiryPenalty, registrarPenalty.
    destruct (created record), (expires record), (truthy (registrarOf record));
      repeat destruct (_ <? _); repeat destruct (_ <=? _); lia. }
  assert (Hinv : passed (checkWhois whois targetUrl) = true ->
    exists parsedUrl domain record,
      URL_parse targetUrl = Some parsedUrl /\
      psl_domain (hostname parsedUrl) = Some domain /\
      domain <> "" /\
      whois domain = Whois.WhoisRecord (Some record) /\
      record <> []).
  { unfold Whois.checkWhois.
    destruct (URL_parse targetUrl) as [u|] eqn:Hu; [|discriminate].
    destruct (psl_domain (hostname u)) as [d|] eqn:Hd; [|discriminate].
    unfold truthy_str, nonempty.
    destruct (String.eqb_spec d "") as [->|Hne]; [discriminate|].
    cbn [negb default id from_option].
    destruct (whois d) as [[[|e record]|]|error] eqn:Hw; try discriminate.
    intros _. exists u, d, (e :: record). by split_and!. }
  split.
  - split.
    + intros H. destruct (Hinv H) as (u & d & record & Hu & Hd & Hne & Hw & Hr).
      exists u, d, record. split_and!; try done.
      by apply (Hrec u d record).
    + intros (u & d & record & Hu & Hd & Hne & Hw & Hr & Hp).
      by apply (Hrec u d record).
  - intros u d record H Hu Hd Hw.
    destruct (Hinv H) as (u' & d' & record' & Hu' & Hd' & Hne & Hw' & Hr).
    rewrite Hu in Hu'. injection Hu' as <-.
    rewrite Hd in Hd'. injection Hd' as <-.
    rewrite Hw in Hw'. injection Hw' as <-.
    apply (Hrec u d record Hu Hd Hne Hw Hr) in H.
    assert (B1 : 0 <= agePenalty now (created record)).
    { unfold agePenalty. destruct (created record); [|lia].
      repeat destruct (_ <? _); lia. }
    assert (B2 : 0 <= expiryPenalty now (expires record)).
    { unfold expiryPenalty. destruct (expires record); [|lia].
      repeat destruct (_ <=? _); lia. }
    assert (B3 : 0 <= registrarPenalty (registrarOf record)).
    { unfold registrarPenalty. destruct (truthy _); lia. }
    split_and!.
    + intros t Ht. rewrite Ht in H. unfold agePenalty in H.
      destruct (Z.ltb_spec ((now - t) / 86400000) 30); lia.
    + intros t Ht. rewrite Ht in H. unfold expiryPenalty in H.
      destruct (Z.leb_spec ((t - now) / 86400000) 0); lia.
    + destruct (created record); [by left|].
      destruct (expires record); [by right|].
      exfalso. unfold agePenalty, expiryPenalty in H. lia.
Qed.

(** X21. The lookup is made for the registrable domain of the host and
    for nothing else: the result depends on the WHOIS service only
    through its answer for that domain, and not at all when the URL is
    invalid or its host has no registrable domain. *)
Theorem whois_lookup_is_for_the_registrable_domain whois whois' targetUrl :
  (forall parsedUrl domain,
     URL_parse targetUrl = Some parsedUrl ->
     psl_domain (hostname parsedUrl) = Some domain ->
     domain <> "" ->
     whois domain = whois' domain) ->
  checkWhois whois targetUrl = checkWhois whois' targetUrl.
Proof.
  intros H. unfold Whois.checkWhois.
  destruct (URL_parse targetUrl) as [u|]; [|done].
  destruct (psl_domain (hostname u)) as [d|] eqn:Hd; [|done].
  unfold truthy_str, nonempty.
  destruct (String.eqb_spec d "") as [->|Hne]; [done|].
  cbn [negb default id from_option]. by rewrite (H u d eq_refl Hd Hne).
Qed.

End WhoisMore.

Lemma whois_passes_within_7_points_witness :
  passed (Whois.checkWhois Example.URL_parse Example.psl_domain Example.whois
            Example.Date_parse Example.toISOString Example.now
            "https://example.com/") = true.
Proof.
  apply (proj1 (whois_passes_within_7_points Example.URL_parse
    Example.psl_domain Example.Date_parse Example.toISOString Example.now
    Example.whois "https://example.com/")).
  exists Example.site, "example.com", Example.whoisRecord.
  split_and!; try reflexivity; discriminate.
Defined.

Lemma whois_lookup_is_for_the_registrable_domain_witness :
  Whois.checkWhois Example.URL_parse Example.psl_domain Example.whois
    Example.Date_parse Example.toISOString Example.now "https://example.com/"
  = Whois.checkWhois Example.URL_parse Example.psl_domain
      (fun domain => if String.eqb domain "example.com"
                     then Example.whois domain
                     else Whois.WhoisError {| message := Some "ECONNRESET" |})
      Example.Date_parse Example.toISOString Example.now "https://example.com/".
Proof.
  apply (whois_lookup_is_for_the_registrable_domain Example.URL_parse
    Example.psl_domain Example.Date_parse Example.toISOString Example.now).
  intros u d Hu Hd _. injection Hu as <-. simpl in Hd. by injection Hd as <-.
Defined.

Lemma split_spaces_space_free s :
  Forall (fun w => has_char is_space w = false) (split_spaces s).
Proof.
  induction s as [|c t IH]; simpl; [by repeat constructor|].
  destruct (is_space c) eqn:Ec.
  - destruct t as [|c' t']; [by repeat constructor|].
    destruct (is_space c'); [done|]. by constructor.
  - destruct (split_spaces t) as [|h r]; [constructor; simpl; [by rewrite Ec|done]|].
    inversion IH; subst. constructor; [simpl; by rewrite Ec|done].
Qed.

Lemma trimStart_space_free w : has_char is_space w = false -> trimStart w = w.
Proof.
  destruct w as [|c t]; simpl; [done|]. by destruct (is_space c).
Qed.

Lemma trimEnd_space_free w : has_char is_space w = false -> trimEnd w = w.
Proof.
  induction w as [|c t IH]; simpl; [done|].
  destruct (is_space c); [done|]. simpl. intros H. by rewrite IH.
Qed.

Lemma trim_space_free w : has_char is_space w = false -> trim w = w.
Proof.
  intros H. unfold trim. by rewrite trimStart_space_free, trimEnd_space_free.
Qed.

Lemma append_cons c x y : (String c x ++ y)%string = String c (x ++ y).
Proof. reflexivity. Qed.

Lemma filter_split_space c t :
  is_space c = true ->
  List.filter nonempty (split_spaces (String c t))
    = List.filter nonempty (split_spaces t).
Proof.
  intros Hc. cbn [split_spaces]. rewrite Hc.
  destruct t as [|c' t']; [reflexivity|]. by destruct (is_space c').
Qed.

Lemma filter_split_gap gap r :
  blank gap = true ->
  List.filter nonempty (split_spaces (gap ++ r))
    = List.filter nonempty (split_spaces r).
Proof.
  induction gap as [|c gap IH]; [done|]. cbn [blank].
  intros [Hc Hg]%andb_true_iff. rewrite append_cons, filter_split_space by done.
  by apply IH.
Qed.

Lemma filter_split_blank t :
  blank t = true -> List.filter nonempty (split_spaces t) = [].
Proof.
  induction t as [|c t IH]; [reflexivity|]. cbn [blank].
  intros [Hc Ht]%andb_true_iff. rewrite filter_split_space by done.
  by apply IH.
Qed.

Lemma split_spaces_word w r h tl :
  has_char is_space w = false ->
  split_spaces r = h :: tl ->
  split_spaces (w ++ r) = (w ++ h)%string :: tl.
Proof.
  intros Hw Hr. induction w as [|c w IH]; [done|]. simpl in Hw.
  apply orb_false_iff in Hw as [Hc Hw]. rewrite append_cons.
  cbn [split_spaces]. rewrite Hc, (IH Hw). reflexivity.
Qed.

(** A text that is empty or starts with white space starts, once
    split, with the empty piece. *)
Lemma split_spaces_blank_start r :
  match r with String c _ => is_space c = true | EmptyString => True end ->
  exists tl, split_spaces r = "" :: tl.
Proof.
  induction r as [|c t IH]; [by exists []|]. intros Hc.
  cbn [split_spaces]. rewrite Hc. destruct t as [|c' t']; [by eauto|].
  destruct (is_space c') eqn:Hc'; [by apply IH|by eauto].
Qed.

Lemma spaced_blank_start rest trail :
  Forall (fun gw => blank (fst gw) = true /\ wordOf (snd gw)) rest ->
  Forall (fun gw => fst gw <> "") rest ->
  blank trail = true ->
  match spaced rest trail with
  | String c _ => is_space c = true
  | EmptyString => True
  end.
Proof.
  intros Hw Hg Ht. destruct rest as [|[gap w] rest]; simpl.
  - destruct trail as [|c t]; [done|]. simpl in Ht.
    by apply andb_true_iff in Ht as [? _].
  - inversion Hw as [|? ? [Hb _] _]; subst. inversion Hg as [|? ? Hne _]; subst.
    simpl in Hb, Hne. destruct gap as [|c g]; [done|]. simpl in Hb.
    rewrite append_cons. by apply andb_true_iff in Hb as [? _].
Qed.

Lemma append_empty x : (x ++ "")%string = x.
Proof.
  induction x as [|c x IH]; [reflexivity|]. by rewrite append_cons, IH.
Qed.

Lemma split_spaced words trail :
  wordsOf words trail ->
  List.filter nonempty (split_spaces (spaced words trail)) = map snd words.
Proof.
  intros (Hw & Hg & Ht). revert Hg.
  induction Hw as [|[gap w] rest [Hb [Hne Hsp]] Hw IH]; intros Hg.
  - simpl. by apply filter_split_blank.
  - cbn [spaced map snd tail] in *. simpl in Hb, Hne, Hsp.
    rewrite filter_split_gap by done.
    destruct (split_spaces_blank_start (spaced rest trail)) as [tl Htl].
    { by apply spaced_blank_start. }
    rewrite (split_spaces_word w _ "" tl Hsp Htl), append_empty.
    cbn [List.filter]. destruct w as [|c w]; [done|].
    change (nonempty (String c w)) with true. cbv iota. f_equal.
    rewrite <- IH.
    + by rewrite Htl.
    + destruct rest; [constructor|]. by inversion Hg.
Qed.

(** Every text is a text of words. *)
Lemma spaced_complete s :
  exists words trail, wordsOf words trail /\ s = spaced words trail.
Proof.
  unfold wordsOf. induction s as [|c s (words & trail & (Hw & Hg & Ht) & ->)].
  - exists [], "". by repeat split.
  - destruct (is_space c) eqn:Hc.
    + destruct words as [|[gap w] rest].
      * exists [], (String c trail). repeat split; [constructor|constructor|].
        simpl. by rewrite Hc.
      * exists ((String c gap, w) :: rest), trail.
        inversion Hw as [|? ? [Hb Hwo] Hw']; subst. simpl in Hb.
        repeat split; [|done|done].
        constructor; [|done]. split; [|done]. simpl. by rewrite Hc, Hb.
    + destruct words as [|[gap w] rest].
      * exists [("", String c "")], trail.
        repeat split; [|constructor|done].
        constructor; [|constructor]. split; [done|].
        split; [done|]. simpl. by rewrite Hc.
      * inversion Hw as [|? ? [Hb [Hne Hsp]] Hw']; subst.
        simpl in Hb, Hne, Hsp. destruct gap as [|g gap].
        -- exists (("", String c w) :: rest), trail.
           repeat split; [|done|done].
           constructor; [|done]. split; [done|].
           split; [done|]. simpl. by rewrite Hc, Hsp.
        -- exists (("", String c "") :: (String g gap, w) :: rest), trail.
           repeat split; [| |done].
           ++ constructor; [|done]. split; [done|].
              split; [done|]. simpl. by rewrite Hc.
           ++ simpl. constructor; [done|]. exact Hg.
Qed.

(** X22. The name servers of a record.  A list is taken as it is.  A
    string is cut at its runs of white space: a text made of words,
    each after a gap of white space (the first gap may be empty), and of
    white space at the end gives exactly the words, in order; and every
    string is such a text.  Every other value gives no entry. *)
Theorem name_servers_are_split_at_white_space :
  (forall l, Whois.toArray (Arr l) = l) /\
  (forall words trail,
     wordsOf words trail ->
     Whois.toArray (Str (spaced words trail))
       = map (fun gw => Str (snd gw)) words) /\
  (forall s, exists words trail, wordsOf words trail /\ s = spaced words trail) /\
  (forall v, (forall l, v <> Arr l) -> (forall s, v <> Str s) ->
     Whois.toArray v = []).
Proof.
  split_and!.
  - reflexivity.
  - intros words trail Hw. set (s := spaced words trail).
    assert (Hm : map trim (split_spaces s) = split_spaces s).
    { pose proof (split_spaces_space_free s) as H.
      induction H as [|w l Hw' _ IH]; [done|]. simpl.
      by rewrite trim_space_free, IH. }
    assert (Hs : Whois.toArray (Str s)
                 = map Str (List.filter nonempty (split_spaces s))).
    { unfold Whois.toArray. rewrite Hm. by destruct s. }
    rewrite Hs. unfold s. rewrite split_spaced by done. by rewrite map_map.
  - apply spaced_complete.
  - intros v Ha Hs. unfold Whois.toArray.
    destruct (negb (truthy v)); [done|].
    destruct v; try done; [by destruct (Hs s)|by destruct (Ha l)].
Qed.

(* ===================================================================== *)
(** ** The client: src/App.jsx and src/components/UrlForm.jsx *)
(* ===================================================================== *)

(** *** Trimming the text of the form *)

Lemma trimStart_blank s :
  Forall (fun u => Client.is_white_space u = true) (Client.trimStart s) <->
  Forall (fun u => Client.is_white_space u = true) s.
Proof.
  induction s as [|u s IH]; [done|]. cbn [Client.trimStart].
  destruct (Client.is_white_space u) eqn:E; [|done].
  rewrite IH. split; [by constructor|by inversion 1].
Qed.

Lemma trimEnd_nil s :
  Client.trimEnd s = [] <-> Forall (fun u => Client.is_white_space u = true) s.
Proof.
  induction s as [|u s IH]; [done|]. cbn [Client.trimEnd].
  destruct (Client.trimEnd s) as [|u' t'].
  - destruct (Client.is_white_space u) eqn:E.
    + split; [intros _; constructor; [done|by apply IH]|done].
    + split; [done|]. inversion 1; congruence.
  - split; [done|]. inversion 1 as [|? ? _ Hs]; subst. by apply IH in Hs.
Qed.

Lemma trim_nil s :
  Client.trim s = [] <-> Forall (fun u => Client.is_white_space u = true) s.
Proof. unfold Client.trim. by rewrite trimEnd_nil, trimStart_blank. Qed.

Lemma trimStart_split s :
  exists lead,
    s = (lead ++ Client.trimStart s)%list /\
    Forall (fun u => Client.is_white_space u = true) lead /\
    forall u, head (Client.trimStart s) = Some u ->
              Client.is_white_space u = false.
Proof.
  induction s as [|u s (lead & Hs & Hl & Hh)]; [by exists []|].
  cbn [Client.trimStart]. destruct (Client.is_white_space u) eqn:E.
  - exists (u :: lead). split_and!; [by rewrite Hs at 1|by constructor|done].
  - exists []. split_and!; [done|done|]. by intros ? [= <-].
Qed.

Lemma trimEnd_split s :
  exists trail,
    s = (Client.trimEnd s ++ trail)%list /\
    Forall (fun u => Client.is_white_space u = true) trail /\
    (forall u, last (Client.trimEnd s) = Some u ->
               Client.is_white_space u = false) /\
    (forall u, head (Client.trimEnd s) = Some u -> head s = Some u).
Proof.
  induction s as [|u s (trail & Hs & Hl & Hlast & _)]; [by exists []|].
  cbn [Client.trimEnd]. destruct (Client.trimEnd s) as [|u' t'] eqn:Et.
  - simpl in Hs. destruct (Client.is_white_space u) eqn:E.
    + exists (u :: trail). split_and!; [by rewrite Hs at 1|by constructor|done|done].
    + exists trail. split_and!; [by rewrite Hs at 1|done| |done].
      by intros ? [= <-].
  - exists trail. split_and!; [by rewrite Hs at 1|done| |done].
    intros v Hv. apply Hlast. by rewrite last_cons_cons in Hv.
Qed.

Lemma trimStart_fixed s :
  (forall u, head s = Some u -> Client.is_white_space u = false) ->
  Client.trimStart s = s.
Proof.
  destruct s as [|u s]; [done|]. intros H. cbn [Client.trimStart].
  by rewrite (H u eq_refl).
Qed.

Lemma trimEnd_fixed s :
  (forall u, last s = Some u -> Client.is_white_space u = false) ->
  Client.trimEnd s = s.
Proof.
  induction s as [|u s IH]; [done|]. intros H. cbn [Client.trimEnd].
  destruct s as [|u' s'].
  - simpl. by rewrite (H u eq_refl).
  - rewrite IH; [done|]. intros v Hv. apply H. by rewrite last_cons_cons.
Qed.

(** On a text of 8-bit code units the browser trims as the server
    does. *)
Lemma white_space_latin1 c : Client.is_white_space (N_of_ascii c) = is_space c.
Proof. destruct c as [[] [] [] [] [] [] [] []]; reflexivity. Qed.

Lemma trimStart_latin1 s :
  Client.trimStart (latin1 s) = latin1 (trimStart s).
Proof.
  induction s as [|c s IH]; [done|].
  change (latin1 (String c s)) with (N_of_ascii c :: latin1 s).
  cbn [Client.trimStart trimStart]. rewrite white_space_latin1.
  by destruct (is_space c).
Qed.

Lemma trimEnd_latin1 s : Client.trimEnd (latin1 s) = latin1 (trimEnd s).
Proof.
  induction s as [|c s IH]; [done|].
  change (latin1 (String c s)) with (N_of_ascii c :: latin1 s).
  cbn [Client.trimEnd trimEnd]. rewrite IH, white_space_latin1.
  destruct (trimEnd s) as [|c' t']; [|by rewrite andb_false_r].
  simpl. by destruct (is_space c).
Qed.

Lemma trim_latin1 s : Client.trim (latin1 s) = latin1 (trim s).
Proof. unfold Client.trim, trim. by rewrite trimStart_latin1, trimEnd_latin1. Qed.

(** *** The form *)

Section Form.

Variable URL_parse : string -> option URL.
Variable Date_parse : string -> option Z.
Variable toISOString : Z -> string.
Variable now : Z.
Variable fetch headers_get cookies_get : string -> AxiosOutcome.
Variable network : string -> Z -> Tls.SocketEvent.
Variable parse : option HeaderValue -> list Cookies.Cookie.
Variable psl_domain : string -> option string.
Variable whois : string -> Whois.WhoisOutcome.
Variable order : list nat.

#[local] Abbreviation handler :=
  (Server.check URL_parse Date_parse toISOString now fetch headers_get
     cookies_get network parse psl_domain whois order).

#[local] Abbreviation white u := (Client.is_white_space u = true).

(** X26. The form, on the text of the browser (UTF-16 code units, the
    white space being all the white space and line terminators that
    [trim] removes).  It submits nothing exactly for a text of white
    space only.  Otherwise it submits the text without the white space
    at its two ends: a text that is not empty, neither starts nor ends
    with white space, and would be submitted unchanged.  The button is
    disabled exactly while a check runs or nothing would be submitted.
    For a text of 8-bit code units the server receives the text as its
    own [trim] leaves it and never answers with its request for a
    url. *)
Theorem form_submits_trimmed_text value :
  (Client.handleSubmit value = None <-> Forall (fun u => white u) value) /\
  (forall url, Client.handleSubmit value = Some url ->
     url <> [] /\
     (exists lead trail,
        value = (lead ++ url ++ trail)%list /\
        Forall (fun u => white u) lead /\ Forall (fun u => white u) trail) /\
     (forall u, head url = Some u -> ~ white u) /\
     (forall u, last url = Some u -> ~ white u) /\
     Client.handleSubmit url = Some url) /\
  (forall isLoading,
     Client.submitDisabled isLoading value = true <->
     isLoading = true \/ Client.handleSubmit value = None) /\
  (forall s url,
     value = latin1 s -> Client.handleSubmit value = Some url ->
     url = latin1 (trim s) /\
     handler (Some (trim s))
       <> Some (Server.Status400 "Please provide a url in the request body.")).
Proof.
  assert (Hnone : Client.handleSubmit value = None <-> Client.trim value = []).
  { unfold Client.handleSubmit. by destruct (Client.trim value). }
  assert (Hsome : forall url, Client.handleSubmit value = Some url ->
                              url = Client.trim value /\ url <> []).
  { unfold Client.handleSubmit. intros url.
    destruct (Client.trim value); [done|]. by intros [= <-]. }
  split_and!.
  - by rewrite Hnone, trim_nil.
  - intros url [-> Hne]%Hsome. unfold Client.trim in *.
    destruct (trimStart_split value) as (lead & Hv & Hl & Hh).
    destruct (trimEnd_split (Client.trimStart value))
      as (trail & Ht & Htr & Hlast & Hhead).
    assert (H1 : forall u, head (Client.trimEnd (Client.trimStart value)) = Some u ->
                           Client.is_white_space u = false).
    { intros u Hu. by apply Hh, Hhead. }
    split_and!.
    + done.
    + exists lead, trail. split_and!; [|done|done].
      rewrite Hv at 1. by rewrite Ht at 1.
    + intros u Hu. rewrite (H1 u Hu). discriminate.
    + intros u Hu. rewrite (Hlast u Hu). discriminate.
    + unfold Client.handleSubmit, Client.trim.
      rewrite (trimStart_fixed _ H1), (trimEnd_fixed _ Hlast).
      by destruct (Client.trimEnd (Client.trimStart value)).
  - intros isLoading. unfold Client.submitDisabled. rewrite Hnone.
    destruct isLoading; simpl; [by intuition|].
    destruct (Client.trim value); intuition discriminate.
  - intros s url -> [-> Hne]%Hsome. rewrite trim_latin1 in Hne |- *.
    split; [done|].
    assert (Ht : trim s <> "") by (by intros E; rewrite E in Hne).
    unfold Server.check, truthy_str, nonempty.
    destruct (String.eqb_spec (trim s) ""); [done|].
    cbn [negb default id from_option].
    destruct (URL_parse (trim s)) as [u|]; [|discriminate].
    destruct (negb _); [discriminate|].
    destruct (Server.fetchSiteResponse _ _) as [r e]. intros H.
    apply aggregate_inv in H as (body & [=] & _). apply tasks_described.
Qed.

End Form.

Lemma form_submits_trimmed_text_witness :
  Client.handleSubmit [12288; 8232; 65279; 32]%N = None.
Proof.
  apply (proj1 (form_submits_trimmed_text Example.URL_parse
    Example.Date_parse Example.toISOString Example.now
    (fun _ => AxiosResponse (Example.response Example.secureHeaders))
    Example.unreachable Example.unreachable
    (Example.network (Some "Jan  1 00:00:00 2030 GMT")) Example.parse
    Example.psl_domain Example.whois [0; 1; 2; 3]%nat
    [12288; 8232; 65279; 32]%N)).
  by repeat constructor.
Defined.

(** *** The badge *)

(** X23. The badge of the overall score.  On the rating of a reply the
    class is good from a total of 60, warn from 50 to 59 and bad below
    50, in any capitalisation of the rating, and never neutral; without
    a rating it is neutral. *)
Theorem rating_badge_follows_the_total categories :
  let o := Server.summarizeOverall categories in
  let tone := Client.ratingTone (Some (ratingName (Server.rating o))) in
  (tone = "score-badge--good" <-> 60 <= Server.total o) /\
  (tone = "score-badge--warn" <-> 50 <= Server.total o < 60) /\
  (tone = "score-badge--bad" <-> Server.total o < 50) /\
  tone <> "score-badge--neutral" /\
  (forall rating,
     toLowerCase rating = toLowerCase (ratingName (Server.rating o)) ->
     Client.ratingTone (Some rating) = tone) /\
  Client.ratingTone None = "score-badge--neutral" /\
  Client.ratingTone (Some "") = "score-badge--neutral".
Proof.
  intros o tone.
  destruct (summarizeOverall_rating categories) as (Hd & Hw & Hs).
  fold o in Hd, Hw, Hs. rewrite <- Hd, <- Hw, <- Hs. unfold tone.
  split_and!; try reflexivity;
    try (destruct (Server.rating o); simpl; split; (discriminate || reflexivity)).
  - by destruct (Server.rating o).
  - intros rating H. unfold Client.ratingTone at 1.
    assert (Hn : nonempty rating = true).
    { destruct rating; [|reflexivity]. by destruct (Server.rating o). }
    rewrite Hn, H. by destruct (Server.rating o).
Qed.

(** *** The rows of days *)

Lemma string_tail c c' x y : String c x = String c' y -> x = y.
Proof. by intros [= _ ->]. Qed.

Lemma days_is_no_label x :
  (x ++ " days")%string <> "Expired" /\ (x ++ " days")%string <> "Today" /\
  (x ++ " days")%string <> "1 day".
Proof.
  split_and!; intros H;
    repeat (destruct x as [|? x];
            [discriminate H|rewrite append_cons in H; apply string_tail in H]);
    by destruct x.
Qed.

Lemma formatDays_labels d :
  (Client.formatDays (Some d) = Some "Expired" <-> d < 0) /\
  (Client.formatDays (Some d) = Some "Today" <-> d = 0) /\
  (Client.formatDays (Some d) = Some "1 day" <-> d = 1).
Proof.
  unfold Client.formatDays.
  destruct (days_is_no_label (pretty d)) as (H1 & H2 & H3).
  destruct (Z.ltb_spec d 0); [split_and!; split; (done || lia)|].
  destruct (Z.eqb_spec d 0); [split_and!; split; (done || lia)|].
  destruct (Z.eqb_spec d 1); [split_and!; split; (done || lia)|].
  split_and!; split; try lia; intros [= Heq]; by auto.
Qed.

Lemma prop_app {A : Type} k (d d' : list (string * A)) :
  prop k (d ++ d')%list
    = match prop k d with Some v => Some v | None => prop k d' end.
Proof.
  induction d as [|[k' v] d IH]; simpl; [done|]. by destruct (String.eqb k k').
Qed.

Lemma get_prop k d : get k d = default Undefined (prop k d).
Proof.
  induction d as [|[k' v] d IH]; simpl; [done|]. by destruct (String.eqb k k').
Qed.

(** A step that does not mention the key leaves its entry alone. *)
Ltac untouched :=
  intros;
  repeat match goal with
         | |- context [match ?x with _ => _ end] => destruct x
         end;
  cbn [l_details set push assign]; rewrite ?prop_app; simpl;
  try match goal with |- context [prop ?k ?d] => by destruct (prop k d) end;
  try reflexivity.

Section DayRows.

Variable URL_parse : string -> option URL.
Variable Date_parse : string -> option Z.
Variable toISOString : Z -> string.
Variable now : Z.

Lemma protocolStep_days negotiated l :
  prop "daysUntilExpiry" (l_details (Tls.protocolStep negotiated l))
    = prop "daysUntilExpiry" (l_details l).
Proof. unfold Tls.protocolStep. untouched. Qed.

Lemma issuerStep_days c l :
  prop "daysUntilExpiry" (l_details (Tls.issuerStep c l))
    = prop "daysUntilExpiry" (l_details l).
Proof. unfold Tls.issuerStep. untouched. Qed.

Lemma subjectStep_days c l :
  prop "daysUntilExpiry" (l_details (Tls.subjectStep c l))
    = prop "daysUntilExpiry" (l_details l).
Proof. unfold Tls.subjectStep. untouched. Qed.

Lemma serialStep_days c l :
  prop "daysUntilExpiry" (l_details (Tls.serialStep c l))
    = prop "daysUntilExpiry" (l_details l).
Proof. unfold Tls.serialStep. untouched. Qed.

Lemma validFromStep_days c l :
  prop "daysUntilExpiry" (l_details (Tls.validFromStep Date_parse toISOString c l))
    = prop "daysUntilExpiry" (l_details l).
Proof. unfold Tls.validFromStep. untouched. Qed.

Lemma sanStep_days host c l :
  prop "daysUntilExpiry" (l_details (Tls.sanStep host c l))
    = prop "daysUntilExpiry" (l_details l).
Proof. unfold Tls.sanStep. untouched. Qed.

Lemma validToStep_days c l :
  prop "daysUntilExpiry" (l_details l) = None ->
  prop "daysUntilExpiry"
       (l_details (Tls.validToStep Date_parse toISOString now c l))
    = match expiryOf Date_parse now c with
      | ExpiresIn d => Some (Num d)
      | _ => None
      end.
Proof.
  intros H. unfold Tls.validToStep, expiryOf, truthy_str.
  destruct (Tls.valid_to c) as [s|]; [|done].
  destruct (nonempty s); [|done]. simpl.
  destruct (Date_parse s) as [t|]; [|done].
  change (1000 * 60 * 60 * 24) with 86400000.
  assert (Hb : forall d l', l_details (Tls.expiryBrackets d l') = l_details l').
  { intros d l'. unfold Tls.expiryBrackets.
    repeat (destruct (_ <? _) || destruct (_ <=? _)); reflexivity. }
  rewrite Hb. cbn [l_details set]. rewrite !prop_app, H. reflexivity.
Qed.

(** X24. The row Days Until Expiry of the TLS card.  For a certificate
    read over https the row shows the days the server counted: Expired
    exactly for a date in the past, which the server scores 0 with the
    warning that the certificate is expired, Today for less than a day
    left; there is no row when the date is missing or unparsable. *)
Theorem days_until_expiry_row network targetUrl parsedUrl cert negotiated :
  URL_parse targetUrl = Some parsedUrl ->
  protocol parsedUrl = "https:" ->
  network (hostname parsedUrl) (Tls.portOf parsedUrl)
    = Tls.OnSecureConnect (Tls.PeerInfo (Some cert) negotiated) ->
  let r := Tls.run network
             (Tls.checkTLS URL_parse Date_parse toISOString now targetUrl) in
  let row := Client.formatDays (number (get "daysUntilExpiry" (details r))) in
  row = match expiryOf Date_parse now cert with
        | ExpiresIn d => Client.formatDays (Some d)
        | _ => None
        end /\
  (row = Some "Expired" <-> expired (expiryOf Date_parse now cert)) /\
  (row = Some "Expired" ->
     score r = 0 /\ In "Certificate is expired." (warnings r)) /\
  (row = Some "Today" ->
     expiryOf Date_parse now cert = ExpiresIn 0 /\
     In "Certificate expires within 7 days." (warnings r)).
Proof.
  intros Hu Hp Hn r row.
  assert (Er : r = Tls.onSecureConnect Date_parse toISOString now
                     (hostname parsedUrl) (Tls.portOf parsedUrl)
                     (Tls.PeerInfo (Some cert) negotiated)).
  { unfold r. by apply checkTLS_connected. }
  assert (Hrow : row = match expiryOf Date_parse now cert with
                       | ExpiresIn d => Client.formatDays (Some d)
                       | _ => None
                       end).
  { unfold row. rewrite Er, get_prop.
    unfold Tls.onSecureConnect, Tls.inspect, Tls.finalizeResult, finalize.
    cbn [details]. rewrite sanStep_days, validToStep_days.
    - by destruct (expiryOf Date_parse now cert).
    - by rewrite validFromStep_days, serialStep_days, subjectStep_days,
        issuerStep_days, protocolStep_days. }
  assert (Hexp : row = Some "Expired" <-> expired (expiryOf Date_parse now cert)).
  { rewrite Hrow. unfold expired.
    destruct (expiryOf Date_parse now cert) as [| |d]; [done..|].
    apply formatDays_labels. }
  split_and!; [exact Hrow|exact Hexp| |].
  - intros H. apply Hexp in H. unfold expired in H.
    destruct (expiryOf Date_parse now cert) as [| |d] eqn:E; [done..|]. split.
    + rewrite Er, inspected_score, E.
      destruct (Z.ltb_spec d 0); [|lia]. unfold clamp, sanPenalty.
      repeat case_match; lia.
    + rewrite Er. unfold Tls.onSecureConnect, Tls.inspect, Tls.finalizeResult,
        finalize. cbn [warnings].
      apply sanStep_warnings. by apply (validToStep_expired _ _ _ _ _ d).
  - rewrite Hrow. destruct (expiryOf Date_parse now cert) as [| |d] eqn:E;
      [discriminate..|].
    intros H. apply formatDays_labels in H as ->. split; [done|].
    rewrite Er. unfold Tls.onSecureConnect, Tls.inspect, Tls.finalizeResult,
      finalize. cbn [warnings]. apply sanStep_warnings.
    revert E. unfold Tls.validToStep, expiryOf, truthy_str.
    destruct (Tls.valid_to cert) as [s|]; [|done].
    destruct (nonempty s); [|done]. simpl.
    destruct (Date_parse s) as [t|]; [|done].
    change (1000 * 60 * 60 * 24) with 86400000. intros [= ->].
    simpl. apply in_or_app. right. by left.
Qed.

Lemma creationStep_age created l :
  prop "domainAgeDays" (l_details l) = None ->
  prop "domainAgeDays" (l_details (Whois.creationStep toISOString now created l))
    = option_map (fun t => Num ((now - t) / 86400000)) created.
Proof.
  intros H. unfold Whois.creationStep, Whois.DAY_IN_MS.
  change (1000 * 60 * 60 * 24) with 86400000.
  destruct created as [t|]; [|exact H].
  repeat destruct (_ <? _); cbn [l_details set push assign option_map];
    by rewrite !prop_app, H.
Qed.

Lemma creationStep_days created l :
  prop "daysUntilExpiry" (l_details (Whois.creationStep toISOString now created l))
    = prop "daysUntilExpiry" (l_details l).
Proof. unfold Whois.creationStep. untouched. Qed.

Lemma expiryStep_age expiry l :
  prop "domainAgeDays" (l_details (Whois.expiryStep toISOString now expiry l))
    = prop "domainAgeDays" (l_details l).
Proof. unfold Whois.expiryStep. untouched. Qed.

Lemma expiryStep_days expiry l :
  prop "daysUntilExpiry" (l_details l) = None ->
  prop "daysUntilExpiry" (l_details (Whois.expiryStep toISOString now expiry l))
    = option_map (fun t => Num ((t - now) / 86400000)) expiry.
Proof.
  intros H. unfold Whois.expiryStep, Whois.DAY_IN_MS.
  change (1000 * 60 * 60 * 24) with 86400000.
  destruct expiry as [t|]; [|exact H].
  repeat destruct (_ <=? _); cbn [l_details set push assign option_map];
    by rewrite !prop_app, H.
Qed.

Lemma registrarStep_details registrar l :
  l_details (Whois.registrarStep registrar l) = l_details l.
Proof. unfold Whois.registrarStep. by destruct (negb _). Qed.

(** X25. The rows Domain Age and Expires In of the WHOIS card show the
    days the server counted from the dates of the record, and are
    absent for a date it could not read.  The age row reads Expired for
    a creation date in the future; the expiry row reads Today, not
    Expired, for a domain with less than a day left, which the server
    reports as expired. *)
Theorem whois_day_rows psl_domain whois targetUrl parsedUrl domain record :
  URL_parse targetUrl = Some parsedUrl ->
  psl_domain (hostname parsedUrl) = Some domain ->
  domain <> "" ->
  whois domain = Whois.WhoisRecord (Some record) ->
  record <> [] ->
  let normalized := Whois.normalizeRecord record in
  let creationDate :=
    Whois.parseDate Date_parse (Whois.pickValue normalized Whois.creationAliases) in
  let expiryDate :=
    Whois.parseDate Date_parse (Whois.pickValue normalized Whois.expiryAliases) in
  let r := Whois.checkWhois URL_parse psl_domain whois Date_parse toISOString
             now targetUrl in
  let ageRow := Client.formatDays (number (get "domainAgeDays" (details r))) in
  let expiryRow := Client.formatDays (number (get "daysUntilExpiry" (details r))) in
  (ageRow = match creationDate with
            | Some t => Client.formatDays (Some ((now - t) / 86400000))
            | None => None
            end) /\
  (expiryRow = match expiryDate with
               | Some t => Client.formatDays (Some ((t - now) / 86400000))
               | None => None
               end) /\
  (ageRow = Some "Expired" <-> exists t, creationDate = Some t /\ now < t) /\
  (expiryRow = Some "Today" ->
     In "Domain appears to be expired." (warnings r)).
Proof.
  intros Hu Hd Hne Hw Hr normalized creationDate expiryDate r ageRow expiryRow.
  assert (Er : r = Whois.scoreRecord Date_parse toISOString now domain record).
  { unfold r. by eapply checkWhois_scored. }
  assert (Hage : ageRow = match creationDate with
                          | Some t => Client.formatDays (Some ((now - t) / 86400000))
                          | None => None
                          end).
  { unfold ageRow. rewrite Er, get_prop.
    unfold Whois.scoreRecord, Whois.finalizeResult, finalize. cbn [details].
    rewrite registrarStep_details, expiryStep_age, creationStep_age by reflexivity.
    fold normalized. fold creationDate. by destruct creationDate. }
  assert (Hexp : expiryRow = match expiryDate with
                             | Some t => Client.formatDays (Some ((t - now) / 86400000))
                             | None => None
                             end).
  { unfold expiryRow. rewrite Er, get_prop.
    unfold Whois.scoreRecord, Whois.finalizeResult, finalize. cbn [details].
    rewrite registrarStep_details, expiryStep_days.
    - fold normalized. fold expiryDate. by destruct expiryDate.
    - by rewrite creationStep_days. }
  split_and!; [exact Hage|exact Hexp| |].
  - rewrite Hage. destruct creationDate as [t|].
    + destruct (formatDays_labels ((now - t) / 86400000)) as (-> & _).
      pose proof (Z.div_mod (now - t) 86400000 ltac:(lia)).
      pose proof (Z.mod_pos_bound (now - t) 86400000 ltac:(lia)).
      split; [intros; exists t; split; [done|lia]|].
      intros (t' & [= <-] & Hlt). lia.
    + split; [discriminate|]. by intros (t & [=] & _).
  - rewrite Hexp. destruct expiryDate as [t|] eqn:E; [|discriminate].
    intros H. apply formatDays_labels in H.
    rewrite Er. unfold Whois.scoreRecord, Whois.finalizeResult, finalize.
    cbn [warnings]. fold normalized. fold expiryDate. rewrite E.
    apply step_warnings_grow; [apply registrarStep_grows|].
    unfold Whois.expiryStep, Whois.DAY_IN_MS.
    change (1000 * 60 * 60 * 24) with 86400000. rewrite H. simpl.
    apply in_or_app. right. by left.
Qed.

End DayRows.

Lemma days_until_expiry_row_witness :
  Client.formatDays
    (number
       (get "daysUntilExpiry"
          (details
             (Tls.run (Example.network (Some "Nov  1 00:00:00 2026 GMT"))
                (Tls.checkTLS Example.URL_parse Example.Date_parse
                   Example.toISOString Example.now "https://example.com/")))))
  = Some "Expired".
Proof.
  exact (proj1 (days_until_expiry_row Example.URL_parse Example.Date_parse
    Example.toISOString Example.now
    (Example.network (Some "Nov  1 00:00:00 2026 GMT")) "https://example.com/"
    Example.site (Example.certificate (Some "Nov  1 00:00:00 2026 GMT"))
    (Some "TLSv1.3") eq_refl eq_refl eq_refl)).
Defined.

Lemma whois_day_rows_witness :
  Client.formatDays
    (number
       (get "domainAgeDays"
          (details
             (Whois.checkWhois Example.URL_parse Example.psl_domain
                (fun _ => Whois.WhoisRecord
                   (Some [("Creation Date", Str "2030-01-01T00:00:00Z")]))
                Example.Date_parse Example.toISOString Example.now
                "https://example.com/"))))
  = Some "Expired".
Proof.
  exact (proj1 (whois_day_rows Example.URL_parse Example.Date_parse
    Example.toISOString Example.now Example.psl_domain
    (fun _ => Whois.WhoisRecord
       (Some [("Creation Date", Str "2030-01-01T00:00:00Z")]))
    "https://example.com/" Example.site "example.com"
    [("Creation Date", Str "2030-01-01T00:00:00Z")]
    eq_refl eq_refl ltac:(discriminate) eq_refl ltac:(discriminate))).
Defined.

(* ===================================================================== *)
(** ** The subject alternative names *)
(* ===================================================================== *)

Lemma append_assoc (x y z : string) : ((x ++ y) ++ z = x ++ (y ++ z))%string.
Proof.
  induction x as [|c x IH]; [reflexivity|].
  rewrite !append_cons. by rewrite IH.
Qed.

Lemma has_char_app class x y :
  has_char class (x ++ y) = has_char class x || has_char class y.
Proof.
  induction x as [|c x IH]; [reflexivity|].
  rewrite append_cons. simpl. by rewrite IH, orb_assoc.
Qed.

Lemma split_plain x :
  has_char (fun c => Ascii.eqb c ",") x = false -> split "," x = [x].
Proof.
  induction x as [|c x IH]; simpl; [done|].
  destruct (Ascii.eqb c ","); [done|]. simpl. intros H. by rewrite IH.
Qed.

Lemma split_sep x rest :
  has_char (fun c => Ascii.eqb c ",") x = false ->
  split "," (x ++ String "," rest) = x :: split "," rest.
Proof.
  induction x as [|c x IH]; [reflexivity|].
  rewrite append_cons. simpl.
  destruct (Ascii.eqb c ","); [done|]. simpl. intros H. by rewrite IH.
Qed.

(** An entry of the line, after a comma ([lead = true]: with the space
    Node puts there) or at the start. *)
Lemma strip_DNS_entry (lead : bool) name :
  has_char is_space name = false ->
  Tls.strip_DNS ((if lead then " " else "") ++ "DNS:" ++ name) = name.
Proof.
  intros H. unfold Tls.strip_DNS.
  assert (Ht : trim ((if lead then " " else "") ++ "DNS:" ++ name)
               = ("DNS:" ++ name)%string).
  { unfold trim.
    assert (Hs : trimStart ((if lead then " " else "") ++ "DNS:" ++ name)
                 = ("DNS:" ++ name)%string) by (by destruct lead).
    rewrite Hs. apply trimEnd_space_free. by rewrite has_char_app, H. }
  rewrite Ht. change (lit_i "dns:" ("DNS:" ++ name)) with (Some name).
  by apply trimStart_space_free.
Qed.

Lemma sanLine_cons name next names :
  sanLine (name :: next :: names)
    = ("DNS:" ++ name ++ String "," (" " ++ sanLine (next :: names)))%string.
Proof.
  unfold sanLine, join. cbn [map String.concat].
  by rewrite append_assoc.
Qed.

Lemma sanLine_entries (lead : bool) names :
  Forall plainName names -> names <> [] ->
  map Tls.strip_DNS (split "," ((if lead then " " else "") ++ sanLine names))
    = names.
Proof.
  intros Hall. revert lead.
  induction Hall as [|name names (Hne & Hsp & Hco) Hall IH]; [done|].
  intros lead _. destruct names as [|next names].
  - change (sanLine [name]) with ("DNS:" ++ name)%string.
    rewrite split_plain.
    + simpl. by rewrite strip_DNS_entry.
    + rewrite !has_char_app, Hco. by destruct lead.
  - rewrite sanLine_cons.
    replace ((if lead then " " else "") ++ "DNS:" ++ name ++
             String "," (" " ++ sanLine (next :: names)))%string
      with (((if lead then " " else "") ++ "DNS:" ++ name) ++
            String "," (" " ++ sanLine (next :: names)))%string
      by (by rewrite !append_assoc).
    rewrite split_sep.
    + cbn [map]. rewrite strip_DNS_entry by done. f_equal.
      by apply (IH true).
    + rewrite !has_char_app, Hco. by destruct lead.
Qed.

Lemma filter_nonempty_plain names :
  Forall plainName names -> List.filter nonempty names = names.
Proof.
  induction 1 as [|name names (Hne & _) _ IH]; [done|]. cbn [List.filter].
  destruct name; [done|]. change (nonempty (String a name)) with true.
  cbv iota. by rewrite IH.
Qed.

(** X10. The subject alternative names.  From a line [DNS:a, DNS:b] of
    plain names the check reads exactly the names [a; b], and it
    compares the host with them literally: the 5 points are kept when
    the host is one of the names as written and lost otherwise, so a
    wildcard name covers no host. *)
Theorem san_names_are_matched_literally host c names l :
  Forall plainName names -> names <> [] ->
  Tls.subjectaltname c = Some (sanLine names) ->
  Tls.sanEntries (sanLine names) = names /\
  (In host names -> l_score (Tls.sanStep host c l) = l_score l) /\
  (~ In host names -> l_score (Tls.sanStep host c l) = l_score l - 5) /\
  prop "subjectAltNames" (l_details (Tls.sanStep host c l))
    = match prop "subjectAltNames" (l_details l) with
      | Some v => Some v
      | None => Some (Arr (map Str names))
      end.
Proof.
  intros Hall Hne Hsan.
  assert (He : Tls.sanEntries (sanLine names) = names).
  { unfold Tls.sanEntries.
    assert (Hs : map Tls.strip_DNS (split "," (sanLine names)) = names)
      by exact (sanLine_entries false names Hall Hne).
    rewrite Hs. by apply filter_nonempty_plain. }
  assert (Hn : nonempty (sanLine names) = true).
  { destruct names as [|name [|next names]]; [done|reflexivity|].
    by rewrite sanLine_cons. }
  assert (Hex : existsb (String.eqb host) names = true <-> In host names).
  { rewrite existsb_exists. split.
    - by intros (x & Hin & ->%String.eqb_eq).
    - intros Hin. exists host. split; [done|apply String.eqb_refl]. }
  unfold Tls.sanStep. rewrite Hsan. cbn [truthy_str default id from_option].
  rewrite Hn, He. destruct names as [|name names]; [done|].
  split_and!; [done|..].
  - intros Hin. apply Hex in Hin. by rewrite Hin.
  - intros Hin. destruct (existsb _ _) eqn:E; [|simpl; lia].
    exfalso. by apply Hin, Hex.
  - destruct (negb _); cbn [l_details set push assign]; by rewrite prop_app.
Qed.

Lemma san_names_are_matched_literally_witness :
  l_score (Tls.sanStep "www.example.com"
             {| Tls.issuer := None; Tls.subject := None;
                Tls.serialNumber := None; Tls.valid_from := None;
                Tls.valid_to := None;
                Tls.subjectaltname := Some "DNS:*.example.com, DNS:example.com" |}
             {| l_score := 25; l_warnings := []; l_details := [] |}) = 20.
Proof.
  apply (proj1 (proj2 (proj2 (san_names_are_matched_literally "www.example.com"
    {| Tls.issuer := None; Tls.subject := None;
       Tls.serialNumber := None; Tls.valid_from := None;
       Tls.valid_to := None;
       Tls.subjectaltname := Some "DNS:*.example.com, DNS:example.com" |}
    ["*.example.com"; "example.com"]
    {| l_score := 25; l_warnings := []; l_details := [] |}
    ltac:(repeat constructor; discriminate) ltac:(discriminate) eq_refl)))).
  simpl. intros [H|[H|[]]]; discriminate.
Defined.
